(** * csafetensors: a shallow embedding of the C11 safetensors loader

    The development follows [csafetensors.c] and [csafetensors.h]:
    the half-float codec, the embedded JSON reader, the header
    validator, the container loader and the accessor surface.

    Conventions.
    - [size_t], [uint64_t] are 64-bit, [uint32_t] 32-bit, [uint16_t]
      16-bit unsigned integers; they are integers of [Z] with the
      wrap-around written out ([u64], [u32], [u16]).
    - A [float] is carried as its IEEE 754 binary32 bit pattern (the
      source reads and writes it through a union); the one float
      operation of the codec, a subtraction, is computed with the
      Standard Library's [SpecFloat] at precision 24.
    - A JSON number is a binary64 value of [SpecFloat] (precision 53).
    - C strings are lists of bytes without the terminating NUL.
    - Heap allocation inside the JSON reader and for the directory
      arrays is taken to succeed. *)

From Stdlib Require Import Strings.Byte Strings.String Strings.Ascii.
From Stdlib Require Import ZArith List Bool Lia.
From Stdlib Require Import Floats.SpecFloat.
Import ListNotations.

Set Warnings "-register-all".

Local Open Scope Z_scope.

(** ** Machine integers *)

Module Mach.

Definition u16 (z : Z) : Z := z mod 2 ^ 16.
Definition u32 (z : Z) : Z := z mod 2 ^ 32.
Definition u64 (z : Z) : Z := z mod 2 ^ 64.

Definition SIZE_MAX : Z := 2 ^ 64 - 1.

Definition is_u16 (z : Z) : Prop := 0 <= z < 2 ^ 16.
Definition is_u32 (z : Z) : Prop := 0 <= z < 2 ^ 32.
Definition is_u64 (z : Z) : Prop := 0 <= z < 2 ^ 64.

(** The unsigned value of a byte. *)
Definition u8 (b : byte) : Z := Z.of_N (Byte.to_N b).

(** The integers [lo, lo+1, ..., lo+n-1]. *)
Fixpoint zrange (lo : Z) (n : nat) : list Z :=
  match n with
  | O => []
  | S n' => lo :: zrange (lo + 1) n'
  end.

End Mach.
Import Mach.

(** ** Float conversion utilities *)

Module HalfFloat.

(** binary32: 24 bits of precision, [emax = 128]. *)
Definition prec32 : Z := 24.
Definition emax32 : Z := 128.

(** The value of a binary32 bit pattern. *)
Definition f32_of_bits (u : Z) : spec_float :=
  let s := Z.testbit u 31 in
  let e := Z.land (Z.shiftr u 23) 0xff in
  let m := Z.land u 0x7fffff in
  if e =? 0 then
    match m with
    | Zpos p => S754_finite s p (-149)
    | _ => S754_zero s
    end
  else if e =? 255 then
    (if m =? 0 then S754_infinity s else S754_nan)
  else
    match Z.lor m 0x800000 with
    | Zpos p => S754_finite s p (e - 150)
    | _ => S754_zero s
    end.

(** The bit pattern of a binary32 value (a NaN is the default quiet NaN). *)
Definition bits_of_f32 (f : spec_float) : Z :=
  let sgn (s : bool) := if s then 0x80000000 else 0 in
  match f with
  | S754_zero s => sgn s
  | S754_infinity s => Z.lor (sgn s) 0x7f800000
  | S754_nan => 0x7fc00000
  | S754_finite s m e =>
      if Zpos m <? 0x800000 then Z.lor (sgn s) (Zpos m)
      else Z.lor (sgn s) (Z.lor (Z.shiftl (e + 150) 23) (Zpos m - 0x800000))
  end.

(** [a.f -= b.f] on two bit patterns. *)
Definition f32_sub (a b : Z) : Z :=
  bits_of_f32 (SFsub prec32 emax32 (f32_of_bits a) (f32_of_bits b)).

(** [csafetensors_bf16_to_f32]: [cvt.u32 = ((uint32_t)x) << 16]. *)
Definition csafetensors_bf16_to_f32 (x : Z) : Z :=
  u32 (Z.shiftl x 16).

(** [csafetensors_f32_to_bf16]; [cvt.u16[1]] is the upper half-word
    (little-endian). *)
Definition csafetensors_f32_to_bf16 (x : Z) : Z :=
  let hi (u : Z) := Z.shiftr u 16 in
  let u :=
    if Z.land (Z.lxor x 0xffffffff) 0x7f800000 =? 0 then
      (if negb (Z.land x 0xffff =? 0) then Z.lor x 0x10000 else x)
    else u32 (x + (0x7fff + Z.land (hi x) 1)) in
  hi u.

(** [csafetensors_f16_to_f32]. *)
Definition csafetensors_f16_to_f32 (x : Z) : Z :=
  let shifted_exp := Z.shiftl 0x7c00 13 in
  let o := Z.shiftl (Z.land x 0x7fff) 13 in
  let exp := Z.land shifted_exp o in
  let o := u32 (o + Z.shiftl (127 - 15) 23) in
  let o :=
    if exp =? shifted_exp then u32 (o + Z.shiftl (128 - 16) 23)
    else if exp =? 0 then
      let magic := Z.shiftl 113 23 in
      let o := u32 (o + Z.shiftl 1 23) in
      f32_sub o magic
    else o in
  Z.lor o (Z.shiftl (Z.land x 0x8000) 16).

(** [csafetensors_f32_to_f16]; [result] is a [uint16_t], so [result++]
    wraps at 16 bits. *)
Definition csafetensors_f32_to_f16 (x : Z) : Z :=
  let sign := Z.land (Z.shiftr x 16) 0x8000 in
  let exp := Z.land (Z.shiftr x 23) 0xff in
  let mant := Z.land x 0x7fffff in
  if exp =? 0 then u16 sign
  else if exp =? 255 then
    u16 (Z.lor (Z.lor sign 0x7c00) (if negb (mant =? 0) then 0x200 else 0))
  else
    let newexp := exp - 127 + 15 in
    if newexp >=? 31 then u16 (Z.lor sign 0x7c00)
    else if newexp <=? 0 then
      if 14 - newexp <=? 24 then
        let m := Z.lor mant 0x800000 in
        let result := u16 (Z.lor sign (Z.shiftr m (14 - newexp))) in
        if negb (Z.land (Z.shiftr m (13 - newexp)) 1 =? 0)
        then u16 (result + 1) else result
      else u16 sign
    else
      let result :=
        u16 (Z.lor (Z.lor sign (Z.shiftl newexp 10)) (Z.shiftr mant 13)) in
      if negb (Z.land mant 0x1000 =? 0) then u16 (result + 1) else result.

(** A half pattern encodes a finite value when its exponent field is
    not all ones. *)
Definition f16_is_finite (x : Z) : bool :=
  negb (Z.land x 0x7c00 =? 0x7c00).

(** The round trip of one pattern, as a test. *)
Definition f16_roundtrips (x : Z) : bool :=
  csafetensors_f32_to_f16 (csafetensors_f16_to_f32 x) =? x.

End HalfFloat.
Import HalfFloat.

(** ** C strings *)

Module CStr.

(** The C string that starts at the head of a buffer: the bytes before
    the first NUL. *)
Fixpoint cstr (s : list byte) : list byte :=
  match s with
  | [] => []
  | c :: s' => if Byte.eqb c x00 then [] else c :: cstr s'
  end.

(** [strcmp(a, b) == 0] on two C strings. *)
Fixpoint streq (a b : list byte) : bool :=
  match a, b with
  | [], [] => true
  | x :: a', y :: b' => Byte.eqb x y && streq a' b'
  | _, _ => false
  end.

(** [strncpy(dst, src, n)] into a zero-filled buffer of more than [n]
    bytes: the C string left in [dst]. *)
Definition strncpy (src : list byte) (n : nat) : list byte := firstn n src.

(** A string literal of the source. *)
Definition lit (s : string) : list byte := list_byte_of_string s.

End CStr.
Import CStr.

(** ** Internal JSON parser *)

Module Json.

Inductive json_value : Type :=
| JSON_NULL
| JSON_BOOL (boolean : bool)
| JSON_NUMBER (number : spec_float)
| JSON_STRING (str : list byte)
| JSON_ARRAY (items : list json_value)
| JSON_OBJECT (pairs : list (list byte * json_value)).

(** The texts written to [p->error]. *)
Inductive json_error : Type :=
| Expected_at (c : byte) (pos : nat)
    (* "Expected '%c' at position %zu", for the characters quote, bracket, brace *)
| Invalid_JSON_value_at (pos : nat)
    (* "Invalid JSON value at position %zu" *)
| Json_msg (msg : string).

(** What a parsing function leaves: a value and the rest of the input
    ([p->pos] up to [p->end]), an error, or no answer because the
    recursion budget of the model is used up. *)
Inductive presult (A : Type) : Type :=
| POk (a : A) (rest : list byte)
| PErr (e : json_error)
| PFuel.
Arguments POk {A} a rest.
Arguments PErr {A} e.
Arguments PFuel {A}.

Definition QUOTE : byte := x22.
Definition BACKSLASH : byte := x5c.

Definition is_digit (c : byte) : bool := (48 <=? u8 c) && (u8 c <=? 57).

Definition byte_of_Z (z : Z) : byte :=
  match Byte.of_N (Z.to_N (z mod 256)) with
  | Some b => b
  | None => x00
  end.

Fixpoint json_skip_whitespace (p : list byte) : list byte :=
  match p with
  | c :: p' =>
      if Byte.eqb c x20 || Byte.eqb c x09 || Byte.eqb c x0a || Byte.eqb c x0d
      then json_skip_whitespace p' else p
  | [] => []
  end.

(** [json_match]: [Some rest] when [str] is a prefix of the input. *)
Fixpoint json_match (p str : list byte) : option (list byte) :=
  match str, p with
  | [], _ => Some p
  | s :: str', c :: p' => if Byte.eqb c s then json_match p' str' else None
  | _ :: _, [] => None
  end.

Definition json_hex_digit (c : byte) : Z :=
  let v := u8 c in
  if (48 <=? v) && (v <=? 57) then v - 48
  else if (97 <=? v) && (v <=? 102) then 10 + v - 97
  else if (65 <=? v) && (v <=? 70) then 10 + v - 65
  else -1.

(** The loop over four hexadecimal digits. *)
Definition hex4 (c0 c1 c2 c3 : byte) : option Z :=
  let step (acc : option Z) (c : byte) :=
    match acc with
    | None => None
    | Some cp =>
        let digit := json_hex_digit c in
        if digit <? 0 then None else Some (Z.lor (Z.shiftl cp 4) digit)
    end in
  step (step (step (step (Some 0) c0) c1) c2) c3.

Definition utf8_encode (codepoint : Z) : list byte :=
  if codepoint <? 0x80 then [byte_of_Z codepoint]
  else if codepoint <? 0x800 then
    [byte_of_Z (Z.lor 0xC0 (Z.shiftr codepoint 6));
     byte_of_Z (Z.lor 0x80 (Z.land codepoint 0x3F))]
  else if codepoint <? 0x10000 then
    [byte_of_Z (Z.lor 0xE0 (Z.shiftr codepoint 12));
     byte_of_Z (Z.lor 0x80 (Z.land (Z.shiftr codepoint 6) 0x3F));
     byte_of_Z (Z.lor 0x80 (Z.land codepoint 0x3F))]
  else
    [byte_of_Z (Z.lor 0xF0 (Z.shiftr codepoint 18));
     byte_of_Z (Z.lor 0x80 (Z.land (Z.shiftr codepoint 12) 0x3F));
     byte_of_Z (Z.lor 0x80 (Z.land (Z.shiftr codepoint 6) 0x3F));
     byte_of_Z (Z.lor 0x80 (Z.land codepoint 0x3F))].

(** [json_parse_unicode_escape], entered after the characters
    backslash and u: the UTF-8 bytes appended to the output and the
    rest of the input, or [None] for [return false]. *)
Definition json_parse_unicode_escape (p : list byte)
  : option (list byte * list byte) :=
  match p with
  | c0 :: c1 :: c2 :: c3 :: p1 =>
      match hex4 c0 c1 c2 c3 with
      | None => None
      | Some codepoint =>
          if (0xD800 <=? codepoint) && (codepoint <=? 0xDBFF) then
            match p1 with
            | b0 :: b1 :: d0 :: d1 :: d2 :: d3 :: p2 =>
                if negb (Byte.eqb b0 BACKSLASH) || negb (Byte.eqb b1 x75)
                then None
                else
                  match hex4 d0 d1 d2 d3 with
                  | None => None
                  | Some low =>
                      if (low <? 0xDC00) || (0xDFFF <? low) then None
                      else
                        let codepoint :=
                          0x10000 + Z.shiftl (codepoint - 0xD800) 10
                          + (low - 0xDC00) in
                        Some (utf8_encode codepoint, p2)
                  end
            | _ => None
            end
          else Some (utf8_encode codepoint, p1)
      end
  | _ => None
  end.

(** The escapes of one character. *)
Definition simple_escape (c : byte) : option byte :=
  if Byte.eqb c QUOTE then Some QUOTE
  else if Byte.eqb c BACKSLASH then Some BACKSLASH
  else if Byte.eqb c x2f then Some x2f
  else if Byte.eqb c x62 then Some x08
  else if Byte.eqb c x66 then Some x0c
  else if Byte.eqb c x6e then Some x0a
  else if Byte.eqb c x72 then Some x0d
  else if Byte.eqb c x74 then Some x09
  else None.

(** The [while] loop of [json_parse_string]; [out] is the output
    buffer in reverse.  Each turn consumes input, so a budget above
    the input's length is never used up. *)
Fixpoint json_string_loop (fuel : nat) (out : list byte) (p : list byte)
  : presult (list byte) :=
  match fuel with
  | O => PFuel
  | S fuel' =>
      match p with
      | [] => PErr (Json_msg "Unterminated string")
      | c :: p1 =>
          if Byte.eqb c QUOTE then POk (cstr (rev_append out [])) p1
          else if u8 c <? 0x20 then
            PErr (Json_msg "Invalid control character in string")
          else if Byte.eqb c BACKSLASH then
            match p1 with
            | [] => PErr (Json_msg "Unexpected end of string")
            | e :: p2 =>
                if Byte.eqb e x75 then
                  match json_parse_unicode_escape p2 with
                  | Some (utf8, p3) =>
                      json_string_loop fuel' (rev utf8 ++ out) p3
                  | None => PErr (Json_msg "Invalid unicode escape")
                  end
                else
                  match simple_escape e with
                  | Some c' => json_string_loop fuel' (c' :: out) p2
                  | None => PErr (Json_msg "Invalid escape character")
                  end
            end
          else json_string_loop fuel' (c :: out) p1
      end
  end.

(** *** Numbers *)

(** binary64: 53 bits of precision, [emax = 1024]. *)
Definition prec64 : Z := 53.
Definition emax64 : Z := 1024.

(** The digits at the head of the input, and what follows them. *)
Fixpoint span_digits (p : list byte) : list byte * list byte :=
  match p with
  | c :: p' =>
      if is_digit c then
        let '(ds, r) := span_digits p' in (c :: ds, r)
      else ([], p)
  | [] => ([], [])
  end.

(** The number written by a list of decimal digits. *)
Definition decimal_value (ds : list byte) : Z :=
  fold_left (fun acc c => 10 * acc + (u8 c - 48)) ds 0.

(** A lexeme of the JSON number grammar, as [json_parse_number] cuts
    it out of the input:
    sign, integer digits, fraction digits, signed exponent. *)
Record number_lexeme : Type := {
  lex_neg : bool;
  lex_int : list byte;
  lex_frac : list byte;
  lex_exp : Z
}.

(** [strtod] of the C library on such a lexeme: the decimal value
    [m * 10^k] rounded once to binary64, to nearest with ties to
    even; a value too large becomes an infinity. *)
Definition strtod (l : number_lexeme) : spec_float :=
  let m := decimal_value (lex_int l ++ lex_frac l) in
  let k := lex_exp l - Z.of_nat (length (lex_frac l)) in
  match m with
  | Zpos pm =>
      if 0 <=? k then
        binary_normalize prec64 emax64
          (cond_Zopp (lex_neg l) (m * 10 ^ k)) 0 (lex_neg l)
      else
        match 10 ^ (- k) with
        | Zpos pd =>
            SFdiv prec64 emax64
              (S754_finite (lex_neg l) pm 0) (S754_finite false pd 0)
        | _ => S754_nan
        end
  | _ => S754_zero (lex_neg l)
  end.

(** The three parts of [json_parse_number] after the sign; each gives
    what it read and the rest of the input, or [None] at the error
    exit. *)

(** A single 0, or a digit from 1 to 9 and the digits after it. *)
Definition number_int_part (p : list byte)
  : option (list byte * list byte) :=
  match p with
  | c :: q =>
      if Byte.eqb c x30 then Some ([c], q)
      else if (49 <=? u8 c) && (u8 c <=? 57) then Some (span_digits p)
      else None
  | [] => None
  end.

(** A point and one digit at least, if a point is there. *)
Definition number_frac_part (p : list byte)
  : option (list byte * list byte) :=
  match p with
  | c :: q =>
      if Byte.eqb c x2e then
        match q with
        | d :: _ => if is_digit d then Some (span_digits q) else None
        | [] => None
        end
      else Some ([], p)
  | [] => Some ([], p)
  end.

(** An exponent mark, a sign if any and one digit at least, if the
    mark is there. *)
Definition number_exp_part (p : list byte) : option (Z * list byte) :=
  match p with
  | c :: q =>
      if Byte.eqb c x65 || Byte.eqb c x45 then
        let '(eneg, q) :=
          match q with
          | s :: q' =>
              if Byte.eqb s x2b then (false, q')
              else if Byte.eqb s x2d then (true, q')
              else (false, q)
          | [] => (false, q)
          end in
        match q with
        | d :: _ =>
            if is_digit d then
              let '(es, r) := span_digits q in
              Some (cond_Zopp eneg (decimal_value es), r)
            else None
        | [] => None
        end
      else Some (0, p)
  | [] => Some (0, p)
  end.

(** [json_parse_number], entered at a minus sign or a digit. *)
Definition json_parse_number (p : list byte) : presult spec_float :=
  let '(neg, p) :=
    match p with
    | c :: q => if Byte.eqb c x2d then (true, q) else (false, p)
    | [] => (false, p)
    end in
  match p with
  | [] => PErr (Json_msg "Unexpected end of number")
  | _ :: _ =>
      match number_int_part p with
      | None => PErr (Json_msg "Invalid number")
      | Some (ints, p) =>
          match number_frac_part p with
          | None => PErr (Json_msg "Invalid number")
          | Some (fracs, p) =>
              match number_exp_part p with
              | None => PErr (Json_msg "Invalid number exponent")
              | Some (e, p) =>
                  POk (strtod {| lex_neg := neg; lex_int := ints;
                                 lex_frac := fracs; lex_exp := e |}) p
              end
          end
      end
  end.

(** *** Values *)

Section Parser.

(** The number of bytes between [p->input] and [p->end]; a position
    [p->pos - p->input] is this length less what is left to read. *)
Variable total : nat.

Definition position (p : list byte) : nat := (total - length p)%nat.

Definition json_parse_string (p : list byte) : presult (list byte) :=
  match p with
  | c :: p' =>
      if Byte.eqb c QUOTE then json_string_loop (S (length p')) [] p'
      else PErr (Expected_at QUOTE (position p))
  | [] => PErr (Expected_at QUOTE (position p))
  end.

(** [json_parse_value], [json_parse_array] and [json_parse_object]
    call one another; the two [for (;;)] loops are [json_array_loop]
    and [json_object_loop], with the items read so far in reverse.
    Every call spends one unit of [fuel].  The C functions call one
    another once for each array or object that is open, with no limit
    on the depth; the stack that this takes is not part of the model,
    which stands for the program on inputs whose nesting the stack
    holds. *)
Fixpoint json_parse_value (fuel : nat) (p : list byte) {struct fuel}
  : presult json_value :=
  match fuel with
  | O => PFuel
  | S fuel' =>
      let p := json_skip_whitespace p in
      match p with
      | [] => PErr (Json_msg "Unexpected end of input")
      | c :: _ =>
          let invalid := PErr (Invalid_JSON_value_at (position p)) in
          if Byte.eqb c x6e then
            match json_match p (lit "null") with
            | Some r => POk JSON_NULL r
            | None => invalid
            end
          else if Byte.eqb c x74 then
            match json_match p (lit "true") with
            | Some r => POk (JSON_BOOL true) r
            | None => invalid
            end
          else if Byte.eqb c x66 then
            match json_match p (lit "false") with
            | Some r => POk (JSON_BOOL false) r
            | None => invalid
            end
          else if Byte.eqb c QUOTE then
            match json_parse_string p with
            | POk s r => POk (JSON_STRING s) r
            | PErr e => PErr e
            | PFuel => PFuel
            end
          else if Byte.eqb c x5b then json_parse_array fuel' p
          else if Byte.eqb c x7b then json_parse_object fuel' p
          else if Byte.eqb c x2d || is_digit c then
            match json_parse_number p with
            | POk d r => POk (JSON_NUMBER d) r
            | PErr e => PErr e
            | PFuel => PFuel
            end
          else invalid
      end
  end

with json_parse_array (fuel : nat) (p : list byte) {struct fuel}
  : presult json_value :=
  match fuel with
  | O => PFuel
  | S fuel' =>
      match p with
      | c :: p1 =>
          if Byte.eqb c x5b then
            let p1 := json_skip_whitespace p1 in
            match p1 with
            | c1 :: p2 =>
                if Byte.eqb c1 x5d then POk (JSON_ARRAY []) p2
                else json_array_loop fuel' [] p1
            | [] => json_array_loop fuel' [] p1
            end
          else PErr (Expected_at x5b (position p))
      | [] => PErr (Expected_at x5b (position p))
      end
  end

with json_array_loop (fuel : nat) (items : list json_value) (p : list byte)
  {struct fuel} : presult json_value :=
  match fuel with
  | O => PFuel
  | S fuel' =>
      match json_parse_value fuel' p with
      | POk item p1 =>
          let items := item :: items in
          let p1 := json_skip_whitespace p1 in
          match p1 with
          | [] => PErr (Json_msg "Unexpected end of array")
          | c :: p2 =>
              if Byte.eqb c x5d then POk (JSON_ARRAY (rev items)) p2
              else if Byte.eqb c x2c then
                json_array_loop fuel' items (json_skip_whitespace p2)
              else PErr (Json_msg "Expected ',' or ']' in array")
          end
      | PErr e => PErr e
      | PFuel => PFuel
      end
  end

with json_parse_object (fuel : nat) (p : list byte) {struct fuel}
  : presult json_value :=
  match fuel with
  | O => PFuel
  | S fuel' =>
      match p with
      | c :: p1 =>
          if Byte.eqb c x7b then
            let p1 := json_skip_whitespace p1 in
            match p1 with
            | c1 :: p2 =>
                if Byte.eqb c1 x7d then POk (JSON_OBJECT []) p2
                else json_object_loop fuel' [] p1
            | [] => json_object_loop fuel' [] p1
            end
          else PErr (Expected_at x7b (position p))
      | [] => PErr (Expected_at x7b (position p))
      end
  end

with json_object_loop (fuel : nat) (pairs : list (list byte * json_value))
  (p : list byte) {struct fuel} : presult json_value :=
  match fuel with
  | O => PFuel
  | S fuel' =>
      let no_key := PErr (Json_msg "Expected string key in object") in
      match p with
      | [] => no_key
      | c :: _ =>
          if negb (Byte.eqb c QUOTE) then no_key
          else
            match json_parse_string p with
            | PErr e => PErr e
            | PFuel => PFuel
            | POk key p1 =>
                let no_colon := PErr (Json_msg "Expected ':' after key") in
                match json_skip_whitespace p1 with
                | [] => no_colon
                | c1 :: p2 =>
                    if negb (Byte.eqb c1 x3a) then no_colon
                    else
                      match json_parse_value fuel' p2 with
                      | PErr e => PErr e
                      | PFuel => PFuel
                      | POk val p3 =>
                          if existsb (fun kv => streq (fst kv) key) pairs
                          then PErr (Json_msg "Duplicate key in object")
                          else
                            let pairs := (key, val) :: pairs in
                            match json_skip_whitespace p3 with
                            | [] =>
                                PErr (Json_msg "Unexpected end of object")
                            | c3 :: p4 =>
                                if Byte.eqb c3 x7d
                                then POk (JSON_OBJECT (rev pairs)) p4
                                else if Byte.eqb c3 x2c then
                                  json_object_loop fuel' pairs
                                    (json_skip_whitespace p4)
                                else
                                  PErr (Json_msg
                                          "Expected ',' or '}' in object")
                            end
                      end
                end
            end
      end
  end.

End Parser.

(** The budget that the parser is run with: three calls for each byte
    of the input and three more. *)
Definition json_fuel (input : list byte) : nat := (3 * length input + 3)%nat.

(** Parsing a byte range: [parser.pos = parser.input],
    [json_parse_value(&parser)]. *)
Definition json_parse (input : list byte) : presult json_value :=
  json_parse_value (length input) (json_fuel input) input.

(** [json_object_get]: the value of the first pair with the key. *)
Definition json_object_get (obj : json_value) (key : list byte)
  : option json_value :=
  match obj with
  | JSON_OBJECT pairs =>
      match find (fun kv => streq (fst kv) key) pairs with
      | Some kv => Some (snd kv)
      | None => None
      end
  | _ => None
  end.

(** A header text written with apostrophes in place of double quotes. *)
Definition json_text (s : string) : list byte :=
  map (fun c => if Byte.eqb c x27 then QUOTE else c) (lit s).

End Json.
Import Json.

(** ** The loader: data model *)

Module Csafetensors.

(** Maximum dimension of tensor shape. *)
Definition CSAFETENSORS_MAX_DIM : Z := 8.
(** Maximum key/value string length. *)
Definition CSAFETENSORS_MAX_STRING_LEN : Z := 4096.
(** Max header (JSON) size: 100 MB. *)
Definition CSAFETENSORS_MAX_JSON_SIZE : Z := 100 * 1024 * 1024.

Inductive csafetensors_dtype_t : Type :=
| CSAFETENSORS_DTYPE_BOOL
| CSAFETENSORS_DTYPE_UINT8
| CSAFETENSORS_DTYPE_INT8
| CSAFETENSORS_DTYPE_INT16
| CSAFETENSORS_DTYPE_UINT16
| CSAFETENSORS_DTYPE_FLOAT16
| CSAFETENSORS_DTYPE_BFLOAT16
| CSAFETENSORS_DTYPE_INT32
| CSAFETENSORS_DTYPE_UINT32
| CSAFETENSORS_DTYPE_FLOAT32
| CSAFETENSORS_DTYPE_FLOAT64
| CSAFETENSORS_DTYPE_INT64
| CSAFETENSORS_DTYPE_UINT64.

Inductive csafetensors_error_t : Type :=
| CSAFETENSORS_SUCCESS
| CSAFETENSORS_ERROR_INVALID_ARGUMENT
| CSAFETENSORS_ERROR_FILE_NOT_FOUND
| CSAFETENSORS_ERROR_FILE_READ
| CSAFETENSORS_ERROR_INVALID_HEADER
| CSAFETENSORS_ERROR_JSON_PARSE
| CSAFETENSORS_ERROR_MEMORY_ALLOCATION
| CSAFETENSORS_ERROR_MMAP_FAILED
| CSAFETENSORS_ERROR_INVALID_TENSOR
| CSAFETENSORS_ERROR_BUFFER_TOO_SMALL.

(** [shape] holds the first [n_dims] entries of the C array. *)
Record csafetensors_tensor_t : Type := {
  name : list byte;
  dtype : csafetensors_dtype_t;
  shape : list Z;
  data_offset_begin : Z;
  data_offset_end : Z
}.

Definition n_dims (t : csafetensors_tensor_t) : Z :=
  Z.of_nat (length (shape t)).

Record csafetensors_metadata_t : Type := {
  key : list byte;
  value : list byte
}.

(** A pointer is an address, [NULL] the address 0.  [tensors] and
    [metadata] hold the first [n_tensors] and [n_metadata] entries of
    their arrays; [storage_bytes] is what the block at [storage]
    holds. *)
Definition NULL : Z := 0.

Record csafetensors_t : Type := {
  tensors : list csafetensors_tensor_t;
  metadata : list csafetensors_metadata_t;
  header_size : Z;
  storage : Z;
  storage_bytes : list byte;
  storage_size : Z;
  mmaped : bool;
  mmap_addr : Z;
  mmap_size : Z;
  databuffer_addr : Z;
  databuffer_size : Z
}.

Definition n_tensors (st : csafetensors_t) : Z :=
  Z.of_nat (length (tensors st)).
Definition n_metadata (st : csafetensors_t) : Z :=
  Z.of_nat (length (metadata st)).

(** The texts written to [st->error_msg]. *)
Inductive error_msg : Type :=
| No_message
| Data_too_short                     (* "Data too short (< 16 bytes)" *)
| Header_size_too_small              (* "Header size too small" *)
| Header_size_exceeds_limit          (* "Header size exceeds limit" *)
| Header_size_exceeds_data_size      (* "Header size exceeds data size" *)
| JSON_parse_error (e : json_error)  (* "JSON parse error: %s" *)
| Root_must_be_object                (* "Root JSON must be an object" *)
| Memory_allocation_failed           (* "Memory allocation failed" *)
| Not_a_JSON_object (tensor : list byte)
    (* "Tensor '%s' is not a JSON object" *)
| Missing_dtype (tensor : list byte)
    (* "Tensor '%s' missing 'dtype' string" *)
| Unknown_dtype (s tensor : list byte)
    (* "Unknown dtype '%s' in tensor '%s'" *)
| Missing_shape (tensor : list byte)
    (* "Tensor '%s' missing 'shape' array" *)
| Too_many_dimensions (tensor : list byte) (n : Z)
    (* "Tensor '%s' has too many dimensions (%zu)" *)
| Invalid_shape_dimension (tensor : list byte)
    (* "Invalid shape dimension in tensor '%s'" *)
| Empty_with_data_offsets (tensor : list byte)
    (* "Empty tensor '%s' should not have data_offsets" *)
| Missing_data_offsets (tensor : list byte)
    (* "Tensor '%s' missing valid 'data_offsets' array" *)
| Invalid_data_offsets (tensor : list byte)
    (* "Invalid data_offsets in tensor '%s'" *)
| Begin_after_end (tensor : list byte)
    (* "Tensor '%s': begin offset > end offset" *)
| Offset_exceeds_buffer (tensor : list byte)
    (* "Tensor '%s': data offset exceeds buffer size" *)
| Size_mismatch (tensor : list byte) (expected got : Z).
    (* "Tensor '%s': size mismatch (expected %zu, got %zu)" *)

(** The outcome of a step that can fail: a result, [return false]
    with a message, or [Undefined] where the C program has no defined
    behaviour (a conversion to [size_t] out of range). *)
Inductive res (A : Type) : Type :=
| Ok (a : A)
| Error (e : error_msg)
| Undefined.
Arguments Ok {A} a.
Arguments Error {A} e.
Arguments Undefined {A}.

Definition bind {A B : Type} (r : res A) (f : A -> res B) : res B :=
  match r with
  | Ok a => f a
  | Error e => Error e
  | Undefined => Undefined
  end.

Notation "'do' x <- r ; k" := (bind r (fun x => k))
  (at level 10, x pattern, r at level 100, k at level 200).

(** [(size_t)d] for a [double]: the value truncated toward zero when
    that is a [size_t], undefined otherwise (C11 6.3.1.4). *)
Definition size_t_of_double (d : spec_float) : option Z :=
  match d with
  | S754_zero _ => Some 0
  | S754_finite s m e =>
      let t := if 0 <=? e then Zpos m * 2 ^ e else Zpos m / 2 ^ (- e) in
      if s then (if t =? 0 then Some 0 else None)
      else if t <=? SIZE_MAX then Some t
      else None
  | _ => None
  end.

Definition cast_size_t (d : spec_float) : res Z :=
  match size_t_of_double d with
  | Some v => Ok v
  | None => Undefined
  end.

(** *** Helper functions *)

Definition parse_dtype_string (s : list byte) : option csafetensors_dtype_t :=
  if streq s (lit "BOOL") then Some CSAFETENSORS_DTYPE_BOOL
  else if streq s (lit "U8") then Some CSAFETENSORS_DTYPE_UINT8
  else if streq s (lit "I8") then Some CSAFETENSORS_DTYPE_INT8
  else if streq s (lit "U16") then Some CSAFETENSORS_DTYPE_UINT16
  else if streq s (lit "I16") then Some CSAFETENSORS_DTYPE_INT16
  else if streq s (lit "U32") then Some CSAFETENSORS_DTYPE_UINT32
  else if streq s (lit "I32") then Some CSAFETENSORS_DTYPE_INT32
  else if streq s (lit "U64") then Some CSAFETENSORS_DTYPE_UINT64
  else if streq s (lit "I64") then Some CSAFETENSORS_DTYPE_INT64
  else if streq s (lit "F16") then Some CSAFETENSORS_DTYPE_FLOAT16
  else if streq s (lit "BF16") then Some CSAFETENSORS_DTYPE_BFLOAT16
  else if streq s (lit "F32") then Some CSAFETENSORS_DTYPE_FLOAT32
  else if streq s (lit "F64") then Some CSAFETENSORS_DTYPE_FLOAT64
  else None.

(** The loop over the shape array in [parse_tensor]: the dimensions
    and the [is_empty] flag. *)
Fixpoint parse_shape (tname : list byte) (items : list json_value)
  (is_empty : bool) : res (list Z * bool) :=
  match items with
  | [] => Ok ([], is_empty)
  | JSON_NUMBER d :: rest =>
      do dim <- cast_size_t d;
      do r <- parse_shape tname rest (is_empty || (dim =? 0));
      Ok (dim :: fst r, snd r)
  | _ :: _ => Error (Invalid_shape_dimension tname)
  end.

Definition parse_tensor (tname : list byte) (obj : json_value)
  : res csafetensors_tensor_t :=
  match obj with
  | JSON_OBJECT _ =>
      let stored_name :=
        strncpy tname (Z.to_nat (CSAFETENSORS_MAX_STRING_LEN - 1)) in
      (* Parse dtype *)
      match json_object_get obj (lit "dtype") with
      | Some (JSON_STRING s) =>
          match parse_dtype_string s with
          | None => Error (Unknown_dtype s tname)
          | Some dt =>
              (* Parse shape *)
              match json_object_get obj (lit "shape") with
              | Some (JSON_ARRAY dims) =>
                  if CSAFETENSORS_MAX_DIM <? Z.of_nat (length dims)
                  then Error (Too_many_dimensions tname
                                (Z.of_nat (length dims)))
                  else
                    do sh <- parse_shape tname dims false;
                    let '(shp, is_empty) := sh in
                    (* Parse data_offsets (optional for empty tensors) *)
                    let offsets_val :=
                      json_object_get obj (lit "data_offsets") in
                    if is_empty then
                      match offsets_val with
                      | Some _ => Error (Empty_with_data_offsets tname)
                      | None =>
                          Ok {| name := stored_name; dtype := dt;
                                shape := shp;
                                data_offset_begin := 0;
                                data_offset_end := 0 |}
                      end
                    else
                      match offsets_val with
                      | Some (JSON_ARRAY [b; e]) =>
                          match b, e with
                          | JSON_NUMBER bn, JSON_NUMBER en =>
                              do bo <- cast_size_t bn;
                              do eo <- cast_size_t en;
                              Ok {| name := stored_name; dtype := dt;
                                    shape := shp;
                                    data_offset_begin := bo;
                                    data_offset_end := eo |}
                          | _, _ => Error (Invalid_data_offsets tname)
                          end
                      | _ => Error (Missing_data_offsets tname)
                      end
              | _ => Error (Missing_shape tname)
              end
          end
      | _ => Error (Missing_dtype tname)
      end
  | _ => Error (Not_a_JSON_object tname)
  end.

(** [memcpy(&header_size, data, sizeof(uint64_t))] on a little-endian
    machine. *)
Definition read_u64_le (data : list byte) : Z :=
  fold_right (fun b acc => u8 b + 256 * acc) 0 (firstn 8 data).

Definition is_metadata_key (k : list byte) : bool :=
  streq k (lit "__metadata__").

(** The first loop of [parse_safetensors_header]:
    [(n_tensors, n_metadata)]. *)
Definition count_entries (pairs : list (list byte * json_value))
  : nat * nat :=
  fold_left
    (fun (c : nat * nat) kv =>
       if is_metadata_key (fst kv) then
         match snd kv with
         | JSON_OBJECT m => (fst c, length m)
         | _ => c
         end
       else (S (fst c), snd c))
    pairs (0%nat, 0%nat).

(** The loop over the pairs of the metadata object; [meta] holds the
    entries filled so far, [meta_idx] is its length. *)
Fixpoint fill_metadata (n_meta : nat) (mpairs : list (list byte * json_value))
  (meta : list csafetensors_metadata_t) : list csafetensors_metadata_t :=
  match mpairs with
  | [] => meta
  | (mk, mv) :: rest =>
      if (length meta <? n_meta)%nat then
        match mv with
        | JSON_STRING s =>
            let n := Z.to_nat (CSAFETENSORS_MAX_STRING_LEN - 1) in
            fill_metadata n_meta rest
              (meta ++ [{| key := strncpy mk n; value := strncpy s n |}])
        | _ => fill_metadata n_meta rest meta
        end
      else meta
  end.

(** The second loop: tensors and metadata in the order of the header. *)
Fixpoint parse_entries (n_tens n_meta : nat)
  (pairs : list (list byte * json_value))
  (tens : list csafetensors_tensor_t) (meta : list csafetensors_metadata_t)
  : res (list csafetensors_tensor_t * list csafetensors_metadata_t) :=
  match pairs with
  | [] => Ok (tens, meta)
  | (k, val) :: rest =>
      if is_metadata_key k then
        match val with
        | JSON_OBJECT mpairs =>
            parse_entries n_tens n_meta rest tens
              (fill_metadata n_meta mpairs meta)
        | _ => parse_entries n_tens n_meta rest tens meta
        end
      else if (n_tens <=? length tens)%nat then
        parse_entries n_tens n_meta rest tens meta
      else
        do t <- parse_tensor k val;
        parse_entries n_tens n_meta rest (tens ++ [t]) meta
  end.

(** What [parse_safetensors_header] stores in [st]. *)
Record header_t : Type := {
  h_header_size : Z;
  h_tensors : list csafetensors_tensor_t;
  h_metadata : list csafetensors_metadata_t
}.

(** [parse_safetensors_header(data, size, st)] with [size] the length
    of [data]. *)
Definition parse_safetensors_header (data : list byte) : res header_t :=
  let size := Z.of_nat (length data) in
  if size <? 16 then Error Data_too_short
  else
    let hsize := read_u64_le data in
    if hsize <? 2 then Error Header_size_too_small
    else if CSAFETENSORS_MAX_JSON_SIZE <? hsize
    then Error Header_size_exceeds_limit
    else if size <? u64 (8 + hsize) then Error Header_size_exceeds_data_size
    else
      let input := firstn (Z.to_nat hsize) (skipn 8 data) in
      match json_parse input with
      | PFuel => Undefined
      | PErr e => Error (JSON_parse_error e)
      | POk root _ =>
          match root with
          | JSON_OBJECT pairs =>
              let '(n_tens, n_meta) := count_entries pairs in
              do r <- parse_entries n_tens n_meta pairs [] [];
              Ok {| h_header_size := hsize;
                    h_tensors := fst r; h_metadata := snd r |}
          | _ => Error Root_must_be_object
          end
      end.

(** *** Public API implementation *)

(** [csafetensors_init]: the structure filled with zero bytes. *)
Definition csafetensors_init : csafetensors_t :=
  {| tensors := []; metadata := []; header_size := 0;
     storage := NULL; storage_bytes := []; storage_size := 0;
     mmaped := false; mmap_addr := NULL; mmap_size := 0;
     databuffer_addr := NULL; databuffer_size := 0 |}.

(** The value a load returns: [Ok st] for [CSAFETENSORS_SUCCESS], or
    the error code with the message left in [st->error_msg]. *)
Inductive load_result : Type :=
| Loaded (st : csafetensors_t)
| Failed (code : csafetensors_error_t) (msg : error_msg)
| Load_undefined.

(** [csafetensors_load_from_memory(data, size, st)].  [data] is the
    address of the buffer, [bytes] its [size] bytes, and [block] the
    address that [malloc(data_size)] returns. *)
Definition csafetensors_load_from_memory (data : Z) (bytes : list byte)
  (block : Z) : load_result :=
  let size := Z.of_nat (length bytes) in
  if (data =? NULL) || (size <? 16)
  then Failed CSAFETENSORS_ERROR_INVALID_ARGUMENT No_message
  else
    match parse_safetensors_header bytes with
    | Undefined => Load_undefined
    | Error e => Failed CSAFETENSORS_ERROR_JSON_PARSE e
    | Ok h =>
        let data_offset := u64 (8 + h_header_size h) in
        let data_size := u64 (size - data_offset) in
        if (block =? NULL) && (0 <? data_size)
        then Failed CSAFETENSORS_ERROR_MEMORY_ALLOCATION
               Memory_allocation_failed
        else
          Loaded
            {| tensors := h_tensors h; metadata := h_metadata h;
               header_size := h_header_size h;
               storage := block;
               storage_bytes := skipn (Z.to_nat data_offset) bytes;
               storage_size := data_size;
               mmaped := false; mmap_addr := NULL; mmap_size := 0;
               databuffer_addr := NULL; databuffer_size := 0 |}
    end.

(** [csafetensors_mmap_from_memory(data, size, st)]. *)
Definition csafetensors_mmap_from_memory (data : Z) (bytes : list byte)
  : load_result :=
  let size := Z.of_nat (length bytes) in
  if (data =? NULL) || (size <? 16)
  then Failed CSAFETENSORS_ERROR_INVALID_ARGUMENT No_message
  else
    match parse_safetensors_header bytes with
    | Undefined => Load_undefined
    | Error e => Failed CSAFETENSORS_ERROR_JSON_PARSE e
    | Ok h =>
        Loaded
          {| tensors := h_tensors h; metadata := h_metadata h;
             header_size := h_header_size h;
             storage := NULL; storage_bytes := []; storage_size := 0;
             mmaped := true; mmap_addr := data; mmap_size := size;
             databuffer_addr := data + 8 + h_header_size h;
             databuffer_size := u64 (size - 8 - h_header_size h) |}
    end.

(** [csafetensors_get_tensor]: the first tensor with the name. *)
Definition csafetensors_get_tensor (st : csafetensors_t) (nm : list byte)
  : option csafetensors_tensor_t :=
  find (fun t => streq (name t) nm) (tensors st).

Definition csafetensors_get_tensor_by_index (st : csafetensors_t) (index : Z)
  : option csafetensors_tensor_t :=
  if n_tensors st <=? index then None
  else nth_error (tensors st) (Z.to_nat index).

(** The payload region that the accessors use: its base address and
    its length. *)
Definition payload_base (st : csafetensors_t) : Z :=
  if mmaped st then databuffer_addr st else storage st.
Definition payload_size (st : csafetensors_t) : Z :=
  if mmaped st then databuffer_size st else storage_size st.

(** [csafetensors_get_tensor_data]: an address, [NULL] on error. *)
Definition csafetensors_get_tensor_data (st : csafetensors_t)
  (tensor : csafetensors_tensor_t) : Z :=
  let base := payload_base st in
  let max_size := payload_size st in
  if base =? NULL then NULL
  else if max_size <? data_offset_begin tensor then NULL
  else base + data_offset_begin tensor.

Definition csafetensors_get_metadata (st : csafetensors_t) (k : list byte)
  : option (list byte) :=
  match find (fun m => streq (key m) k) (metadata st) with
  | Some m => Some (value m)
  | None => None
  end.

Definition csafetensors_dtype_size (dt : csafetensors_dtype_t) : Z :=
  match dt with
  | CSAFETENSORS_DTYPE_BOOL => 1
  | CSAFETENSORS_DTYPE_UINT8 => 1
  | CSAFETENSORS_DTYPE_INT8 => 1
  | CSAFETENSORS_DTYPE_UINT16 => 2
  | CSAFETENSORS_DTYPE_INT16 => 2
  | CSAFETENSORS_DTYPE_FLOAT16 => 2
  | CSAFETENSORS_DTYPE_BFLOAT16 => 2
  | CSAFETENSORS_DTYPE_UINT32 => 4
  | CSAFETENSORS_DTYPE_INT32 => 4
  | CSAFETENSORS_DTYPE_FLOAT32 => 4
  | CSAFETENSORS_DTYPE_UINT64 => 8
  | CSAFETENSORS_DTYPE_INT64 => 8
  | CSAFETENSORS_DTYPE_FLOAT64 => 8
  end.

Definition csafetensors_dtype_name (dt : csafetensors_dtype_t) : list byte :=
  match dt with
  | CSAFETENSORS_DTYPE_BOOL => lit "BOOL"
  | CSAFETENSORS_DTYPE_UINT8 => lit "U8"
  | CSAFETENSORS_DTYPE_INT8 => lit "I8"
  | CSAFETENSORS_DTYPE_UINT16 => lit "U16"
  | CSAFETENSORS_DTYPE_INT16 => lit "I16"
  | CSAFETENSORS_DTYPE_FLOAT16 => lit "F16"
  | CSAFETENSORS_DTYPE_BFLOAT16 => lit "BF16"
  | CSAFETENSORS_DTYPE_UINT32 => lit "U32"
  | CSAFETENSORS_DTYPE_INT32 => lit "I32"
  | CSAFETENSORS_DTYPE_FLOAT32 => lit "F32"
  | CSAFETENSORS_DTYPE_UINT64 => lit "U64"
  | CSAFETENSORS_DTYPE_INT64 => lit "I64"
  | CSAFETENSORS_DTYPE_FLOAT64 => lit "F64"
  end.

(** The loop of [csafetensors_shape_size]: [size *= shape[i]] in
    [size_t], leaving with 0 at a zero dimension. *)
Fixpoint shape_size_loop (dims : list Z) (size : Z) : Z :=
  match dims with
  | [] => size
  | d :: rest => if d =? 0 then 0 else shape_size_loop rest (u64 (size * d))
  end.

Definition csafetensors_shape_size (tensor : csafetensors_tensor_t) : Z :=
  if n_dims tensor =? 0 then 1 else shape_size_loop (shape tensor) 1.

(** The body of the loop of [csafetensors_validate] for one tensor:
    the message of its first failed check. *)
Definition validate_tensor (data_size : Z) (t : csafetensors_tensor_t)
  : option error_msg :=
  if data_offset_end t <? data_offset_begin t
  then Some (Begin_after_end (name t))
  else
    let tensor_size :=
      u64 (csafetensors_dtype_size (dtype t) * csafetensors_shape_size t) in
    if tensor_size =? 0 then None
    else if data_size <? data_offset_end t
    then Some (Offset_exceeds_buffer (name t))
    else
      let stored_size := u64 (data_offset_end t - data_offset_begin t) in
      if negb (tensor_size =? stored_size)
      then Some (Size_mismatch (name t) tensor_size stored_size)
      else None.

(** The loop over the tensors: the message set at the first tensor
    that fails, if any. *)
Fixpoint validate_loop (data_size : Z) (ts : list csafetensors_tensor_t)
  : option error_msg :=
  match ts with
  | [] => None
  | t :: rest =>
      match validate_tensor data_size t with
      | Some e => Some e
      | None => validate_loop data_size rest
      end
  end.

Definition csafetensors_validate_msg (st : csafetensors_t)
  : option error_msg :=
  validate_loop (payload_size st) (tensors st).

Definition csafetensors_validate (st : csafetensors_t) : bool :=
  match csafetensors_validate_msg st with
  | None => true
  | Some _ => false
  end.

(** *** Building inputs, as the unit tests do *)

Definition u64_le_bytes (n : Z) : list byte :=
  map (fun i => byte_of_Z (Z.shiftr n (8 * i))) (zrange 0 8).

(** [create_safetensors_data] of the unit tests. *)
Definition create_safetensors_data (header_json tensor_data : list byte)
  : list byte :=
  u64_le_bytes (Z.of_nat (length header_json)) ++ header_json ++ tensor_data.

Definition zeros (n : nat) : list byte := repeat x00 n.

End Csafetensors.
Import Csafetensors.

(** ** Concrete files *)

Module Inputs.

(** The addresses used for a buffer and for the block of the copy. *)
Definition buf_addr : Z := 4096.
Definition block_addr : Z := 8192.

(** S1 of the unit tests: one F32 tensor of shape [2,3]. *)
Definition simple_file : list byte :=
  create_safetensors_data
    (json_text "{'test':{'dtype':'F32','shape':[2,3],'data_offsets':[0,24]}}")
    (zeros 24).

(** S2 of the specification: two tensors and metadata. *)
Definition two_tensor_file : list byte :=
  create_safetensors_data
    (json_text
       "{'__metadata__':{'format':'pt','model':'test'},'w':{'dtype':'F32','shape':[3,4],'data_offsets':[0,48]},'b':{'dtype':'F32','shape':[4],'data_offsets':[48,64]}}")
    (zeros 64).

(** Sixteen bytes [0xff]: the header size reads as [2^64 - 1]. *)
Definition huge_header_file : list byte := repeat xff 16.

(** A tensor whose range starts beyond a payload of four bytes. *)
Definition beyond_file : list byte :=
  create_safetensors_data
    (json_text "{'t':{'dtype':'U8','shape':[4],'data_offsets':[100,104]}}")
    (zeros 4).

(** A tensor whose range ends beyond a payload of four bytes. *)
Definition short_payload_file : list byte :=
  create_safetensors_data
    (json_text "{'t':{'dtype':'U8','shape':[8],'data_offsets':[0,8]}}")
    (zeros 4).

(** Two dimensions of [2^32]: the product is [2^64]. *)
Definition wrap_zero_file : list byte :=
  create_safetensors_data
    (json_text
       "{'t':{'dtype':'U8','shape':[4294967296,4294967296],'data_offsets':[0,100]}}")
    [].

(** [274177 * 67280421310721 = 2^64 + 1]. *)
Definition wrap_one_file : list byte :=
  create_safetensors_data
    (json_text
       "{'t':{'dtype':'U8','shape':[274177,67280421310721],'data_offsets':[0,1]}}")
    (zeros 1).

(** Numbers that are not integers in [shape] and [data_offsets]. *)
Definition fractional_file : list byte :=
  create_safetensors_data
    (json_text
       "{'a':{'dtype':'U8','shape':[2.5],'data_offsets':[0.5,2.7]},'b':{'dtype':'U8','shape':[-0.5]}}")
    (zeros 2).

(** A tensor entry with the given name. *)
Definition entry_named (nm : list byte) : list byte :=
  [QUOTE] ++ nm ++ [QUOTE]
  ++ json_text ":{'dtype':'U8','shape':[1],'data_offsets':[0,1]}".

(** A name of 4096 bytes. *)
Definition long_name : list byte := repeat x61 4096.

Definition long_name_file : list byte :=
  create_safetensors_data
    (lit "{" ++ entry_named long_name ++ lit "}") (zeros 1).

(** Two names of 4096 bytes that differ in their last byte only. *)
Definition long_name_b : list byte := repeat x61 4095 ++ [x62].
Definition long_name_c : list byte := repeat x61 4095 ++ [x63].

Definition colliding_file : list byte :=
  create_safetensors_data
    (lit "{" ++ entry_named long_name_b ++ lit ","
     ++ entry_named long_name_c ++ lit "}")
    (zeros 1).

(** The tree of a JSON text, and the pairs of an object. *)
Definition parsed (text : list byte) : json_value :=
  match json_parse text with
  | POk v _ => v
  | _ => JSON_NULL
  end.

Definition pairs_of (v : json_value) : list (list byte * json_value) :=
  match v with
  | JSON_OBJECT pairs => pairs
  | _ => []
  end.

(** S4 of the unit tests: an empty tensor without offsets. *)
Definition empty_entry : json_value :=
  parsed (json_text "{'dtype':'F32','shape':[0,10]}").

(** The two entries of [fractional_file]. *)
Definition fractional_entry : json_value :=
  parsed (json_text "{'dtype':'U8','shape':[2.5],'data_offsets':[0.5,2.7]}").
Definition negative_entry : json_value :=
  parsed (json_text "{'dtype':'U8','shape':[-0.5]}").

(** The object a load leaves, or the initial object when it fails. *)
Definition loaded_or_init (r : load_result) : csafetensors_t :=
  match r with
  | Loaded st => st
  | _ => csafetensors_init
  end.

Definition two_tensor_st : csafetensors_t :=
  loaded_or_init
    (csafetensors_load_from_memory buf_addr two_tensor_file block_addr).

Definition long_name_st : csafetensors_t :=
  loaded_or_init
    (csafetensors_load_from_memory buf_addr long_name_file block_addr).

Definition colliding_st : csafetensors_t :=
  loaded_or_init
    (csafetensors_load_from_memory buf_addr colliding_file block_addr).

(** The header of [two_tensor_file], and its second descriptor. *)
Definition two_tensor_header : list byte :=
  json_text
    "{'__metadata__':{'format':'pt','model':'test'},'w':{'dtype':'F32','shape':[3,4],'data_offsets':[0,48]},'b':{'dtype':'F32','shape':[4],'data_offsets':[48,64]}}".

Definition tensor_b : csafetensors_tensor_t :=
  {| name := lit "b"; dtype := CSAFETENSORS_DTYPE_FLOAT32; shape := [4];
     data_offset_begin := 48; data_offset_end := 64 |}.

(** An entry without a dtype, after one that is well formed. *)
Definition no_dtype_file : list byte :=
  create_safetensors_data
    (json_text
       "{'a':{'dtype':'U8','shape':[1],'data_offsets':[0,1]},'t':{'shape':[1],'data_offsets':[1,2]}}")
    (zeros 2).


(** A header whose root is an array. *)
Definition array_root_file : list byte :=
  create_safetensors_data (json_text "[1,2,3]") (zeros 8).

(** S4 as a file: one empty tensor and no payload, loaded when
    [malloc(0)] returns [NULL]. *)
Definition no_payload_file : list byte :=
  create_safetensors_data
    (json_text "{'e':{'dtype':'F32','shape':[0,10]}}") [].

Definition no_payload_st : csafetensors_t :=
  loaded_or_init
    (csafetensors_load_from_memory buf_addr no_payload_file NULL).

(** An entry whose shape holds a string. *)
Definition text_in_shape_entry : json_value :=
  parsed (json_text "{'dtype':'U8','shape':[2,'3'],'data_offsets':[0,6]}").

(** A metadata key of 4096 bytes with a value of 5000 bytes. *)
Definition long_meta_key : list byte := repeat x6b 4096.
Definition long_meta_value : list byte := repeat x76 5000.

Definition long_metadata_file : list byte :=
  create_safetensors_data
    (json_text "{'__metadata__':{" ++ [QUOTE] ++ long_meta_key ++ [QUOTE]
     ++ lit ":" ++ [QUOTE] ++ long_meta_value ++ [QUOTE] ++ lit "}}")
    (zeros 1).

Definition long_metadata_st : csafetensors_t :=
  loaded_or_init
    (csafetensors_load_from_memory buf_addr long_metadata_file block_addr).


(** A header whose root is a string. *)
Definition string_root_file : list byte :=
  create_safetensors_data (json_text "'tensors'") (zeros 8).

End Inputs.
Import Inputs.

(** ** The derived properties of the specification's data model *)

Module Spec.

(** A tensor is empty when one of its dimensions is 0. *)
Definition is_empty_tensor (t : csafetensors_tensor_t) : bool :=
  existsb (Z.eqb 0) (shape t).

(** [element_count]: 1 for an empty shape, 0 when a dimension is 0,
    the product of the dimensions otherwise, as an integer. *)
Definition element_count (t : csafetensors_tensor_t) : Z :=
  fold_right Z.mul 1 (shape t).

(** [byte_size = element_count * dtype_size], as an integer. *)
Definition byte_size (t : csafetensors_tensor_t) : Z :=
  element_count t * csafetensors_dtype_size (dtype t).

(** Invariant 6 for one descriptor and a payload of [len] bytes. *)
Definition offsets_valid (len : Z) (t : csafetensors_tensor_t) : Prop :=
  is_empty_tensor t = false ->
  data_offset_begin t <= data_offset_end t <= len /\
  data_offset_end t - data_offset_begin t = byte_size t.

(** No object of a JSON tree has two equal keys. *)
Inductive keys_distinct : json_value -> Prop :=
| kd_null : keys_distinct JSON_NULL
| kd_bool (b : bool) : keys_distinct (JSON_BOOL b)
| kd_number (d : spec_float) : keys_distinct (JSON_NUMBER d)
| kd_string (s : list byte) : keys_distinct (JSON_STRING s)
| kd_array (items : list json_value) :
    Forall keys_distinct items -> keys_distinct (JSON_ARRAY items)
| kd_object (pairs : list (list byte * json_value)) :
    NoDup (map fst pairs) ->
    Forall (fun kv => keys_distinct (snd kv)) pairs ->
    keys_distinct (JSON_OBJECT pairs).

(** [v] is the value of the double [d] truncated toward zero, and a
    [size_t]: [v <= |d| < v + 1], with [v = 0] when [d] is negative. *)
Definition truncation_of (d : spec_float) (v : Z) : Prop :=
  0 <= v < 2 ^ 64 /\
  match d with
  | S754_zero _ => v = 0
  | S754_finite s m e =>
      (if s then v = 0 else True) /\
      if 0 <=? e then v = Zpos m * 2 ^ e
      else v * 2 ^ (- e) <= Zpos m < (v + 1) * 2 ^ (- e)
  | _ => False
  end.

(** A JSON number and the integer that its conversion stores. *)
Definition stored_as (j : json_value) (v : Z) : Prop :=
  exists d : spec_float, j = JSON_NUMBER d /\ truncation_of d v.

(** A double that is an integer from 0 to [2^53 - 1]. *)
Definition is_exact_index (d : spec_float) : bool :=
  match d with
  | S754_zero _ => true
  | S754_finite false m e =>
      if 0 <=? e then Zpos m * 2 ^ e <? 2 ^ 53
      else (Zpos m mod 2 ^ (- e) =? 0) && (Zpos m / 2 ^ (- e) <? 2 ^ 53)
  | _ => false
  end.

(** The bytes of a file that are handed to the JSON reader. *)
Definition header_json (bytes : list byte) : list byte :=
  firstn (Z.to_nat (read_u64_le bytes)) (skipn 8 bytes).

(** The top-level pairs that describe tensors. *)
Definition is_tensor_entry (kv : list byte * json_value) : bool :=
  negb (is_metadata_key (fst kv)).

(** The longest string that is stored whole. *)
Definition stored_len : nat := 4095.

(** The metadata entries of the pairs of a metadata object: the pairs
    with a string value, cut to [stored_len] bytes. *)
Definition metadata_of_pairs (mpairs : list (list byte * json_value))
  : list csafetensors_metadata_t :=
  flat_map
    (fun kv =>
       match snd kv with
       | JSON_STRING s =>
           [{| key := firstn stored_len (fst kv);
               value := firstn stored_len s |}]
       | _ => []
       end)
    mpairs.


(** Three properties of the five parsing functions at a budget. *)
Section ParserProperties.

Variable total : nat.

(** What every successful call has consumed. *)
Definition consumes (fuel : nat) : Prop :=
  (forall p v r,
      json_parse_value total fuel p = POk v r ->
      (length r < length p)%nat) /\
  (forall p v r,
      json_parse_array total fuel p = POk v r ->
      (length r < length p)%nat) /\
  (forall items p v r,
      json_array_loop total fuel items p = POk v r ->
      (length r < length p)%nat) /\
  (forall p v r,
      json_parse_object total fuel p = POk v r ->
      (length r < length p)%nat) /\
  (forall pairs p v r,
      json_object_loop total fuel pairs p = POk v r ->
      (length r < length p)%nat).

(** Budgets with which no call runs out. *)
Definition never_out_of_fuel (fuel : nat) : Prop :=
  (forall p,
      (3 * length p + 1 <= fuel)%nat ->
      json_parse_value total fuel p <> PFuel) /\
  (forall p,
      (1 <= fuel)%nat -> (3 * length p <= fuel)%nat ->
      json_parse_array total fuel p <> PFuel) /\
  (forall items p,
      (3 * length p + 2 <= fuel)%nat ->
      json_array_loop total fuel items p <> PFuel) /\
  (forall p,
      (1 <= fuel)%nat -> (3 * length p <= fuel)%nat ->
      json_parse_object total fuel p <> PFuel) /\
  (forall pairs p,
      (3 * length p + 2 <= fuel)%nat ->
      json_object_loop total fuel pairs p <> PFuel).

(** Objects are built without equal keys. *)
Definition builds_distinct (fuel : nat) : Prop :=
  (forall p v r,
      json_parse_value total fuel p = POk v r -> keys_distinct v) /\
  (forall p v r,
      json_parse_array total fuel p = POk v r -> keys_distinct v) /\
  (forall items p v r,
      Forall keys_distinct items ->
      json_array_loop total fuel items p = POk v r -> keys_distinct v) /\
  (forall p v r,
      json_parse_object total fuel p = POk v r -> keys_distinct v) /\
  (forall pairs p v r,
      NoDup (map fst pairs) ->
      Forall (fun kv => keys_distinct (snd kv)) pairs ->
      json_object_loop total fuel pairs p = POk v r -> keys_distinct v).

End ParserProperties.

(** The objects that a load from [bytes] can return. *)
Definition loaded_from (bytes : list byte) (st : csafetensors_t) : Prop :=
  (exists data block,
      csafetensors_load_from_memory data bytes block = Loaded st) \/
  (exists data, csafetensors_mmap_from_memory data bytes = Loaded st).

(** The messages that are set before the JSON reader is entered. *)
Definition set_before_json (msg : error_msg) : Prop :=
  msg = No_message \/ msg = Header_size_too_small \/
  msg = Header_size_exceeds_limit \/ msg = Header_size_exceeds_data_size.

(** The message of the first size check that fails, for a buffer of
    [size] bytes whose first eight bytes read as [hsize]. *)
Definition size_check (size hsize : Z) : option error_msg :=
  if size <? 16 then Some No_message
  else if hsize <? 2 then Some Header_size_too_small
  else if CSAFETENSORS_MAX_JSON_SIZE <? hsize
  then Some Header_size_exceeds_limit
  else if size <? 8 + hsize then Some Header_size_exceeds_data_size
  else None.

(** The pairs of the header's "__metadata__" object; none when the key
    is missing or its value is not an object. *)
Definition header_metadata_pairs (pairs : list (list byte * json_value))
  : list (list byte * json_value) :=
  match json_object_get (JSON_OBJECT pairs) (lit "__metadata__") with
  | Some (JSON_OBJECT mpairs) => mpairs
  | _ => []
  end.

(** The byte that a read at address [addr] finds after a load from the
    buffer [bytes]: in the caller's buffer for a mapped object, in the
    allocated block otherwise. *)
Definition byte_at (bytes : list byte) (st : csafetensors_t) (addr : Z)
  : option byte :=
  if mmaped st
  then if addr <? mmap_addr st then None
       else nth_error bytes (Z.to_nat (addr - mmap_addr st))
  else if addr <? storage st then None
       else nth_error (storage_bytes st) (Z.to_nat (addr - storage st)).

(** What may follow the digits of an integer for the number to end
    there: the end of the input, or a byte that is not a digit, a
    point or an exponent mark. *)
Definition ends_number (rest : list byte) : bool :=
  match rest with
  | [] => true
  | c :: _ =>
      negb (is_digit c || Byte.eqb c x2e || Byte.eqb c x65 || Byte.eqb c x45)
  end.

(** A decimal integer as JSON writes it: digits, with no zero in
    front unless it is the only digit. *)
Definition is_json_integer (ds : list byte) : bool :=
  match ds with
  | [] => false
  | c :: ds' =>
      forallb is_digit ds && (negb (Byte.eqb c x30) || (length ds' =? 0)%nat)
  end.

(** A byte that stands for itself inside a JSON string. *)
Definition plain_char (c : byte) : bool :=
  negb (Byte.eqb c QUOTE) && negb (Byte.eqb c BACKSLASH) && (0x20 <=? u8 c).

(** The value of a binary16 bit pattern (IEEE 754): one sign bit, five
    exponent bits with bias 15, ten fraction bits. *)
Definition f16_of_bits (x : Z) : spec_float :=
  let s := Z.testbit x 15 in
  let e := Z.land (Z.shiftr x 10) 0x1f in
  let m := Z.land x 0x3ff in
  if e =? 0 then
    match m with
    | Zpos p => S754_finite s p (-24)
    | _ => S754_zero s
    end
  else if e =? 31 then
    (if m =? 0 then S754_infinity s else S754_nan)
  else
    match Z.lor m 0x400 with
    | Zpos p => S754_finite s p (e - 25)
    | _ => S754_zero s
    end.

(** Two floating-point data denote the same thing: the same zero, the
    same infinity, a NaN each, or the same number [m * 2^e] with the
    same sign. *)
Definition same_value (a b : spec_float) : bool :=
  match a, b with
  | S754_zero s, S754_zero s' => Bool.eqb s s'
  | S754_infinity s, S754_infinity s' => Bool.eqb s s'
  | S754_nan, S754_nan => true
  | S754_finite s m e, S754_finite s' m' e' =>
      Bool.eqb s s' &&
      (Zpos m * 2 ^ (e - Z.min e e') =? Zpos m' * 2 ^ (e' - Z.min e e'))
  | _, _ => false
  end.

(** The code point that one well-formed UTF-8 sequence stands for
    (RFC 3629): one to four bytes, the shortest form only, no
    surrogate and nothing above U+10FFFF; [None] for any other
    sequence of bytes. *)
Definition utf8_decode (bs : list Z) : option Z :=
  let cont (b : Z) := b / 64 =? 2 in
  match bs with
  | [b0] => if (0 <=? b0) && (b0 <? 0x80) then Some b0 else None
  | [b0; b1] =>
      let cp := b0 mod 32 * 64 + b1 mod 64 in
      if (b0 / 32 =? 6) && cont b1 && (0x80 <=? cp)
      then Some cp else None
  | [b0; b1; b2] =>
      let cp := b0 mod 16 * 4096 + b1 mod 64 * 64 + b2 mod 64 in
      if (b0 / 16 =? 14) && cont b1 && cont b2 && (0x800 <=? cp)
         && negb ((0xD800 <=? cp) && (cp <=? 0xDFFF))
      then Some cp else None
  | [b0; b1; b2; b3] =>
      let cp := b0 mod 8 * 262144 + b1 mod 64 * 4096 + b2 mod 64 * 64
                + b3 mod 64 in
      if (b0 / 8 =? 30) && cont b1 && cont b2 && cont b3
         && (0x10000 <=? cp) && (cp <=? 0x10FFFF)
      then Some cp else None
  | _ => None
  end.

(** A JSON text whose value is read without a nested call: after the
    white space it does not open an array or an object. *)
Definition opens_no_bracket (text : list byte) : bool :=
  match json_skip_whitespace text with
  | c :: _ => negb (Byte.eqb c x5b || Byte.eqb c x7b)
  | [] => true
  end.

(** A value that is not an array or an object. *)
Definition is_scalar (v : json_value) : bool :=
  match v with
  | JSON_ARRAY _ | JSON_OBJECT _ => false
  | _ => true
  end.

End Spec.
Import Spec.


(** * Properties *)

(** ** Half-float codec *)

Lemma zrange_In (n : nat) :
  forall lo x, lo <= x < lo + Z.of_nat n -> In x (zrange lo n).
Proof.
  induction n as [|n IH]; intros lo x Hx.
  - simpl in Hx. lia.
  - cbn [zrange]. destruct (Z.eq_dec x lo) as [->|Hne].
    + now left.
    + right. apply IH. lia.
Qed.

Lemma f16_roundtrip_table :
  forallb (fun x => implb (f16_is_finite x) (f16_roundtrips x))
    (zrange 0 (Z.to_nat 65536)) = true.
Proof. vm_compute. reflexivity. Qed.

(** C7.  Converting a half to single precision and back gives the same
    16 bits, for each of the [2^16] patterns whose exponent field is
    not all ones. *)
Theorem f16_to_f32_to_f16_identity (x : Z)
  (Hx : 0 <= x < 2 ^ 16) (Hfin : f16_is_finite x = true) :
  csafetensors_f32_to_f16 (csafetensors_f16_to_f32 x) = x.
Proof.
  pose proof f16_roundtrip_table as Htab.
  rewrite forallb_forall in Htab.
  specialize (Htab x).
  rewrite Hfin in Htab. cbn [implb] in Htab.
  apply Z.eqb_eq. apply Htab.
  apply zrange_In. change (Z.of_nat (Z.to_nat 65536)) with 65536. lia.
Qed.

Lemma f16_to_f32_to_f16_identity_witness :
  csafetensors_f32_to_f16 (csafetensors_f16_to_f32 0x0001) = 0x0001.
Proof.
  apply f16_to_f32_to_f16_identity; [ lia | reflexivity ].
Defined.

(** C8.  The bits of [bf16_to_f32 x] are [x] shifted left by 16, and
    their upper half is [x] again. *)
Theorem bf16_to_f32_bits (x : Z) (Hx : 0 <= x < 2 ^ 16) :
  csafetensors_bf16_to_f32 x = Z.shiftl x 16 /\
  Z.shiftr (csafetensors_bf16_to_f32 x) 16 = x.
Proof.
  unfold csafetensors_bf16_to_f32, u32.
  rewrite Z.shiftl_mul_pow2 by lia.
  rewrite Z.mod_small by lia.
  split; [ reflexivity | ].
  rewrite Z.shiftr_div_pow2 by lia.
  apply Z.div_mul. lia.
Qed.

Lemma bf16_to_f32_bits_witness :
  csafetensors_bf16_to_f32 0x3f80 = Z.shiftl 0x3f80 16 /\
  Z.shiftr (csafetensors_bf16_to_f32 0x3f80) 16 = 0x3f80.
Proof.
  apply bf16_to_f32_bits. lia.
Defined.

(** ** Container loader: the size checks *)

Lemma read_u64_le_firstn (a b : list byte) :
  firstn 8 a = firstn 8 b -> read_u64_le a = read_u64_le b.
Proof. unfold read_u64_le. now intros ->. Qed.

Lemma size_check_bad (size hsize : Z) :
  size < 16 \/ hsize < 2 \/ CSAFETENSORS_MAX_JSON_SIZE < hsize \/
  size < 8 + hsize ->
  exists msg, size_check size hsize = Some msg /\ set_before_json msg.
Proof.
  intros Hbad. unfold size_check, set_before_json.
  destruct (size <? 16) eqn:E1; [ eauto 6 | ].
  destruct (hsize <? 2) eqn:E2; [ eauto 6 | ].
  destruct (CSAFETENSORS_MAX_JSON_SIZE <? hsize) eqn:E3; [ eauto 7 | ].
  destruct (size <? 8 + hsize) eqn:E4; [ eauto 8 | ].
  exfalso. lia.
Qed.

Lemma parse_header_size_check (bytes : list byte) (msg : error_msg) :
  Z.of_nat (length bytes) >= 16 ->
  size_check (Z.of_nat (length bytes)) (read_u64_le bytes) = Some msg ->
  parse_safetensors_header bytes = Error msg.
Proof.
  unfold size_check, parse_safetensors_header.
  intros Hsz.
  destruct (Z.of_nat (length bytes) <? 16) eqn:E1; [ lia | ].
  destruct (read_u64_le bytes <? 2) eqn:E2; [ congruence | ].
  destruct (CSAFETENSORS_MAX_JSON_SIZE <? read_u64_le bytes) eqn:E3;
    [ congruence | ].
  unfold u64. rewrite Z.mod_small
    by (unfold CSAFETENSORS_MAX_JSON_SIZE in E3; lia).
  destruct (Z.of_nat (length bytes) <? 8 + read_u64_le bytes) eqn:E4;
    congruence.
Qed.

(** The two loaders on a buffer that a size check refuses. *)
Lemma loaders_size_check (data block : Z) (bytes : list byte)
  (msg : error_msg) :
  data <> NULL ->
  size_check (Z.of_nat (length bytes)) (read_u64_le bytes) = Some msg ->
  exists code,
    csafetensors_load_from_memory data bytes block = Failed code msg /\
    csafetensors_mmap_from_memory data bytes = Failed code msg /\
    code = (if Z.of_nat (length bytes) <? 16
            then CSAFETENSORS_ERROR_INVALID_ARGUMENT
            else CSAFETENSORS_ERROR_JSON_PARSE).
Proof.
  intros Hdata Hc.
  unfold csafetensors_load_from_memory, csafetensors_mmap_from_memory.
  apply Z.eqb_neq in Hdata. rewrite Hdata. cbn [orb].
  destruct (Z.of_nat (length bytes) <? 16) eqn:E1.
  - unfold size_check in Hc. rewrite E1 in Hc. injection Hc as <-. eauto.
  - rewrite (parse_header_size_check bytes msg) by (lia || assumption).
    eauto.
Qed.

(** C2.  A buffer shorter than 16 bytes is refused by both loaders
    with [INVALID_ARGUMENT]; a buffer whose first eight bytes read as
    [H] with [H < 2], [H > 100 MiB] or [8 + H > size] is refused with
    one of the three header-size messages, that is before the JSON
    reader is entered: the outcome is the same for every buffer of
    that length with those first eight bytes. *)
Theorem load_refuses_bad_sizes (data block : Z) (bytes : list byte)
  (Hdata : data <> NULL)
  (Hbad : Z.of_nat (length bytes) < 16 \/
          read_u64_le bytes < 2 \/
          CSAFETENSORS_MAX_JSON_SIZE < read_u64_le bytes \/
          Z.of_nat (length bytes) < 8 + read_u64_le bytes) :
  exists code msg,
    csafetensors_load_from_memory data bytes block = Failed code msg /\
    csafetensors_mmap_from_memory data bytes = Failed code msg /\
    set_before_json msg /\
    (Z.of_nat (length bytes) < 16 ->
     code = CSAFETENSORS_ERROR_INVALID_ARGUMENT) /\
    (forall bytes' : list byte,
        length bytes' = length bytes ->
        firstn 8 bytes' = firstn 8 bytes ->
        csafetensors_load_from_memory data bytes' block = Failed code msg /\
        csafetensors_mmap_from_memory data bytes' = Failed code msg).
Proof.
  destruct (size_check_bad _ _ Hbad) as (msg & Hmsg & Hpre).
  destruct (loaders_size_check data block bytes msg Hdata Hmsg)
    as (code & Hl & Hm & Hcode).
  exists code, msg.
  split; [ exact Hl | split; [ exact Hm | split; [ exact Hpre | split ] ] ].
  { intros Hlt. apply Z.ltb_lt in Hlt. now rewrite Hlt in Hcode. }
  intros bytes' Hlen Hpre8.
  destruct (loaders_size_check data block bytes' msg Hdata)
    as (code' & Hl' & Hm' & Hcode').
  - rewrite Hlen, (read_u64_le_firstn _ _ Hpre8). exact Hmsg.
  - rewrite Hlen in Hcode'. rewrite Hl', Hm', Hcode', Hcode. now split.
Qed.

(** B2: a header size of [0xFFFFFFFFFFFFFFFF]. *)
Lemma load_refuses_bad_sizes_witness :
  exists code msg,
    csafetensors_load_from_memory buf_addr huge_header_file block_addr
    = Failed code msg /\
    csafetensors_mmap_from_memory buf_addr huge_header_file
    = Failed code msg /\
    set_before_json msg /\
    (Z.of_nat (length huge_header_file) < 16 ->
     code = CSAFETENSORS_ERROR_INVALID_ARGUMENT) /\
    (forall bytes' : list byte,
        length bytes' = length huge_header_file ->
        firstn 8 bytes' = firstn 8 huge_header_file ->
        csafetensors_load_from_memory buf_addr bytes' block_addr
        = Failed code msg /\
        csafetensors_mmap_from_memory buf_addr bytes' = Failed code msg).
Proof.
  apply load_refuses_bad_sizes.
  - unfold buf_addr, NULL. lia.
  - right. right. left. vm_compute. reflexivity.
Defined.

(** ** Accessor surface *)

Lemma Loaded_inj (st1 st2 : csafetensors_t) :
  Loaded st1 = Loaded st2 -> st1 = st2.
Proof. congruence. Qed.

Lemma loaded_payload (bytes : list byte) (st : csafetensors_t) :
  loaded_from bytes st ->
  Z.of_nat (length bytes) < 2 ^ 64 ->
  payload_size st = Z.of_nat (length bytes) - 8 - header_size st /\
  0 <= payload_size st.
Proof.
  intros Hl Hsz.
  assert (Hh : forall h, parse_safetensors_header bytes = Ok h ->
                         2 <= h_header_size h /\
                         8 + h_header_size h <= Z.of_nat (length bytes)).
  { intros h. unfold parse_safetensors_header.
    destruct (Z.of_nat (length bytes) <? 16); [ discriminate | ].
    destruct (read_u64_le bytes <? 2) eqn:E2; [ discriminate | ].
    destruct (CSAFETENSORS_MAX_JSON_SIZE <? read_u64_le bytes) eqn:E3;
      [ discriminate | ].
    unfold u64. rewrite Z.mod_small
      by (unfold CSAFETENSORS_MAX_JSON_SIZE in E3; lia).
    destruct (Z.of_nat (length bytes) <? 8 + read_u64_le bytes) eqn:E4;
      [ discriminate | ].
    destruct (json_parse _) as [root r| |]; try discriminate.
    destruct root; try discriminate.
    destruct (count_entries pairs) as [nt nm].
    destruct (parse_entries nt nm pairs [] []) as [r'| |];
      cbn [bind]; try discriminate.
    intros [= <-]. cbn [h_header_size]. lia. }
  destruct Hl as [(data & block & Hl) | (data & Hl)].
  - unfold csafetensors_load_from_memory in Hl.
    destruct (_ || _); [ discriminate | ].
    destruct (parse_safetensors_header bytes) as [h| |] eqn:Eh;
      try discriminate.
    destruct (Hh h eq_refl) as [H2 H8].
    destruct (_ && _); [ discriminate | ].
    apply Loaded_inj in Hl. subst st.
    cbv [payload_size mmaped storage_size header_size].
    unfold u64. rewrite (Z.mod_small (8 + _)) by lia.
    rewrite Z.mod_small by lia. lia.
  - unfold csafetensors_mmap_from_memory in Hl.
    destruct (_ || _); [ discriminate | ].
    destruct (parse_safetensors_header bytes) as [h| |] eqn:Eh;
      try discriminate.
    destruct (Hh h eq_refl) as [H2 H8].
    apply Loaded_inj in Hl. subst st.
    cbv [payload_size mmaped databuffer_size header_size].
    unfold u64. rewrite Z.mod_small by lia. lia.
Qed.

(** C4, as the code has it.  For an object loaded from a buffer, with
    a payload base that is not [NULL], [get_tensor_data] compares
    [offsets.begin] with the payload length [size - 8 - header_size]:
    it returns [base + offsets.begin] when [begin] is at most that
    length and [NULL] when [begin] is beyond it.  Nothing else of the
    descriptor is looked at: [offsets.end] and the byte size are not
    checked. *)
Theorem get_tensor_data_guards_begin (bytes : list byte)
  (st : csafetensors_t) (t : csafetensors_tensor_t)
  (Hload : loaded_from bytes st)
  (Hsize : Z.of_nat (length bytes) < 2 ^ 64)
  (Hbase : payload_base st <> NULL) :
  let len := Z.of_nat (length bytes) - 8 - header_size st in
  (data_offset_begin t <= len ->
   csafetensors_get_tensor_data st t = payload_base st + data_offset_begin t)
  /\
  (len < data_offset_begin t -> csafetensors_get_tensor_data st t = NULL)
  /\
  (forall t' : csafetensors_tensor_t,
      data_offset_begin t' = data_offset_begin t ->
      csafetensors_get_tensor_data st t' = csafetensors_get_tensor_data st t).
Proof.
  destruct (loaded_payload bytes st Hload Hsize) as [Hp _].
  cbv zeta. rewrite <- Hp.
  unfold csafetensors_get_tensor_data.
  apply Z.eqb_neq in Hbase. rewrite Hbase.
  repeat split.
  - intros Hle. destruct (Z.ltb_spec (payload_size st) (data_offset_begin t));
      [ lia | reflexivity ].
  - intros Hlt. destruct (Z.ltb_spec (payload_size st) (data_offset_begin t));
      [ reflexivity | lia ].
  - intros t' ->. reflexivity.
Qed.

Lemma simple_file_loaded :
  loaded_from simple_file
    (loaded_or_init
       (csafetensors_load_from_memory buf_addr simple_file block_addr)).
Proof.
  left. exists buf_addr, block_addr. vm_compute. reflexivity.
Defined.

Lemma get_tensor_data_guards_begin_witness :
  let st := loaded_or_init
              (csafetensors_load_from_memory buf_addr simple_file block_addr) in
  let t := {| name := lit "test"; dtype := CSAFETENSORS_DTYPE_FLOAT32;
              shape := [2; 3]; data_offset_begin := 0;
              data_offset_end := 24 |} in
  let len := Z.of_nat (length simple_file) - 8 - header_size st in
  (data_offset_begin t <= len ->
   csafetensors_get_tensor_data st t = payload_base st + data_offset_begin t)
  /\
  (len < data_offset_begin t -> csafetensors_get_tensor_data st t = NULL)
  /\
  (forall t' : csafetensors_tensor_t,
      data_offset_begin t' = data_offset_begin t ->
      csafetensors_get_tensor_data st t' = csafetensors_get_tensor_data st t).
Proof.
  intros st t.
  apply (get_tensor_data_guards_begin simple_file st t).
  - exact simple_file_loaded.
  - vm_compute. reflexivity.
  - vm_compute. discriminate.
Defined.

(** C4, as stated, fails: the range of the one tensor of
    [beyond_file] starts at 100 in a payload of four bytes, and the
    accessor returns [NULL], not [base + 100]. *)
Lemma get_tensor_data_unchecked_counterexample :
  exists (st : csafetensors_t) (t : csafetensors_tensor_t),
    csafetensors_load_from_memory buf_addr beyond_file block_addr = Loaded st
    /\ In t (tensors st)
    /\ payload_base st = block_addr
    /\ data_offset_begin t = 100
    /\ csafetensors_get_tensor_data st t = NULL
    /\ csafetensors_get_tensor_data st t
       <> payload_base st + data_offset_begin t.
Proof.
  eexists. eexists. split; [ vm_compute; reflexivity | ].
  split; [ left; reflexivity | ].
  repeat split. vm_compute. discriminate.
Qed.

(** ** Sizes in machine arithmetic *)

Lemma u64_mul_idemp_l (a b : Z) : u64 (u64 a * b) = u64 (a * b).
Proof. unfold u64. apply Z.mul_mod_idemp_l. lia. Qed.

(** The loop multiplies modulo [2^64] and stops at a zero. *)
Lemma shape_size_loop_spec (dims : list Z) :
  forall size : Z,
    shape_size_loop dims size =
    if existsb (Z.eqb 0) dims then 0
    else match dims with
         | [] => size
         | _ :: _ => u64 (size * fold_right Z.mul 1 dims)
         end.
Proof.
  induction dims as [|d rest IH]; intros size.
  - reflexivity.
  - cbn [shape_size_loop existsb fold_right].
    rewrite (Z.eqb_sym 0 d).
    destruct (d =? 0) eqn:Ed; cbn [orb]; [ reflexivity | ].
    rewrite IH.
    destruct (existsb (Z.eqb 0) rest); [ reflexivity | ].
    destruct rest as [|d' rest'].
    + cbn [fold_right]. now rewrite Z.mul_1_r.
    + rewrite u64_mul_idemp_l. now rewrite Z.mul_assoc.
Qed.

Lemma shape_size_spec (t : csafetensors_tensor_t) :
  csafetensors_shape_size t =
  if is_empty_tensor t then 0
  else match shape t with
       | [] => 1
       | _ :: _ => u64 (element_count t)
       end.
Proof.
  unfold csafetensors_shape_size, n_dims, is_empty_tensor, element_count.
  rewrite shape_size_loop_spec.
  destruct (shape t) as [|d rest]; [ reflexivity | ].
  change (Z.of_nat (length (d :: rest)) =? 0) with false.
  cbv iota. now rewrite Z.mul_1_l.
Qed.

(** C10.  The element count is the product of the dimensions modulo
    [2^64], and the size that validation compares is that count times
    the dtype size, again modulo [2^64].  In [wrap_one_file] the one
    tensor has [2^64 + 1] elements of one byte: the computed size is
    1, the file holds one byte of payload, and validation accepts
    it. *)
Theorem byte_size_wraps_at_2_64 :
  (forall t : csafetensors_tensor_t,
      csafetensors_shape_size t =
      if is_empty_tensor t then 0
      else match shape t with
           | [] => 1
           | _ :: _ => (element_count t) mod 2 ^ 64
           end) /\
  (forall (len : Z) (t : csafetensors_tensor_t),
      validate_tensor len t =
      let tensor_size :=
        (csafetensors_dtype_size (dtype t) * csafetensors_shape_size t)
          mod 2 ^ 64 in
      if data_offset_end t <? data_offset_begin t
      then Some (Begin_after_end (name t))
      else if tensor_size =? 0 then None
      else if len <? data_offset_end t
      then Some (Offset_exceeds_buffer (name t))
      else if tensor_size
              =? (data_offset_end t - data_offset_begin t) mod 2 ^ 64
      then None
      else Some (Size_mismatch (name t) tensor_size
                   ((data_offset_end t - data_offset_begin t) mod 2 ^ 64)))
  /\
  (exists (st : csafetensors_t) (t : csafetensors_tensor_t),
      csafetensors_load_from_memory buf_addr wrap_one_file block_addr
      = Loaded st /\
      tensors st = [t] /\
      byte_size t = 2 ^ 64 + 1 /\
      csafetensors_dtype_size (dtype t) * csafetensors_shape_size t = 1 /\
      payload_size st = 1 /\
      csafetensors_validate st = true).
Proof.
  split; [ exact shape_size_spec | split ].
  - intros len t. unfold validate_tensor, u64. cbv zeta.
    destruct (data_offset_end t <? data_offset_begin t); [ reflexivity | ].
    destruct (_ =? 0); [ reflexivity | ].
    destruct (len <? data_offset_end t); [ reflexivity | ].
    destruct (_ =? _); reflexivity.
  - eexists. eexists.
    split; [ vm_compute; reflexivity | ].
    split; [ reflexivity | ].
    repeat split.
Qed.

(** C1 at [wrap_zero_file].  The one tensor has shape
    [[2^32, 2^32]] and dtype U8, so it is not empty and its byte size
    is [2^64]; its range [0, 100) lies outside the empty payload.  The
    load succeeds and [csafetensors_validate] returns [true]: the
    product of the dimensions has wrapped to 0 and the tensor is
    passed over as an empty one. *)
Theorem validate_accepts_wrapped_size :
  exists (st : csafetensors_t) (t : csafetensors_tensor_t),
    csafetensors_load_from_memory buf_addr wrap_zero_file block_addr
    = Loaded st /\
    tensors st = [t] /\
    is_empty_tensor t = false /\
    byte_size t = 2 ^ 64 /\
    payload_size st = 0 /\
    data_offset_begin t = 0 /\
    data_offset_end t = 100 /\
    ~ offsets_valid (payload_size st) t /\
    csafetensors_shape_size t = 0 /\
    csafetensors_validate st = true.
Proof.
  eexists. eexists.
  split; [ vm_compute; reflexivity | ].
  split; [ reflexivity | ].
  repeat split.
  unfold offsets_valid. intros Hv.
  specialize (Hv eq_refl). vm_compute in Hv.
  destruct Hv as [[_ Hle] _]. now apply Hle.
Qed.

(** ** The JSON reader *)

Lemma streq_eq (a b : list byte) : streq a b = true <-> a = b.
Proof.
  revert b. induction a as [|x a IH]; intros [|y b]; cbn [streq];
    try (split; (discriminate || reflexivity)).
  rewrite andb_true_iff, IH. split.
  - intros [Hxy ->]. now rewrite (byte_dec_bl _ _ Hxy).
  - intros [= -> ->]. split; [ now apply byte_dec_lb | reflexivity ].
Qed.

Lemma streq_refl (a : list byte) : streq a a = true.
Proof. now apply streq_eq. Qed.

Lemma skip_whitespace_length (p : list byte) :
  (length (json_skip_whitespace p) <= length p)%nat.
Proof.
  induction p as [|c p IH]; cbn [json_skip_whitespace length]; [ lia | ].
  destruct (_ || _); cbn [length]; lia.
Qed.

Lemma json_match_length (str : list byte) :
  forall p r, json_match p str = Some r ->
              (length r + length str = length p)%nat.
Proof.
  induction str as [|s str IH]; intros p r.
  - destruct p; cbn [json_match]; intros [= <-]; cbn [length]; lia.
  - destruct p as [|c p]; cbn [json_match]; [ discriminate | ].
    destruct (Byte.eqb c s); [ | discriminate ].
    intros Hm. apply IH in Hm. cbn [length]. lia.
Qed.

Lemma unicode_escape_length (p utf8 r : list byte) :
  json_parse_unicode_escape p = Some (utf8, r) ->
  (length r + 4 <= length p)%nat.
Proof.
  unfold json_parse_unicode_escape.
  destruct p as [|c0 [|c1 [|c2 [|c3 p1]]]]; try discriminate.
  destruct (hex4 c0 c1 c2 c3) as [cp|]; [ | discriminate ].
  destruct (_ && _).
  - destruct p1 as [|b0 [|b1 [|d0 [|d1 [|d2 [|d3 p2]]]]]]; try discriminate.
    destruct (_ || _); [ discriminate | ].
    destruct (hex4 d0 d1 d2 d3) as [low|]; [ | discriminate ].
    destruct (_ || _); [ discriminate | ].
    intros [= _ <-]. cbn [length]. lia.
  - intros [= _ <-]. cbn [length]. lia.
Qed.

Lemma string_loop_length (fuel : nat) :
  forall out p s r,
    json_string_loop fuel out p = POk s r -> (length r < length p)%nat.
Proof.
  induction fuel as [|fuel IH]; intros out p s r; cbn [json_string_loop];
    [ discriminate | ].
  destruct p as [|c p1]; [ discriminate | ].
  destruct (Byte.eqb c QUOTE).
  { intros [= _ <-]. cbn [length]. lia. }
  destruct (u8 c <? 32); [ discriminate | ].
  destruct (Byte.eqb c BACKSLASH).
  - destruct p1 as [|e p2]; [ discriminate | ].
    destruct (Byte.eqb e x75).
    + destruct (json_parse_unicode_escape p2) as [[utf8 p3]|] eqn:Eu;
        [ | discriminate ].
      apply unicode_escape_length in Eu.
      intros Hl. apply IH in Hl. cbn [length]. lia.
    + destruct (simple_escape e); [ | discriminate ].
      intros Hl. apply IH in Hl. cbn [length]. lia.
  - intros Hl. apply IH in Hl. cbn [length]. lia.
Qed.

Lemma string_loop_total (fuel : nat) :
  forall out p,
    (length p < fuel)%nat -> json_string_loop fuel out p <> PFuel.
Proof.
  induction fuel as [|fuel IH]; intros out p Hlen; [ lia | ].
  cbn [json_string_loop].
  destruct p as [|c p1]; [ discriminate | ].
  cbn [length] in Hlen.
  destruct (Byte.eqb c QUOTE); [ discriminate | ].
  destruct (u8 c <? 32); [ discriminate | ].
  destruct (Byte.eqb c BACKSLASH).
  - destruct p1 as [|e p2]; [ discriminate | ].
    cbn [length] in Hlen.
    destruct (Byte.eqb e x75).
    + destruct (json_parse_unicode_escape p2) as [[utf8 p3]|] eqn:Eu;
        [ | discriminate ].
      apply unicode_escape_length in Eu. apply IH. lia.
    + destruct (simple_escape e); [ | discriminate ].
      apply IH. lia.
  - apply IH. lia.
Qed.

Section ParserFacts.

Variable total : nat.

Lemma parse_string_length (p s r : list byte) :
  json_parse_string total p = POk s r -> (length r < length p)%nat.
Proof.
  unfold json_parse_string.
  destruct p as [|c p']; [ discriminate | ].
  destruct (Byte.eqb c QUOTE); [ | discriminate ].
  intros Hl. apply string_loop_length in Hl. cbn [length]. lia.
Qed.

Lemma parse_string_total (p : list byte) :
  json_parse_string total p <> PFuel.
Proof.
  unfold json_parse_string.
  destruct p as [|c p']; [ discriminate | ].
  destruct (Byte.eqb c QUOTE); [ | discriminate ].
  apply string_loop_total. lia.
Qed.

Lemma span_digits_length (p : list byte) :
  (length (snd (span_digits p)) <= length p)%nat.
Proof.
  induction p as [|c p IH]; cbn [span_digits snd length]; [ lia | ].
  destruct (is_digit c); cbn [snd length]; [ | lia ].
  destruct (span_digits p) as [ds r]. cbn [snd] in *. lia.
Qed.

Lemma span_digits_digit (c : byte) (p : list byte) :
  is_digit c = true ->
  (length (snd (span_digits (c :: p))) <= length p)%nat.
Proof.
  intros Hd. cbn [span_digits]. rewrite Hd.
  pose proof (span_digits_length p) as Hl.
  destruct (span_digits p) as [ds r]. exact Hl.
Qed.

End ParserFacts.

Lemma number_int_part_length (p ints r : list byte) :
  number_int_part p = Some (ints, r) -> (length r < length p)%nat.
Proof.
  unfold number_int_part. destruct p as [|c q]; [ discriminate | ].
  destruct (Byte.eqb c x30).
  - intros [= _ <-]. cbn [length]. lia.
  - destruct (_ && _) eqn:Ed; [ | discriminate ].
    assert (Hd : is_digit c = true).
    { unfold is_digit. apply andb_true_iff in Ed. destruct Ed as [E1 E2].
      apply andb_true_iff. split; [ | exact E2 ].
      apply Z.leb_le in E1. apply Z.leb_le. lia. }
    pose proof (span_digits_digit c q Hd) as Hl.
    intros Hs.
    assert (Hs' : span_digits (c :: q) = (ints, r)) by congruence.
    rewrite Hs' in Hl. cbn [snd length] in *. lia.
Qed.

Lemma number_frac_part_length (p fracs r : list byte) :
  number_frac_part p = Some (fracs, r) -> (length r <= length p)%nat.
Proof.
  unfold number_frac_part. destruct p as [|c q].
  - intros [= _ <-]. lia.
  - destruct (Byte.eqb c x2e).
    + destruct q as [|d q']; [ discriminate | ].
      destruct (is_digit d); [ | discriminate ].
      pose proof (span_digits_length (d :: q')) as Hl.
      intros Hs.
      assert (Hs' : span_digits (d :: q') = (fracs, r)) by congruence.
      rewrite Hs' in Hl. cbn [snd length] in *. lia.
    + intros [= _ <-]. lia.
Qed.

Lemma number_exp_part_length (p r : list byte) (e : Z) :
  number_exp_part p = Some (e, r) -> (length r <= length p)%nat.
Proof.
  unfold number_exp_part. destruct p as [|c q].
  - intros [= _ <-]. lia.
  - destruct (_ || _).
    + assert (Hq : forall q0 : list byte,
                 (length q0 <= length q)%nat ->
                 match q0 with
                 | d :: _ =>
                     if is_digit d then
                       let '(es, r0) := span_digits q0 in
                       Some (cond_Zopp false (decimal_value es), r0)
                     else None
                 | [] => None
                 end = Some (e, r) \/
                 match q0 with
                 | d :: _ =>
                     if is_digit d then
                       let '(es, r0) := span_digits q0 in
                       Some (cond_Zopp true (decimal_value es), r0)
                     else None
                 | [] => None
                 end = Some (e, r) ->
                 (length r <= length (c :: q))%nat).
      { intros q0 Hq0 Hs.
        assert (Hr : r = snd (span_digits q0)).
        { destruct q0 as [|d q1]; [ destruct Hs; discriminate | ].
          destruct (is_digit d); [ | destruct Hs; discriminate ].
          destruct (span_digits (d :: q1)) as [es r0].
          destruct Hs as [Hs|Hs]; now injection Hs as _ <-. }
        pose proof (span_digits_length q0) as Hl. rewrite <- Hr in Hl.
        cbn [length]. lia. }
      destruct q as [|s q'].
      * intros Hs. apply (Hq []); [ lia | now left ].
      * destruct (Byte.eqb s x2b).
        { intros Hs. apply (Hq q'); [ cbn [length]; lia | now left ]. }
        destruct (Byte.eqb s x2d).
        { intros Hs. apply (Hq q'); [ cbn [length]; lia | now right ]. }
        intros Hs. apply (Hq (s :: q')); [ lia | now left ].
    + intros [= _ <-]. lia.
Qed.

Lemma parse_number_length (p r : list byte) (d : spec_float) :
  json_parse_number p = POk d r -> (length r < length p)%nat.
Proof.
  unfold json_parse_number.
  set (sp := match p with
             | c :: q => if Byte.eqb c x2d then (true, q) else (false, p)
             | [] => (false, p)
             end).
  assert (Hsp : (length (snd sp) <= length p)%nat).
  { subst sp. destruct p as [|c q]; [ cbn; lia | ].
    destruct (Byte.eqb c x2d); cbn [snd length]; lia. }
  destruct sp as [neg p0]. cbn [snd] in Hsp.
  destruct p0 as [|c0 q0]; [ discriminate | ].
  destruct (number_int_part (c0 :: q0)) as [[ints p1]|] eqn:E1;
    [ | discriminate ].
  destruct (number_frac_part p1) as [[fracs p2]|] eqn:E2; [ | discriminate ].
  destruct (number_exp_part p2) as [[e p3]|] eqn:E3; [ | discriminate ].
  intros [= _ <-].
  apply number_int_part_length in E1.
  apply number_frac_part_length in E2.
  apply number_exp_part_length in E3. lia.
Qed.

Lemma parse_number_total (p : list byte) : json_parse_number p <> PFuel.
Proof.
  unfold json_parse_number.
  destruct (match p with
            | c :: q => if Byte.eqb c x2d then (true, q) else (false, p)
            | [] => (false, p)
            end) as [neg p0].
  destruct p0 as [|c0 q0]; [ discriminate | ].
  destruct (number_int_part (c0 :: q0)) as [[ints p1]|]; [ | discriminate ].
  destruct (number_frac_part p1) as [[fracs p2]|]; [ | discriminate ].
  destruct (number_exp_part p2) as [[e p3]|]; discriminate.
Qed.

Lemma json_match_lt (p str r : list byte) :
  json_match p str = Some r -> (0 < length str)%nat ->
  (length r < length p)%nat.
Proof. intros Hm Hs. apply json_match_length in Hm. lia. Qed.

(** Splitting a hypothesis on the first test it contains. *)
Ltac split_test H :=
  match type of H with
  | context [match ?x with _ => _ end] =>
      destruct x eqn:?; try discriminate H
  end.

(** The lengths that the leaves of the parser leave. *)
Ltac leaf_lengths :=
  repeat match goal with
    | H : json_match _ _ = Some _ |- _ =>
        apply json_match_lt in H; [ | vm_compute; lia ]
    | H : json_parse_string _ _ = POk _ _ |- _ =>
        apply parse_string_length in H
    | H : json_parse_number _ = POk _ _ |- _ =>
        apply parse_number_length in H
    | H : json_skip_whitespace ?p = _ |- _ =>
        let Hl := fresh "Hl" in
        pose proof (skip_whitespace_length p) as Hl;
        rewrite H in Hl; clear H
    | H : context [length (json_skip_whitespace ?p)] |- _ =>
        lazymatch goal with
        | _ : (length (json_skip_whitespace p) <= length p)%nat |- _ => fail
        | _ => pose proof (skip_whitespace_length p)
        end
    end.

Section ParserRecursion.

Variable total : nat.

Lemma parser_consumes (fuel : nat) : consumes total fuel.
Proof.
  induction fuel as [|fuel (IHv & IHa & IHal & IHo & IHol)];
    [ repeat split; intros; discriminate | ].
  repeat split.
  - intros p v r H. cbn [json_parse_value] in H. cbv zeta in H.
    repeat split_test H;
      try (injection H as <- <-); try apply IHa in H; try apply IHo in H;
      leaf_lengths; cbn [length] in *; lia.
  - intros p v r H. cbn [json_parse_array] in H.
    repeat split_test H;
      try (injection H as <- <-); try apply IHal in H;
      leaf_lengths; cbn [length] in *; lia.
  - intros items p v r H. cbn [json_array_loop] in H. cbv zeta in H.
    repeat split_test H;
      try (injection H as <- <-); try apply IHal in H;
      repeat match goal with
        | E : json_parse_value _ _ _ = POk _ _ |- _ => apply IHv in E
        end;
      leaf_lengths; cbn [length] in *; lia.
  - intros p v r H. cbn [json_parse_object] in H.
    repeat split_test H;
      try (injection H as <- <-); try apply IHol in H;
      leaf_lengths; cbn [length] in *; lia.
  - intros pairs p v r H. cbn [json_object_loop] in H. cbv zeta in H.
    repeat split_test H;
      try (injection H as <- <-); try apply IHol in H;
      repeat match goal with
        | E : json_parse_value _ _ _ = POk _ _ |- _ => apply IHv in E
        end;
      leaf_lengths; cbn [length] in *; lia.
Qed.

(** What the calls made inside a call have consumed. *)
Ltac inner_lengths fuel :=
  repeat match goal with
    | E : json_parse_value _ fuel _ = POk _ _ |- _ =>
        apply (proj1 (parser_consumes fuel)) in E
    end;
  leaf_lengths; cbn [length] in *.

Lemma parser_never_out_of_fuel (fuel : nat) :
  never_out_of_fuel total fuel.
Proof.
  induction fuel as [|fuel (IHv & IHa & IHal & IHo & IHol)].
  { repeat split; intros; lia. }
  repeat split.
  - intros p Hf H. cbn [json_parse_value] in H. cbv zeta in H.
    repeat split_test H;
      try match goal with
        | E : json_parse_string _ _ = PFuel |- _ =>
            now apply parse_string_total in E
        | E : json_parse_number _ = PFuel |- _ =>
            now apply parse_number_total in E
        end;
      try (apply IHa in H; [ exact H | | ]; inner_lengths fuel; lia);
      try (apply IHo in H; [ exact H | | ]; inner_lengths fuel; lia).
  - intros p H1 Hf H. cbn [json_parse_array] in H.
    repeat split_test H;
      apply IHal in H; [ exact H | inner_lengths fuel; lia
                       | exact H | inner_lengths fuel; lia ].
  - intros items p Hf H. cbn [json_array_loop] in H. cbv zeta in H.
    repeat split_test H.
    + apply IHal in H; [ exact H | ]. inner_lengths fuel.
      match goal with
      | |- context [length (json_skip_whitespace ?q)] =>
          pose proof (skip_whitespace_length q)
      end. lia.
    + match goal with
      | E : json_parse_value _ _ _ = PFuel |- _ =>
          apply IHv in E; [ exact E | lia ]
      end.
  - intros p H1 Hf H. cbn [json_parse_object] in H.
    repeat split_test H;
      apply IHol in H; [ exact H | inner_lengths fuel; lia
                       | exact H | inner_lengths fuel; lia ].
  - intros pairs p Hf H. cbn [json_object_loop] in H. cbv zeta in H.
    repeat split_test H.
    + apply IHol in H; [ exact H | ]. inner_lengths fuel.
      match goal with
      | |- context [length (json_skip_whitespace ?q)] =>
          pose proof (skip_whitespace_length q)
      end. lia.
    + match goal with
      | E : json_parse_value _ _ _ = PFuel |- _ =>
          apply IHv in E; [ exact E | inner_lengths fuel; lia ]
      end.
    + match goal with
      | E : json_parse_string _ _ = PFuel |- _ =>
          now apply parse_string_total in E
      end.
Qed.

Lemma no_equal_key (pairs : list (list byte * json_value))
  (k : list byte) :
  existsb (fun kv => streq (fst kv) k) pairs = false ->
  ~ In k (map fst pairs).
Proof.
  induction pairs as [|kv pairs IH]; cbn [existsb map In]; [ tauto | ].
  intros Hex. apply orb_false_iff in Hex. destruct Hex as [Hk Hex].
  intros [Heq | Hin].
  - rewrite Heq, streq_refl in Hk. discriminate.
  - now apply IH.
Qed.

Lemma object_of_pairs_distinct (pairs : list (list byte * json_value))
  (k : list byte) (val : json_value) :
  NoDup (map fst pairs) ->
  Forall (fun kv => keys_distinct (snd kv)) pairs ->
  existsb (fun kv => streq (fst kv) k) pairs = false ->
  keys_distinct val ->
  NoDup (map fst ((k, val) :: pairs)) /\
  Forall (fun kv => keys_distinct (snd kv)) ((k, val) :: pairs).
Proof.
  intros Hnd Hall Hex Hval. split.
  - cbn [map fst]. constructor; [ now apply no_equal_key | exact Hnd ].
  - constructor; assumption.
Qed.

Lemma keys_distinct_rev_object (pairs : list (list byte * json_value)) :
  NoDup (map fst pairs) ->
  Forall (fun kv => keys_distinct (snd kv)) pairs ->
  keys_distinct (JSON_OBJECT (rev pairs)).
Proof.
  intros Hnd Hall. constructor.
  - rewrite map_rev. now apply NoDup_rev.
  - now apply Forall_rev.
Qed.

Lemma parser_builds_distinct (fuel : nat) : builds_distinct total fuel.
Proof.
  induction fuel as [|fuel (IHv & IHa & IHal & IHo & IHol)];
    [ repeat split; intros; discriminate | ].
  repeat split.
  - intros p v r H. cbn [json_parse_value] in H. cbv zeta in H.
    repeat split_test H;
      try (injection H as <- <-; constructor);
      try (now apply IHa in H); try (now apply IHo in H).
  - intros p v r H. cbn [json_parse_array] in H.
    repeat split_test H;
      try (injection H as <- <-; constructor; constructor);
      try (now apply IHal in H).
  - intros items p v r Hall H. cbn [json_array_loop] in H. cbv zeta in H.
    repeat split_test H;
      match goal with
      | E : json_parse_value _ _ _ = POk _ _ |- _ => apply IHv in E
      end.
    + injection H as <- <-. constructor.
      match goal with
      | |- Forall _ (rev ?its ++ [?x]) =>
          change (rev its ++ [x]) with (rev (x :: its))
      end.
      apply Forall_rev. now constructor.
    + apply IHal in H; [ exact H | now constructor ].
  - intros p v r H. cbn [json_parse_object] in H.
    repeat split_test H;
      try (injection H as <- <-; constructor; constructor);
      try (apply IHol in H; [ exact H | constructor | constructor ]).
  - intros pairs p v r Hnd Hall H. cbn [json_object_loop] in H.
    cbv zeta in H.
    repeat split_test H;
      match goal with
      | E : json_parse_value _ _ _ = POk _ _,
        X : existsb _ pairs = false |- _ =>
          apply IHv in E;
          destruct (object_of_pairs_distinct pairs _ _ Hnd Hall X E)
            as [Hnd' Hall']
      end.
    + injection H as <- <-.
      match goal with
      | |- keys_distinct (JSON_OBJECT (rev ?ps ++ [?x])) =>
          change (rev ps ++ [x]) with (rev (x :: ps))
      end.
      now apply keys_distinct_rev_object.
    + now apply IHol in H.
Qed.

End ParserRecursion.

(** The budget of [json_parse] is never used up: the model gives a
    value or an error for every input. *)
Lemma json_parse_total (input : list byte) : json_parse input <> PFuel.
Proof.
  unfold json_parse, json_fuel.
  apply (proj1 (parser_never_out_of_fuel (length input) _)). lia.
Qed.

(** The reader fails on an object with two equal keys: what it returns
    has none. *)
Lemma json_parse_keys_distinct (input : list byte) (v : json_value)
  (r : list byte) :
  json_parse input = POk v r -> keys_distinct v.
Proof.
  unfold json_parse.
  apply (proj1 (parser_builds_distinct (length input) _)).
Qed.

(** ** The header validator: one tensor entry *)

Lemma size_t_of_double_truncation (d : spec_float) (v : Z) :
  size_t_of_double d = Some v -> truncation_of d v.
Proof.
  unfold size_t_of_double, truncation_of, SIZE_MAX.
  destruct d as [s|s| |s m e]; try discriminate.
  - intros [= <-]. lia.
  - assert (Hpow : e < 0 -> 0 < 2 ^ (- e)) by (intros; apply Z.pow_pos_nonneg; lia).
    assert (Hdiv : e < 0 ->
                   (Z.pos m / 2 ^ (- e)) * 2 ^ (- e) <= Z.pos m
                   < (Z.pos m / 2 ^ (- e) + 1) * 2 ^ (- e)).
    { intros He. specialize (Hpow He).
      pose proof (Z.div_mod (Z.pos m) (2 ^ (- e)) ltac:(lia)) as Hdm.
      pose proof (Z.mod_pos_bound (Z.pos m) (2 ^ (- e)) Hpow). nia. }
    assert (Hnn : 0 <= (if 0 <=? e then Z.pos m * 2 ^ e
                        else Z.pos m / 2 ^ (- e))).
    { destruct (Z.leb_spec 0 e).
      - apply Z.mul_nonneg_nonneg; [ lia | apply Z.pow_nonneg; lia ].
      - apply Z.div_pos; [ lia | apply Hpow; lia ]. }
    cbv zeta.
    remember (if 0 <=? e then Z.pos m * 2 ^ e else Z.pos m / 2 ^ (- e))
      as t eqn:Et.
    assert (Hgoal : if 0 <=? e then t = Z.pos m * 2 ^ e
                    else t * 2 ^ (- e) <= Z.pos m < (t + 1) * 2 ^ (- e)).
    { subst t. destruct (Z.leb_spec 0 e); [ reflexivity | ].
      apply Hdiv. lia. }
    clear Et Hdiv Hpow.
    destruct s.
    + destruct (t =? 0) eqn:E0; [ | discriminate ].
      apply Z.eqb_eq in E0. subst t.
      intros [= <-]. split; [ lia | split; [ reflexivity | exact Hgoal ] ].
    + destruct (t <=? 2 ^ 64 - 1) eqn:E1; [ | discriminate ].
      apply Z.leb_le in E1.
      intros [= <-]. split; [ lia | split; [ exact I | exact Hgoal ] ].
Qed.

Lemma cast_size_t_ok (d : spec_float) (v : Z) :
  cast_size_t d = Ok v -> size_t_of_double d = Some v.
Proof.
  unfold cast_size_t. destruct (size_t_of_double d); congruence.
Qed.

(** The shape loop: every element is a number, stored truncated, and
    the flag tells whether a stored dimension is 0. *)
Lemma parse_shape_ok (tname : list byte) (dims : list json_value) :
  forall (e0 : bool) (shp : list Z) (e : bool),
    parse_shape tname dims e0 = Ok (shp, e) ->
    Forall2 (fun j v => exists d, j = JSON_NUMBER d /\
                                  size_t_of_double d = Some v) dims shp /\
    e = e0 || existsb (Z.eqb 0) shp.
Proof.
  induction dims as [|j dims IH]; intros e0 shp e; cbn [parse_shape].
  - intros [= <- <-]. split; [ constructor | now rewrite orb_false_r ].
  - destruct j; try discriminate.
    destruct (cast_size_t number) as [dim| |] eqn:Ec; cbn [bind];
      try discriminate.
    destruct (parse_shape tname dims (e0 || (dim =? 0))) as [[shp' e']| |]
      eqn:Er; cbn [bind]; try discriminate.
    cbn [fst snd]. intros [= <- <-].
    destruct (IH _ _ _ Er) as [Hall He].
    split.
    + constructor; [ | exact Hall ].
      exists number. split; [ reflexivity | now apply cast_size_t_ok ].
    + rewrite He. cbn [existsb]. rewrite (Z.eqb_sym 0 dim).
      now rewrite orb_assoc.
Qed.

Lemma Forall2_length_eq {A B : Type} (R : A -> B -> Prop)
  (l : list A) (l' : list B) :
  Forall2 R l l' -> length l = length l'.
Proof. induction 1; cbn [length]; congruence. Qed.

(** What a successful [parse_tensor] has read. *)
Lemma parse_tensor_ok (tname : list byte) (obj : json_value)
  (t : csafetensors_tensor_t) :
  parse_tensor tname obj = Ok t ->
  exists (s : list byte) (dims : list json_value) (emp : bool),
    json_object_get obj (lit "dtype") = Some (JSON_STRING s) /\
    parse_dtype_string s = Some (dtype t) /\
    json_object_get obj (lit "shape") = Some (JSON_ARRAY dims) /\
    (length dims <= 8)%nat /\
    parse_shape tname dims false = Ok (shape t, emp) /\
    name t = firstn 4095 tname /\
    if emp then
      json_object_get obj (lit "data_offsets") = None /\
      data_offset_begin t = 0 /\ data_offset_end t = 0
    else
      exists bn en : spec_float,
        json_object_get obj (lit "data_offsets")
        = Some (JSON_ARRAY [JSON_NUMBER bn; JSON_NUMBER en]) /\
        size_t_of_double bn = Some (data_offset_begin t) /\
        size_t_of_double en = Some (data_offset_end t).
Proof.
  unfold parse_tensor.
  destruct obj as [ | | | | |pairs]; try discriminate.
  destruct (json_object_get (JSON_OBJECT pairs) (lit "dtype"))
    as [[ | | |s| | ]|]; try discriminate.
  destruct (parse_dtype_string s) as [dt|] eqn:Edt; [ | discriminate ].
  destruct (json_object_get (JSON_OBJECT pairs) (lit "shape"))
    as [[ | | | |dims| ]|]; try discriminate.
  destruct (CSAFETENSORS_MAX_DIM <? Z.of_nat (length dims)) eqn:Edim;
    [ discriminate | ].
  apply Z.ltb_ge in Edim. unfold CSAFETENSORS_MAX_DIM in Edim.
  destruct (parse_shape tname dims false) as [[shp emp]| |] eqn:Esh;
    cbn [bind]; try discriminate.
  destruct emp.
  - destruct (json_object_get (JSON_OBJECT pairs) (lit "data_offsets"))
      as [ov|] eqn:Eo; [ discriminate | ].
    intros [= <-]. exists s, dims, true. cbn.
    repeat split; (assumption || lia || reflexivity).
  - destruct (json_object_get (JSON_OBJECT pairs) (lit "data_offsets"))
      as [[ | | | |[|b [|e [|x rest]]]| ]|] eqn:Eo; try discriminate.
    destruct b as [ | |bn| | | ]; try discriminate.
    destruct e as [ | |en| | | ]; try discriminate.
    destruct (cast_size_t bn) as [bo| |] eqn:Eb; cbn [bind];
      try discriminate.
    destruct (cast_size_t en) as [eo| |] eqn:Ee; cbn [bind];
      try discriminate.
    intros [= <-]. exists s, dims, false. cbn.
    repeat split; try (assumption || lia || reflexivity).
    exists bn, en. repeat split; now apply cast_size_t_ok.
Qed.

(** C5.  Take a tensor entry with a known dtype and a shape of at most
    eight numbers that convert to the dimensions [shp].  If a
    dimension is 0, the entry is refused when it has a "data_offsets"
    field and accepted with offsets [(0, 0)] and byte size 0 when it
    has none.  If no dimension is 0, the entry is refused unless
    "data_offsets" is an array of exactly two numbers, and accepted
    with the converted offsets when it is. *)
Theorem data_offsets_match_emptiness (tname : list byte)
  (pairs : list (list byte * json_value)) (s : list byte)
  (dt : csafetensors_dtype_t) (dims : list json_value)
  (shp : list Z) (emp : bool)
  (Hdtype : json_object_get (JSON_OBJECT pairs) (lit "dtype")
            = Some (JSON_STRING s))
  (Hdt : parse_dtype_string s = Some dt)
  (Hshape : json_object_get (JSON_OBJECT pairs) (lit "shape")
            = Some (JSON_ARRAY dims))
  (Hdims : (length dims <= 8)%nat)
  (Hshp : parse_shape tname dims false = Ok (shp, emp)) :
  let obj := JSON_OBJECT pairs in
  let offsets := json_object_get obj (lit "data_offsets") in
  emp = existsb (Z.eqb 0) shp /\
  (emp = true ->
   (offsets <> None ->
    parse_tensor tname obj = Error (Empty_with_data_offsets tname)) /\
   (offsets = None ->
    exists t : csafetensors_tensor_t,
      parse_tensor tname obj = Ok t /\
      shape t = shp /\ dtype t = dt /\
      data_offset_begin t = 0 /\ data_offset_end t = 0 /\
      csafetensors_dtype_size (dtype t) * csafetensors_shape_size t = 0))
  /\
  (emp = false ->
   ((forall bn en : spec_float,
        offsets <> Some (JSON_ARRAY [JSON_NUMBER bn; JSON_NUMBER en])) ->
    parse_tensor tname obj = Error (Missing_data_offsets tname) \/
    parse_tensor tname obj = Error (Invalid_data_offsets tname)) /\
   (forall (bn en : spec_float) (bo eo : Z),
       offsets = Some (JSON_ARRAY [JSON_NUMBER bn; JSON_NUMBER en]) ->
       size_t_of_double bn = Some bo ->
       size_t_of_double en = Some eo ->
       exists t : csafetensors_tensor_t,
         parse_tensor tname obj = Ok t /\
         shape t = shp /\ dtype t = dt /\
         data_offset_begin t = bo /\ data_offset_end t = eo)).
Proof.
  cbv zeta.
  assert (Hempty : emp = existsb (Z.eqb 0) shp).
  { now destruct (parse_shape_ok _ _ _ _ _ Hshp) as [_ ->]. }
  assert (Hlen : (CSAFETENSORS_MAX_DIM <? Z.of_nat (length dims)) = false).
  { apply Z.ltb_ge. unfold CSAFETENSORS_MAX_DIM. lia. }
  split; [ exact Hempty | ].
  unfold parse_tensor. rewrite Hdtype, Hdt, Hshape, Hlen, Hshp.
  cbn [bind].
  split; intros ->.
  - split.
    + destruct (json_object_get (JSON_OBJECT pairs) (lit "data_offsets"));
        [ reflexivity | congruence ].
    + intros ->. eexists. split; [ reflexivity | ].
      cbn [shape dtype data_offset_begin data_offset_end].
      repeat split.
      rewrite shape_size_spec. unfold is_empty_tensor. cbn [shape].
      rewrite <- Hempty. lia.
  - split.
    + intros Hnot.
      destruct (json_object_get (JSON_OBJECT pairs) (lit "data_offsets"))
        as [[ | | | |[|b [|e [|x rest]]]| ]|]; auto.
      destruct b as [ | |bn| | | ]; auto.
      destruct e as [ | |en| | | ]; auto.
      now specialize (Hnot bn en).
    + intros bn en bo eo -> Hb He.
      unfold cast_size_t. rewrite Hb, He. cbn [bind].
      eexists. split; [ reflexivity | ]. repeat split.
Qed.

(** S4: the entry [{"dtype":"F32","shape":[0,10]}]. *)
Lemma data_offsets_match_emptiness_witness :
  exists t : csafetensors_tensor_t,
    parse_tensor (lit "e") (JSON_OBJECT (pairs_of empty_entry)) = Ok t /\
    shape t = [0; 10] /\ dtype t = CSAFETENSORS_DTYPE_FLOAT32 /\
    data_offset_begin t = 0 /\ data_offset_end t = 0 /\
    csafetensors_dtype_size (dtype t) * csafetensors_shape_size t = 0.
Proof.
  unshelve epose proof
    (data_offsets_match_emptiness (lit "e") (pairs_of empty_entry)
       (lit "F32") CSAFETENSORS_DTYPE_FLOAT32
       [JSON_NUMBER (S754_zero false);
        JSON_NUMBER (S754_finite false 5629499534213120 (-49))]
       [0; 10] true _ _ _ _ _) as H.
  1-3: vm_compute; reflexivity.
  { cbn [length]. lia. }
  { vm_compute. reflexivity. }
  destruct H as (_ & Hemp & _).
  destruct (Hemp eq_refl) as [_ Hnone].
  apply Hnone. vm_compute. reflexivity.
Defined.

(** C3, as stated, fails.  The header of [fractional_file] gives the
    shape [[2.5]] and the offsets [[0.5, 2.7]] to its first tensor and
    the shape [[-0.5]] to its second; none of these numbers is an
    integer, one is negative, and the load succeeds with the shape
    [[2]], the offsets [(0, 2)] and the shape [[0]]. *)
Lemma fractional_numbers_counterexample :
  exists (d1 d2 d3 d4 : spec_float) (st : csafetensors_t),
    json_object_get fractional_entry (lit "shape")
    = Some (JSON_ARRAY [JSON_NUMBER d1]) /\
    json_object_get fractional_entry (lit "data_offsets")
    = Some (JSON_ARRAY [JSON_NUMBER d2; JSON_NUMBER d3]) /\
    json_object_get negative_entry (lit "shape")
    = Some (JSON_ARRAY [JSON_NUMBER d4]) /\
    is_exact_index d1 = false /\ is_exact_index d2 = false /\
    is_exact_index d3 = false /\ is_exact_index d4 = false /\
    SFltb d4 (S754_zero false) = true /\
    json_object_get
      (parsed (firstn 93 (skipn 8 fractional_file))) (lit "a")
    = Some fractional_entry /\
    json_object_get
      (parsed (firstn 93 (skipn 8 fractional_file))) (lit "b")
    = Some negative_entry /\
    csafetensors_load_from_memory buf_addr fractional_file block_addr
    = Loaded st /\
    map shape (tensors st) = [[2]; [0]] /\
    map data_offset_begin (tensors st) = [0; 0] /\
    map data_offset_end (tensors st) = [2; 0].
Proof.
  do 5 eexists.
  repeat split; vm_compute; reflexivity.
Qed.

(** ** The header validator: the directory *)

Lemma count_entries_tensors (pairs : list (list byte * json_value)) :
  fst (count_entries pairs) = length (filter is_tensor_entry pairs).
Proof.
  unfold count_entries.
  assert (Hgen : forall c : nat * nat,
             fst (fold_left
                    (fun (c : nat * nat) kv =>
                       if is_metadata_key (fst kv) then
                         match snd kv with
                         | JSON_OBJECT m => (fst c, length m)
                         | _ => c
                         end
                       else (S (fst c), snd c)) pairs c)
             = (fst c + length (filter is_tensor_entry pairs))%nat).
  { induction pairs as [|kv pairs IH]; intros c; cbn [fold_left filter].
    - cbn [length]. lia.
    - rewrite IH. unfold is_tensor_entry at 2.
      destruct (is_metadata_key (fst kv)); cbn [negb length].
      + destruct (snd kv); cbn [fst]; lia.
      + cbn [fst]. lia. }
  now rewrite Hgen.
Qed.

Lemma filter_tensor_entry_cons (k : list byte) (val : json_value)
  (pairs : list (list byte * json_value)) :
  filter is_tensor_entry ((k, val) :: pairs)
  = if is_metadata_key k then filter is_tensor_entry pairs
    else (k, val) :: filter is_tensor_entry pairs.
Proof.
  cbn [filter]. unfold is_tensor_entry at 1. cbn [fst].
  now destruct (is_metadata_key k).
Qed.

(** The tensors of the directory are the results of [parse_tensor] on
    the tensor entries, in the order of the header. *)
Lemma parse_entries_tensors (pairs : list (list byte * json_value)) :
  forall (nt nm : nat) tens meta tens' meta',
    parse_entries nt nm pairs tens meta = Ok (tens', meta') ->
    (length tens + length (filter is_tensor_entry pairs) <= nt)%nat ->
    exists new,
      tens' = tens ++ new /\
      Forall2 (fun kv t => parse_tensor (fst kv) (snd kv) = Ok t)
        (filter is_tensor_entry pairs) new.
Proof.
  induction pairs as [|[k val] pairs IH]; intros nt nm tens meta tens' meta';
    cbn [parse_entries].
  - intros [= <- <-] _. exists []. rewrite app_nil_r. split; constructor.
  - rewrite filter_tensor_entry_cons.
    destruct (is_metadata_key k).
    + destruct val; intros Hp Hn; eapply IH; eassumption.
    + cbn [length]. intros Hp Hn.
      destruct (Nat.leb_spec nt (length tens)); [ lia | ].
      destruct (parse_tensor k val) as [t| |] eqn:Et; cbn [bind] in Hp;
        try discriminate.
      apply IH in Hp; [ | rewrite length_app; cbn [length]; lia ].
      destruct Hp as (new & -> & Hall).
      exists (t :: new). split.
      * now rewrite <- app_assoc.
      * constructor; [ exact Et | exact Hall ].
Qed.

(** The metadata loop appends the entries of a prefix of the pairs. *)
Lemma fill_metadata_spec (nm : nat)
  (mpairs : list (list byte * json_value)) :
  forall meta,
  exists n : nat,
    fill_metadata nm mpairs meta
    = meta ++ metadata_of_pairs (firstn n mpairs).
Proof.
  induction mpairs as [|[mk mv] mpairs IH]; intros meta;
    cbn [fill_metadata].
  - exists 0%nat. cbn. now rewrite app_nil_r.
  - destruct (length meta <? nm)%nat.
    + destruct mv;
        try (destruct (IH meta) as [n Hn]; exists (S n);
             rewrite Hn; reflexivity).
      destruct (IH (meta ++ [{| key := strncpy mk (Z.to_nat (CSAFETENSORS_MAX_STRING_LEN - 1));
                                value := strncpy str (Z.to_nat (CSAFETENSORS_MAX_STRING_LEN - 1)) |}]))
        as [n Hn].
      exists (S n). rewrite Hn, <- app_assoc. reflexivity.
    + exists 0%nat. cbn. now rewrite app_nil_r.
Qed.

Lemma parse_entries_no_metadata (pairs : list (list byte * json_value)) :
  forall (nt nm : nat) tens meta tens' meta',
    Forall (fun kv => is_metadata_key (fst kv) = false) pairs ->
    parse_entries nt nm pairs tens meta = Ok (tens', meta') ->
    meta' = meta.
Proof.
  induction pairs as [|[k val] pairs IH]; intros nt nm tens meta tens' meta'
    Hall; cbn [parse_entries].
  - now intros [= _ <-].
  - inversion Hall as [|? ? Hk Hrest]; subst. cbn [fst] in Hk. rewrite Hk.
    destruct (nt <=? length tens)%nat; [ now apply IH | ].
    destruct (parse_tensor k val); cbn [bind]; try discriminate.
    now apply IH.
Qed.

Lemma is_metadata_key_eq (k : list byte) :
  is_metadata_key k = true -> k = lit "__metadata__".
Proof. unfold is_metadata_key. apply streq_eq. Qed.

Lemma no_other_metadata_key (k : list byte)
  (ks : list (list byte * json_value)) :
  is_metadata_key k = true ->
  ~ In k (map fst ks) ->
  Forall (fun kv => is_metadata_key (fst kv) = false) ks.
Proof.
  intros Hk Hnin. apply Forall_forall. intros kv Hin.
  destruct (is_metadata_key (fst kv)) eqn:E; [ | reflexivity ].
  exfalso. apply Hnin.
  rewrite (is_metadata_key_eq _ Hk), <- (is_metadata_key_eq _ E).
  now apply in_map.
Qed.

(** With distinct keys, the metadata come from one object at most. *)
Lemma parse_entries_metadata (pairs : list (list byte * json_value)) :
  forall (nt nm : nat) tens meta tens' meta',
    NoDup (map fst pairs) ->
    parse_entries nt nm pairs tens meta = Ok (tens', meta') ->
    meta' = meta \/
    exists mk mpairs n,
      In (mk, JSON_OBJECT mpairs) pairs /\
      meta' = meta ++ metadata_of_pairs (firstn n mpairs).
Proof.
  induction pairs as [|[k val] pairs IH]; intros nt nm tens meta tens' meta'
    Hnd; cbn [parse_entries].
  - intros [= _ <-]. now left.
  - cbn [map fst] in Hnd. inversion Hnd as [|? ? Hnin Hnd']; subst.
    destruct (is_metadata_key k) eqn:Ek.
    + pose proof (no_other_metadata_key k pairs Ek Hnin) as Hnone.
      destruct val;
        try (intros Hp; left;
             eapply parse_entries_no_metadata; eassumption).
      intros Hp.
      apply (parse_entries_no_metadata _ _ _ _ _ _ _ Hnone) in Hp.
      destruct (fill_metadata_spec nm pairs0 meta) as [n Hn].
      right. exists k, pairs0, n. split; [ now left | congruence ].
    + assert (Hlift : forall t1 m1,
                 parse_entries nt nm pairs t1 meta = Ok (tens', m1) ->
                 m1 = meta \/
                 exists mk mpairs n,
                   In (mk, JSON_OBJECT mpairs) ((k, val) :: pairs) /\
                   m1 = meta ++ metadata_of_pairs (firstn n mpairs)).
      { intros t1 m1 Hp. destruct (IH _ _ _ _ _ _ Hnd' Hp)
          as [-> | (mk & mp & n & Hin & ->)]; [ now left | ].
        right. exists mk, mp, n. split; [ now right | reflexivity ]. }
      destruct (nt <=? length tens)%nat; [ apply Hlift | ].
      destruct (parse_tensor k val); cbn [bind]; try discriminate.
      apply Hlift.
Qed.

(** What a successful [parse_safetensors_header] has built. *)
Lemma parse_header_ok (bytes : list byte) (h : header_t) :
  parse_safetensors_header bytes = Ok h ->
  exists pairs rest,
    json_parse (header_json bytes) = POk (JSON_OBJECT pairs) rest /\
    Forall2 (fun kv t => parse_tensor (fst kv) (snd kv) = Ok t)
      (filter is_tensor_entry pairs) (h_tensors h) /\
    (h_metadata h = [] \/
     exists mk mpairs n,
       In (mk, JSON_OBJECT mpairs) pairs /\
       h_metadata h = metadata_of_pairs (firstn n mpairs)).
Proof.
  unfold parse_safetensors_header. fold (header_json bytes).
  destruct (Z.of_nat (length bytes) <? 16); [ discriminate | ].
  destruct (read_u64_le bytes <? 2); [ discriminate | ].
  destruct (CSAFETENSORS_MAX_JSON_SIZE <? read_u64_le bytes);
    [ discriminate | ].
  destruct (Z.of_nat (length bytes) <? u64 (8 + read_u64_le bytes));
    [ discriminate | ].
  destruct (json_parse (header_json bytes)) as [root rest| |] eqn:Ej;
    try discriminate.
  destruct root as [ | | | | |pairs]; try discriminate.
  pose proof (count_entries_tensors pairs) as Hcount.
  destruct (count_entries pairs) as [nt nm]. cbn [fst] in Hcount.
  destruct (parse_entries nt nm pairs [] []) as [[tens meta]| |] eqn:Ep;
    cbn [bind]; try discriminate.
  intros [= <-]. cbn [h_tensors h_metadata fst snd].
  exists pairs, rest. split; [ reflexivity | ].
  pose proof (json_parse_keys_distinct _ _ _ Ej) as Hkd.
  inversion Hkd as [ | | | | |? Hnd Hall]; subst.
  split.
  - destruct (parse_entries_tensors pairs _ _ _ _ _ _ Ep)
      as (new & -> & Hnew); [ cbn [length]; lia | exact Hnew ].
  - destruct (parse_entries_metadata pairs _ _ _ _ _ _ Hnd Ep)
      as [-> | (mk & mp & n & Hin & ->)]; [ now left | ].
    right. exists mk, mp, n. split; [ exact Hin | reflexivity ].
Qed.

(** The directory of a loaded object is the one of its header. *)
Lemma loaded_directory (bytes : list byte) (st : csafetensors_t) :
  loaded_from bytes st ->
  exists h : header_t,
    parse_safetensors_header bytes = Ok h /\
    tensors st = h_tensors h /\ metadata st = h_metadata h.
Proof.
  intros [(data & block & Hl) | (data & Hl)].
  - unfold csafetensors_load_from_memory in Hl.
    destruct (_ || _); [ discriminate | ].
    destruct (parse_safetensors_header bytes) as [h| |]; try discriminate.
    destruct (_ && _); [ discriminate | ].
    apply Loaded_inj in Hl. subst st. exists h. repeat split.
  - unfold csafetensors_mmap_from_memory in Hl.
    destruct (_ || _); [ discriminate | ].
    destruct (parse_safetensors_header bytes) as [h| |]; try discriminate.
    apply Loaded_inj in Hl. subst st. exists h. repeat split.
Qed.

(** Every tensor of a loaded object was accepted by [parse_tensor]. *)
Lemma loaded_tensor_parsed (bytes : list byte) (st : csafetensors_t)
  (t : csafetensors_tensor_t) :
  loaded_from bytes st -> In t (tensors st) ->
  exists tname obj, parse_tensor tname obj = Ok t.
Proof.
  intros Hl Hin.
  destruct (loaded_directory _ _ Hl) as (h & Hh & Ht & _).
  destruct (parse_header_ok _ _ Hh) as (pairs & rest & _ & Hall & _).
  rewrite Ht in Hin. clear - Hall Hin.
  induction Hall as [|kv t' kvs ts Hkv _ IH]; [ contradiction | ].
  destruct Hin as [<- | Hin]; [ eauto | now apply IH ].
Qed.

(** A failing tensor entry makes the whole header fail. *)
Lemma entry_error_fails_header (bytes : list byte)
  (pairs : list (list byte * json_value)) (rest k : list byte)
  (val : json_value) (e : error_msg) :
  json_parse (header_json bytes) = POk (JSON_OBJECT pairs) rest ->
  In (k, val) pairs -> is_metadata_key k = false ->
  parse_tensor k val = Error e ->
  forall h, parse_safetensors_header bytes <> Ok h.
Proof.
  intros Hj Hin Hk He h Hh.
  destruct (parse_header_ok _ _ Hh) as (pairs' & rest' & Hj' & Hall & _).
  assert (pairs' = pairs) by congruence. subst pairs'.
  assert (Hf : In (k, val) (filter is_tensor_entry pairs)).
  { apply filter_In. split; [ exact Hin | ].
    unfold is_tensor_entry. cbn [fst]. now rewrite Hk. }
  clear - Hall Hf He.
  induction Hall as [|kv t kvs ts Hkv _ IH]; [ contradiction | ].
  destruct Hf as [-> | Hf]; [ cbn [fst snd] in Hkv; congruence | ].
  now apply IH.
Qed.

(** ** Names and keys in fixed-size buffers *)

Lemma firstn_short {A : Type} (n : nat) (l : list A) :
  (length (firstn n l) < n)%nat -> firstn n l = l.
Proof.
  intros Hlt. apply firstn_all2.
  rewrite length_firstn in Hlt. lia.
Qed.


(** Dropping pairs keeps the keys distinct. *)
Lemma keys_of_filter_distinct (keep : list byte * json_value -> bool) :
  forall kvs : list (list byte * json_value),
    NoDup (map fst kvs) -> NoDup (map fst (filter keep kvs)).
Proof.
  intros kvs. induction kvs as [|kv kvs IH]; cbn [map filter]; [ trivial | ].
  intros Hnd. inversion Hnd as [|? ? Hnin Hnd']; subst.
  destruct (keep kv); cbn [map]; [ | now apply IH ].
  constructor; [ | now apply IH ].
  intros Hin. apply Hnin.
  apply in_map_iff in Hin. destruct Hin as (y & Hy & Hin).
  apply filter_In in Hin. rewrite <- Hy. apply in_map. tauto.
Qed.


(** The stored names are the names of the tensor entries, cut. *)
Lemma stored_names (pairs : list (list byte * json_value))
  (ts : list csafetensors_tensor_t) :
  Forall2 (fun kv t => parse_tensor (fst kv) (snd kv) = Ok t) pairs ts ->
  map name ts = map (firstn stored_len) (map fst pairs).
Proof.
  induction 1 as [|kv t kvs ts Hkv _ IH]; cbn [map]; [ reflexivity | ].
  destruct (parse_tensor_ok _ _ _ Hkv)
    as (s & dims & emp & _ & _ & _ & _ & _ & Hname & _).
  now rewrite IH, Hname.
Qed.


Lemma stored_values (mpairs : list (list byte * json_value)) :
  Forall (fun m => exists k s,
              In (k, JSON_STRING s) mpairs /\
              key m = firstn stored_len k /\
              value m = firstn stored_len s)
    (metadata_of_pairs mpairs).
Proof.
  induction mpairs as [|[k v] mpairs IH]; [ constructor | ].
  unfold metadata_of_pairs in *. cbn [flat_map snd fst].
  assert (Hrest : Forall (fun m => exists k0 s,
                              In (k0, JSON_STRING s) ((k, v) :: mpairs) /\
                              key m = firstn stored_len k0 /\
                              value m = firstn stored_len s)
                    (flat_map
                       (fun kv =>
                          match snd kv with
                          | JSON_STRING s =>
                              [{| key := firstn stored_len (fst kv);
                                  value := firstn stored_len s |}]
                          | _ => []
                          end) mpairs)).
  { eapply Forall_impl; [ | exact IH ].
    intros m (k0 & s & Hin & Hk & Hv). exists k0, s.
    split; [ now right | now split ]. }
  destruct v; cbn [app]; try exact Hrest.
  constructor; [ | exact Hrest ].
  exists k, str. split; [ now left | now split ].
Qed.

Lemma metadata_object_keys (pairs : list (list byte * json_value))
  (mk : list byte) (mpairs : list (list byte * json_value)) :
  keys_distinct (JSON_OBJECT pairs) ->
  In (mk, JSON_OBJECT mpairs) pairs -> NoDup (map fst mpairs).
Proof.
  intros Hkd Hin.
  inversion Hkd as [ | | | | |? _ Hall]; subst.
  rewrite Forall_forall in Hall. specialize (Hall _ Hin).
  cbn [snd] in Hall. now inversion Hall.
Qed.


Lemma parsed_object (text : list byte)
  (pairs : list (list byte * json_value)) (rest : list byte) :
  json_parse text = POk (JSON_OBJECT pairs) rest ->
  pairs_of (parsed text) = pairs.
Proof. unfold parsed. now intros ->. Qed.

Lemma Forall2_Forall_r {A B : Type} (R : A -> B -> Prop)
  (l : list A) (l' : list B) :
  Forall2 R l l' -> Forall (fun b => exists a, In a l /\ R a b) l'.
Proof.
  induction 1 as [|a b l l' Hab _ IH]; constructor.
  - exists a. split; [ now left | exact Hab ].
  - eapply Forall_impl; [ | exact IH ].
    intros b' (a' & Hin & Hr). exists a'. split; [ now right | exact Hr ].
Qed.

Lemma In_firstn {A : Type} (n : nat) (l : list A) (x : A) :
  In x (firstn n l) -> In x l.
Proof.
  intros Hin. rewrite <- (firstn_skipn n l). apply in_or_app. now left.
Qed.

(** ** Validation of the offsets *)

Lemma truncation_range (d : spec_float) (v : Z) :
  size_t_of_double d = Some v -> 0 <= v < 2 ^ 64.
Proof. intros H. now destruct (size_t_of_double_truncation _ _ H). Qed.

(** The descriptors that [parse_tensor] builds. *)
Lemma parsed_tensor_ranges (tname : list byte) (obj : json_value)
  (t : csafetensors_tensor_t) :
  parse_tensor tname obj = Ok t ->
  Forall (fun d => 0 <= d < 2 ^ 64) (shape t) /\
  0 <= data_offset_begin t < 2 ^ 64 /\
  0 <= data_offset_end t < 2 ^ 64 /\
  (is_empty_tensor t = true ->
   data_offset_begin t = 0 /\ data_offset_end t = 0).
Proof.
  intros Hok.
  destruct (parse_tensor_ok _ _ _ Hok)
    as (s & dims & emp & _ & _ & _ & _ & Hshp & _ & Hoff).
  destruct (parse_shape_ok _ _ _ _ _ Hshp) as [Hall Hemp].
  cbn [orb] in Hemp. unfold is_empty_tensor. rewrite <- Hemp.
  split.
  { clear - Hall. induction Hall as [|j v js vs (d & _ & Hd) _ IH];
      constructor; [ now apply truncation_range in Hd | exact IH ]. }
  destruct emp.
  - destruct Hoff as (_ & -> & ->). repeat split; lia.
  - destruct Hoff as (bn & en & _ & Hb & He).
    apply truncation_range in Hb, He.
    repeat split; try lia; discriminate.
Qed.

Lemma element_count_positive (dims : list Z) :
  Forall (fun d => 0 <= d < 2 ^ 64) dims ->
  existsb (Z.eqb 0) dims = false ->
  1 <= fold_right Z.mul 1 dims.
Proof.
  induction 1 as [|d dims Hd _ IH]; cbn [existsb fold_right]; [ lia | ].
  intros Hz. apply orb_false_iff in Hz. destruct Hz as [Hd0 Hz].
  apply Z.eqb_neq in Hd0. specialize (IH Hz). nia.
Qed.

Lemma dtype_size_positive (dt : csafetensors_dtype_t) :
  1 <= csafetensors_dtype_size dt <= 8.
Proof. destruct dt; cbn; lia. Qed.

(** Without overflow the check of one descriptor is invariant 6. *)
Lemma validate_tensor_exact (len : Z) (t : csafetensors_tensor_t) :
  Forall (fun d => 0 <= d < 2 ^ 64) (shape t) ->
  0 <= data_offset_begin t < 2 ^ 64 ->
  0 <= data_offset_end t < 2 ^ 64 ->
  (is_empty_tensor t = true ->
   data_offset_begin t = 0 /\ data_offset_end t = 0) ->
  byte_size t < 2 ^ 64 ->
  validate_tensor len t = None <-> offsets_valid len t.
Proof.
  intros Hdims Hb He Hempty Hsize.
  unfold validate_tensor, offsets_valid. cbv zeta.
  rewrite shape_size_spec.
  destruct (is_empty_tensor t) eqn:Eemp.
  - destruct (Hempty eq_refl) as [-> ->].
    rewrite Z.mul_0_r. cbn. split; [ discriminate | reflexivity ].
  - pose proof (element_count_positive _ Hdims Eemp) as Hcount.
    fold (element_count t) in Hcount.
    pose proof (dtype_size_positive (dtype t)) as Hdt.
    unfold byte_size in *.
    assert (Hc : element_count t < 2 ^ 64) by nia.
    assert (Hss : match shape t with
                  | [] => 1
                  | _ :: _ => u64 (element_count t)
                  end = element_count t).
    { unfold element_count in *. destruct (shape t); [ reflexivity | ].
      unfold u64. apply Z.mod_small. lia. }
    rewrite Hss.
    assert (Hts : u64 (csafetensors_dtype_size (dtype t) * element_count t)
                  = element_count t * csafetensors_dtype_size (dtype t)).
    { unfold u64. rewrite Z.mod_small by nia. apply Z.mul_comm. }
    rewrite Hts.
    destruct (Z.ltb_spec (data_offset_end t) (data_offset_begin t)).
    { split; [ discriminate | intros Hv; specialize (Hv eq_refl); lia ]. }
    destruct (Z.eqb_spec
                (element_count t * csafetensors_dtype_size (dtype t)) 0);
      [ nia | ].
    destruct (Z.ltb_spec len (data_offset_end t)).
    { split; [ discriminate | intros Hv; specialize (Hv eq_refl); lia ]. }
    unfold u64.
    rewrite (Z.mod_small (data_offset_end t - data_offset_begin t)) by lia.
    destruct (Z.eqb_spec
                (element_count t * csafetensors_dtype_size (dtype t))
                (data_offset_end t - data_offset_begin t)); cbn [negb].
    + split; [ intros _ _; lia | reflexivity ].
    + split; [ discriminate | intros Hv; specialize (Hv eq_refl); lia ].
Qed.

Lemma validate_loop_none (len : Z) (ts : list csafetensors_tensor_t) :
  validate_loop len ts = None <->
  Forall (fun t => validate_tensor len t = None) ts.
Proof.
  induction ts as [|t ts IH]; cbn [validate_loop].
  - split; [ constructor | reflexivity ].
  - destruct (validate_tensor len t) eqn:Et.
    + split; [ discriminate | ].
      intros Hall. inversion Hall; congruence.
    + rewrite IH. split; [ now constructor | now inversion 1 ].
Qed.


(** For a loaded object in which no byte size reaches [2^64],
    [csafetensors_validate] returns [true] exactly when every
    descriptor that is not empty satisfies invariant 6. *)
Lemma validate_exact_without_overflow (bytes : list byte)
  (st : csafetensors_t) :
  loaded_from bytes st ->
  Forall (fun t => byte_size t < 2 ^ 64) (tensors st) ->
  csafetensors_validate st = true <->
  Forall (offsets_valid (payload_size st)) (tensors st).
Proof.
  intros Hload Hsmall.
  unfold csafetensors_validate, csafetensors_validate_msg.
  assert (Hiff : validate_loop (payload_size st) (tensors st) = None <->
                 Forall (offsets_valid (payload_size st)) (tensors st)).
  { rewrite validate_loop_none. rewrite !Forall_forall.
    rewrite Forall_forall in Hsmall.
    split; intros Hall t Hin.
    - destruct (loaded_tensor_parsed _ _ _ Hload Hin) as (tn & obj & Hok).
      destruct (parsed_tensor_ranges _ _ _ Hok) as (Hd & Hb & He & Hemp).
      apply validate_tensor_exact; auto.
    - destruct (loaded_tensor_parsed _ _ _ Hload Hin) as (tn & obj & Hok).
      destruct (parsed_tensor_ranges _ _ _ Hok) as (Hd & Hb & He & Hemp).
      apply validate_tensor_exact; auto. }
  destruct (validate_loop (payload_size st) (tensors st)).
  - split; [ discriminate | ]. intros Hall. apply Hiff in Hall. discriminate.
  - split; [ intros _; now apply Hiff | reflexivity ].
Qed.

(** S5 and B5: a payload shorter than a range: the load succeeds and
    validation reports it. *)
Lemma short_payload_reported :
  exists st : csafetensors_t,
    csafetensors_load_from_memory buf_addr short_payload_file block_addr
    = Loaded st /\
    payload_size st = 4 /\
    map data_offset_end (tensors st) = [8] /\
    csafetensors_validate_msg st = Some (Offset_exceeds_buffer (lit "t")).
Proof.
  eexists. split; [ vm_compute; reflexivity | ].
  split; [ reflexivity | split; reflexivity ].
Qed.

(** * Further properties of the code *)

(** ** The bfloat16 codec *)

Lemma land_low16 (a : Z) : Z.land a 0xffff = a mod 2 ^ 16.
Proof. change 0xffff with (Z.ones 16). apply Z.land_ones. lia. Qed.

Lemma land_low1 (a : Z) : Z.land a 1 = a mod 2.
Proof. change 1 with (Z.ones 1) at 1. apply Z.land_ones. lia. Qed.

(** X1.  Widening a bfloat16 to a float and narrowing it again gives the
    16 bits back, for every pattern: infinities and NaNs included. *)
Theorem bf16_f32_bf16_identity (x : Z) (Hx : 0 <= x < 2 ^ 16) :
  csafetensors_f32_to_bf16 (csafetensors_bf16_to_f32 x) = x.
Proof.
  assert (Hu : csafetensors_bf16_to_f32 x = x * 2 ^ 16).
  { unfold csafetensors_bf16_to_f32, u32.
    rewrite Z.shiftl_mul_pow2 by lia. apply Z.mod_small. lia. }
  assert (Hhi : Z.shiftr (csafetensors_bf16_to_f32 x) 16 = x).
  { rewrite Hu, Z.shiftr_div_pow2 by lia. apply Z.div_mul. lia. }
  unfold csafetensors_f32_to_bf16. cbv zeta.
  rewrite Hhi.
  destruct (Z.land (Z.lxor (csafetensors_bf16_to_f32 x) 0xffffffff)
              0x7f800000 =? 0).
  - rewrite land_low16, Hu, Z.mod_mul by lia.
    cbn [Z.eqb negb]. rewrite <- Hu. exact Hhi.
  - rewrite land_low1, Hu.
    pose proof (Z.mod_pos_bound x 2 ltac:(lia)) as Hb.
    unfold u32. rewrite Z.mod_small by lia.
    rewrite Z.shiftr_div_pow2 by lia.
    symmetry. apply Z.div_unique with (r := 0x7fff + x mod 2); lia.
Qed.

Lemma bf16_f32_bf16_identity_witness :
  csafetensors_f32_to_bf16 (csafetensors_bf16_to_f32 0x7fc1) = 0x7fc1.
Proof. apply bf16_f32_bf16_identity. lia. Defined.

(** ** Dtype names *)

(** X2.  The name of every dtype is read back as that dtype, and a
    string that [parse_dtype_string] accepts is the name of the dtype
    it gives. *)
Theorem dtype_name_roundtrip :
  (forall dt : csafetensors_dtype_t,
      parse_dtype_string (csafetensors_dtype_name dt) = Some dt) /\
  (forall (s : list byte) (dt : csafetensors_dtype_t),
      parse_dtype_string s = Some dt -> s = csafetensors_dtype_name dt).
Proof.
  split.
  - intros dt. destruct dt; vm_compute; reflexivity.
  - intros s dt. unfold parse_dtype_string.
    repeat match goal with
      | |- context [if streq s ?l then _ else _] =>
          let E := fresh "E" in
          destruct (streq s l) eqn:E;
          [ apply streq_eq in E; intros [= <-]; exact E | clear E ]
      end.
    discriminate.
Qed.

(** ** What a load leaves *)

Lemma parse_header_sizes (bytes : list byte) (h : header_t) :
  parse_safetensors_header bytes = Ok h ->
  h_header_size h = read_u64_le bytes /\
  2 <= h_header_size h <= CSAFETENSORS_MAX_JSON_SIZE /\
  16 <= Z.of_nat (length bytes) /\
  8 + h_header_size h <= Z.of_nat (length bytes).
Proof.
  unfold parse_safetensors_header.
  destruct (Z.ltb_spec (Z.of_nat (length bytes)) 16); [ discriminate | ].
  destruct (Z.ltb_spec (read_u64_le bytes) 2); [ discriminate | ].
  destruct (Z.ltb_spec CSAFETENSORS_MAX_JSON_SIZE (read_u64_le bytes));
    [ discriminate | ].
  unfold u64. rewrite Z.mod_small
    by (unfold CSAFETENSORS_MAX_JSON_SIZE in *; lia).
  destruct (Z.ltb_spec (Z.of_nat (length bytes)) (8 + read_u64_le bytes));
    [ discriminate | ].
  destruct (json_parse _) as [root r| |]; try discriminate.
  destruct root; try discriminate.
  destruct (count_entries pairs) as [nt nm].
  destruct (parse_entries nt nm pairs [] []) as [r'| |];
    cbn [bind]; try discriminate.
  intros [= <-]. cbn [h_header_size]. lia.
Qed.

Lemma loaded_header_size (bytes : list byte) (st : csafetensors_t) :
  loaded_from bytes st ->
  exists h : header_t,
    parse_safetensors_header bytes = Ok h /\
    header_size st = h_header_size h.
Proof.
  intros [(data & block & Hl) | (data & Hl)].
  - unfold csafetensors_load_from_memory in Hl.
    destruct (_ || _); [ discriminate | ].
    destruct (parse_safetensors_header bytes) as [h| |]; try discriminate.
    destruct (_ && _); [ discriminate | ].
    apply Loaded_inj in Hl. subst st. exists h. split; reflexivity.
  - unfold csafetensors_mmap_from_memory in Hl.
    destruct (_ || _); [ discriminate | ].
    destruct (parse_safetensors_header bytes) as [h| |]; try discriminate.
    apply Loaded_inj in Hl. subst st. exists h. split; reflexivity.
Qed.

Lemma parsed_shape_length (tname : list byte) (obj : json_value)
  (t : csafetensors_tensor_t) :
  parse_tensor tname obj = Ok t ->
  (length (shape t) <= 8)%nat /\ (length (name t) <= stored_len)%nat.
Proof.
  intros Hok.
  destruct (parse_tensor_ok _ _ _ Hok)
    as (s & dims & emp & _ & _ & _ & Hlen & Hshp & Hname & _).
  destruct (parse_shape_ok _ _ _ _ _ Hshp) as [Hall _].
  rewrite <- (Forall2_length_eq _ _ _ Hall), Hname.
  split; [ exact Hlen | apply firstn_le_length ].
Qed.

(** X3.  What holds of every loaded object: the header size is the
    number in the first eight bytes, between 2 and 100 MiB, and the
    header fits in the file; the payload is what follows the header;
    every descriptor has at most 8 dimensions and a name of at most
    4095 bytes, its dimensions and offsets are 64-bit values, and its
    offsets are [(0, 0)] when a dimension is 0; metadata keys and
    values are at most 4095 bytes long. *)
Theorem loaded_object_invariants (bytes : list byte) (st : csafetensors_t)
  (Hload : loaded_from bytes st)
  (Hsize : Z.of_nat (length bytes) < 2 ^ 64) :
  header_size st = read_u64_le bytes /\
  2 <= header_size st <= CSAFETENSORS_MAX_JSON_SIZE /\
  16 <= Z.of_nat (length bytes) /\
  8 + header_size st <= Z.of_nat (length bytes) /\
  payload_size st = Z.of_nat (length bytes) - 8 - header_size st /\
  Forall (fun t =>
            (length (shape t) <= 8)%nat /\
            (length (name t) <= 4095)%nat /\
            Forall (fun d => 0 <= d < 2 ^ 64) (shape t) /\
            0 <= data_offset_begin t < 2 ^ 64 /\
            0 <= data_offset_end t < 2 ^ 64 /\
            (is_empty_tensor t = true ->
             data_offset_begin t = 0 /\ data_offset_end t = 0))
    (tensors st) /\
  Forall (fun m =>
            (length (key m) <= 4095)%nat /\ (length (value m) <= 4095)%nat)
    (metadata st).
Proof.
  destruct (loaded_header_size _ _ Hload) as (h & Hh & Hhs).
  destruct (parse_header_sizes _ _ Hh) as (Hread & Hrange & H16 & Hfit).
  destruct (loaded_payload _ _ Hload Hsize) as [Hpay _].
  rewrite <- Hhs in Hread, Hrange, Hfit.
  repeat (split; [ assumption || lia | ]).
  split.
  - apply Forall_forall. intros t Hin.
    destruct (loaded_tensor_parsed _ _ _ Hload Hin) as (tn & obj & Hok).
    destruct (parsed_shape_length _ _ _ Hok) as [Hs Hn].
    unfold stored_len in Hn.
    destruct (parsed_tensor_ranges _ _ _ Hok) as (Hd & Hb & He & Hemp).
    split; [ exact Hs | split; [ exact Hn | ] ].
    split; [ exact Hd | split; [ exact Hb | split; [ exact He | ] ] ].
    exact Hemp.
  - destruct (loaded_directory _ _ Hload) as (h' & Hh' & _ & Hm).
    destruct (parse_header_ok _ _ Hh') as (pairs & rest & _ & _ & Hmeta).
    rewrite Hm.
    destruct Hmeta as [-> | (mk & mpairs & n & _ & ->)]; [ constructor | ].
    eapply Forall_impl; [ | exact (stored_values (firstn n mpairs)) ].
    intros m (k & s & _ & -> & ->).
    split; apply (firstn_le_length stored_len).
Qed.

Lemma two_tensor_file_loaded : loaded_from two_tensor_file two_tensor_st.
Proof. left. exists buf_addr, block_addr. vm_compute. reflexivity. Defined.

Lemma loaded_object_invariants_witness :
  header_size two_tensor_st = read_u64_le two_tensor_file /\
  2 <= header_size two_tensor_st <= CSAFETENSORS_MAX_JSON_SIZE /\
  16 <= Z.of_nat (length two_tensor_file) /\
  8 + header_size two_tensor_st <= Z.of_nat (length two_tensor_file) /\
  payload_size two_tensor_st
  = Z.of_nat (length two_tensor_file) - 8 - header_size two_tensor_st /\
  Forall (fun t =>
            (length (shape t) <= 8)%nat /\
            (length (name t) <= 4095)%nat /\
            Forall (fun d => 0 <= d < 2 ^ 64) (shape t) /\
            0 <= data_offset_begin t < 2 ^ 64 /\
            0 <= data_offset_end t < 2 ^ 64 /\
            (is_empty_tensor t = true ->
             data_offset_begin t = 0 /\ data_offset_end t = 0))
    (tensors two_tensor_st) /\
  Forall (fun m =>
            (length (key m) <= 4095)%nat /\ (length (value m) <= 4095)%nat)
    (metadata two_tensor_st).
Proof.
  apply (loaded_object_invariants two_tensor_file two_tensor_st).
  - exact two_tensor_file_loaded.
  - vm_compute. reflexivity.
Defined.

(** ** The directory and the lookups *)

Lemma loaded_entries (bytes : list byte) (st : csafetensors_t) :
  loaded_from bytes st ->
  exists pairs rest,
    json_parse (header_json bytes) = POk (JSON_OBJECT pairs) rest /\
    NoDup (map fst pairs) /\
    Forall2 (fun kv t => parse_tensor (fst kv) (snd kv) = Ok t)
      (filter is_tensor_entry pairs) (tensors st).
Proof.
  intros Hload.
  destruct (loaded_directory _ _ Hload) as (h & Hh & Ht & _).
  destruct (parse_header_ok _ _ Hh) as (pairs & rest & Hj & Hall & _).
  exists pairs, rest. rewrite Ht.
  split; [ exact Hj | split; [ | exact Hall ] ].
  pose proof (json_parse_keys_distinct _ _ _ Hj) as Hkd.
  now inversion Hkd.
Qed.

Lemma Forall2_nth_error_r {A B : Type} (R : A -> B -> Prop)
  (xs : list A) (ys : list B) :
  Forall2 R xs ys ->
  forall (i : nat) (y : B),
    nth_error ys i = Some y ->
    exists x : A, nth_error xs i = Some x /\ R x y.
Proof.
  induction 1 as [|x0 y0 xs ys Hr _ IH]; intros i y Hy.
  - destruct i; discriminate.
  - destruct i as [|i]; cbn [nth_error] in *.
    + injection Hy as <-. eauto.
    + now apply IH.
Qed.

Lemma entries_have_descriptors (entries : list (list byte * json_value))
  (ts : list csafetensors_tensor_t) :
  Forall2 (fun kv t => parse_tensor (fst kv) (snd kv) = Ok t) entries ts ->
  forall (i : nat) (k : list byte) (v : json_value),
    nth_error entries i = Some (k, v) ->
    exists t : csafetensors_tensor_t,
      nth_error ts i = Some t /\ parse_tensor k v = Ok t.
Proof.
  induction 1 as [|kv t entries ts Hkv _ IH]; intros i k v Hi.
  - destruct i; discriminate.
  - destruct i as [|i]; cbn [nth_error] in *.
    + injection Hi as ->. exists t. split; [ reflexivity | exact Hkv ].
    + now apply IH.
Qed.

(** X4.  The directory of a loaded object lists the tensor entries of
    the header (the top-level pairs other than "__metadata__") in the
    order of the header: there are as many tensors as entries, the
    lookup at index [i] returns the descriptor that [parse_tensor]
    builds from entry [i], for every entry, it returns nothing else,
    and an index from [n_tensors] on gives nothing. *)
Theorem directory_follows_header (bytes : list byte) (st : csafetensors_t)
  (Hload : loaded_from bytes st) :
  exists pairs rest,
    json_parse (header_json bytes) = POk (JSON_OBJECT pairs) rest /\
    n_tensors st = Z.of_nat (length (filter is_tensor_entry pairs)) /\
    (forall (i : nat) (k : list byte) (v : json_value),
        nth_error (filter is_tensor_entry pairs) i = Some (k, v) ->
        exists t : csafetensors_tensor_t,
          csafetensors_get_tensor_by_index st (Z.of_nat i) = Some t /\
          parse_tensor k v = Ok t) /\
    (forall (i : nat) (t : csafetensors_tensor_t),
        csafetensors_get_tensor_by_index st (Z.of_nat i) = Some t ->
        exists k v,
          nth_error (filter is_tensor_entry pairs) i = Some (k, v) /\
          parse_tensor k v = Ok t) /\
    (forall index : Z,
        n_tensors st <= index ->
        csafetensors_get_tensor_by_index st index = None).
Proof.
  destruct (loaded_entries _ _ Hload) as (pairs & rest & Hj & _ & Hall).
  exists pairs, rest. split; [ exact Hj | ].
  assert (Hn : n_tensors st
               = Z.of_nat (length (filter is_tensor_entry pairs)))
    by (unfold n_tensors; now rewrite (Forall2_length_eq _ _ _ Hall)).
  split; [ exact Hn | ].
  split; [ | split ].
  - intros i k v Hi.
    destruct (entries_have_descriptors _ _ Hall i k v Hi) as (t & Ht & Hp).
    exists t. split; [ | exact Hp ].
    unfold csafetensors_get_tensor_by_index.
    assert (Hlt : (i < length (filter is_tensor_entry pairs))%nat)
      by (apply nth_error_Some; congruence).
    destruct (Z.leb_spec (n_tensors st) (Z.of_nat i)); [ lia | ].
    now rewrite Nat2Z.id.
  - intros i t. unfold csafetensors_get_tensor_by_index.
    destruct (n_tensors st <=? Z.of_nat i); [ discriminate | ].
    rewrite Nat2Z.id. intros Hnth.
    destruct (Forall2_nth_error_r _ _ _ Hall i t Hnth) as ([k v] & Hkv & Hp).
    exists k, v. split; [ exact Hkv | exact Hp ].
  - intros index Hge. unfold csafetensors_get_tensor_by_index.
    apply Z.leb_le in Hge. now rewrite Hge.
Qed.

Lemma directory_follows_header_witness :
  exists pairs rest,
    json_parse (header_json two_tensor_file) = POk (JSON_OBJECT pairs) rest /\
    n_tensors two_tensor_st
    = Z.of_nat (length (filter is_tensor_entry pairs)) /\
    (forall (i : nat) (k : list byte) (v : json_value),
        nth_error (filter is_tensor_entry pairs) i = Some (k, v) ->
        exists t : csafetensors_tensor_t,
          csafetensors_get_tensor_by_index two_tensor_st (Z.of_nat i)
          = Some t /\
          parse_tensor k v = Ok t) /\
    (forall (i : nat) (t : csafetensors_tensor_t),
        csafetensors_get_tensor_by_index two_tensor_st (Z.of_nat i) = Some t ->
        exists k v,
          nth_error (filter is_tensor_entry pairs) i = Some (k, v) /\
          parse_tensor k v = Ok t) /\
    (forall index : Z,
        n_tensors two_tensor_st <= index ->
        csafetensors_get_tensor_by_index two_tensor_st index = None).
Proof.
  apply (directory_follows_header two_tensor_file two_tensor_st).
  exact two_tensor_file_loaded.
Defined.

(** A name that is stored whole is found again. *)
Lemma find_stored_entry (n : nat) (k : list byte) (v : json_value) :
  (length k < n)%nat ->
  forall (entries : list (list byte * json_value))
         (ts : list csafetensors_tensor_t),
    Forall2 (fun kv t => parse_tensor (fst kv) (snd kv) = Ok t /\
                         name t = firstn n (fst kv)) entries ts ->
    NoDup (map fst entries) ->
    In (k, v) entries ->
    exists t : csafetensors_tensor_t,
      find (fun t => streq (name t) k) ts = Some t /\
      parse_tensor k v = Ok t.
Proof.
  intros Hk entries ts Hall.
  induction Hall as [|[k' v'] t' entries ts [Hp Hname] _ IH];
    intros Hnd Hin; [ contradiction | ].
  cbn [fst snd map] in *.
  inversion Hnd as [|? ? Hnin Hnd']; subst.
  cbn [find].
  destruct (streq (name t') k) eqn:Es.
  - apply streq_eq in Es.
    assert (Hkk : k' = k).
    { rewrite Hname in Es. rewrite <- Es.
      symmetry. apply firstn_short. rewrite Es. exact Hk. }
    subst k'. exists t'. split; [ reflexivity | ].
    destruct Hin as [Heq | Hin].
    + injection Heq as <-. exact Hp.
    + exfalso. apply Hnin. change k with (fst (k, v)). now apply in_map.
  - destruct Hin as [Heq | Hin].
    + injection Heq as -> ->.
      rewrite Hname, (firstn_all2 (n := n) k), streq_refl in Es by lia.
      discriminate.
    + now apply IH.
Qed.

Lemma stored_name_pairs (entries : list (list byte * json_value))
  (ts : list csafetensors_tensor_t) :
  Forall2 (fun kv t => parse_tensor (fst kv) (snd kv) = Ok t) entries ts ->
  Forall2 (fun kv t => parse_tensor (fst kv) (snd kv) = Ok t /\
                       name t = firstn stored_len (fst kv)) entries ts.
Proof.
  induction 1 as [|kv t kvs ts Hkv _ IH]; constructor; [ | exact IH ].
  split; [ exact Hkv | ].
  now destruct (parse_tensor_ok _ _ _ Hkv)
    as (s & dims & emp & _ & _ & _ & _ & _ & Hname & _).
Qed.

(** X5.  In a loaded object, a lookup with the key of a tensor entry
    of the header finds the descriptor built from that entry, when the
    key is shorter than 4095 bytes. *)
Theorem get_tensor_finds_entry (bytes : list byte) (st : csafetensors_t)
  (pairs : list (list byte * json_value)) (rest k : list byte)
  (v : json_value)
  (Hload : loaded_from bytes st)
  (Hjson : json_parse (header_json bytes) = POk (JSON_OBJECT pairs) rest)
  (Hin : In (k, v) pairs)
  (Hkey : is_metadata_key k = false)
  (Hlen : (length k < 4095)%nat) :
  exists t : csafetensors_tensor_t,
    csafetensors_get_tensor st k = Some t /\ parse_tensor k v = Ok t.
Proof.
  destruct (loaded_entries _ _ Hload) as (pairs' & rest' & Hj & Hnd & Hall).
  assert (pairs' = pairs) by congruence. subst pairs'.
  unfold csafetensors_get_tensor.
  apply (find_stored_entry stored_len k v Hlen
           (filter is_tensor_entry pairs) (tensors st)).
  - now apply stored_name_pairs.
  - now apply keys_of_filter_distinct.
  - apply filter_In. split; [ exact Hin | ].
    unfold is_tensor_entry. cbn [fst]. now rewrite Hkey.
Qed.

Lemma get_tensor_finds_entry_witness :
  exists t : csafetensors_tensor_t,
    csafetensors_get_tensor two_tensor_st (lit "b") = Some t /\
    parse_tensor (lit "b")
      (parsed (json_text "{'dtype':'F32','shape':[4],'data_offsets':[48,64]}"))
    = Ok t.
Proof.
  eapply (get_tensor_finds_entry two_tensor_file two_tensor_st).
  - exact two_tensor_file_loaded.
  - vm_compute. reflexivity.
  - right. right. left. vm_compute. reflexivity.
  - vm_compute. reflexivity.
  - vm_compute. lia.
Defined.

(** X6.  A lookup with a name of more than 4095 bytes finds nothing,
    in any loaded object. *)
Theorem get_tensor_long_name_absent (bytes : list byte)
  (st : csafetensors_t) (nm : list byte)
  (Hload : loaded_from bytes st)
  (Hlong : (4095 < length nm)%nat) :
  csafetensors_get_tensor st nm = None.
Proof.
  unfold csafetensors_get_tensor.
  destruct (find (fun t => streq (name t) nm) (tensors st)) as [t|] eqn:Ef;
    [ exfalso | reflexivity ].
  apply find_some in Ef. destruct Ef as [Hin Hs].
  apply streq_eq in Hs.
  destruct (loaded_tensor_parsed _ _ _ Hload Hin) as (tn & obj & Hok).
  destruct (parsed_shape_length _ _ _ Hok) as [_ Hn].
  unfold stored_len in Hn. rewrite Hs in Hn. lia.
Qed.

Lemma get_tensor_long_name_absent_witness :
  csafetensors_get_tensor two_tensor_st (repeat x77 4096) = None.
Proof.
  apply (get_tensor_long_name_absent two_tensor_file).
  - exact two_tensor_file_loaded.
  - rewrite repeat_length. lia.
Defined.

(** ** Metadata *)

Lemma fill_metadata_all (nm : nat)
  (mpairs : list (list byte * json_value)) :
  forall meta,
    (length meta + length mpairs <= nm)%nat ->
    fill_metadata nm mpairs meta = meta ++ metadata_of_pairs mpairs.
Proof.
  induction mpairs as [|[mk mv] mpairs IH]; intros meta Hlen;
    cbn [fill_metadata].
  - cbn. now rewrite app_nil_r.
  - cbn [length] in Hlen.
    destruct (Nat.ltb_spec (length meta) nm); [ | lia ].
    unfold metadata_of_pairs in *. cbn [flat_map snd fst].
    destruct mv; cbn [app]; try (apply IH; lia).
    rewrite IH by (rewrite length_app; cbn [length]; lia).
    now rewrite <- app_assoc.
Qed.

Lemma count_entries_keeps_metadata
  (pairs : list (list byte * json_value)) :
  Forall (fun kv => is_metadata_key (fst kv) = false) pairs ->
  forall c : nat * nat,
    snd (fold_left
           (fun (c : nat * nat) kv =>
              if is_metadata_key (fst kv) then
                match snd kv with
                | JSON_OBJECT m => (fst c, length m)
                | _ => c
                end
              else (S (fst c), snd c)) pairs c) = snd c.
Proof.
  induction 1 as [|kv pairs Hk _ IH]; intros c; cbn [fold_left];
    [ reflexivity | ].
  rewrite IH, Hk. reflexivity.
Qed.

Lemma header_metadata_pairs_cons (k : list byte) (v : json_value)
  (pairs : list (list byte * json_value)) :
  header_metadata_pairs ((k, v) :: pairs) =
  if is_metadata_key k then
    match v with
    | JSON_OBJECT m => m
    | _ => []
    end
  else header_metadata_pairs pairs.
Proof.
  unfold header_metadata_pairs, json_object_get. cbn [find fst snd].
  fold (is_metadata_key k). now destruct (is_metadata_key k).
Qed.

Lemma count_entries_metadata (pairs : list (list byte * json_value)) :
  NoDup (map fst pairs) ->
  snd (count_entries pairs) = length (header_metadata_pairs pairs).
Proof.
  unfold count_entries.
  assert (Hgen : forall c : nat * nat,
             snd c = 0%nat ->
             NoDup (map fst pairs) ->
             snd (fold_left
                    (fun (c : nat * nat) kv =>
                       if is_metadata_key (fst kv) then
                         match snd kv with
                         | JSON_OBJECT m => (fst c, length m)
                         | _ => c
                         end
                       else (S (fst c), snd c)) pairs c)
             = length (header_metadata_pairs pairs)).
  { induction pairs as [|[k v] pairs IH]; intros c Hc Hnd; cbn [fold_left].
    - exact Hc.
    - cbn [map fst] in Hnd. inversion Hnd as [|? ? Hnin Hnd']; subst.
      rewrite header_metadata_pairs_cons. cbn [fst snd].
      destruct (is_metadata_key k) eqn:Ek.
      + rewrite (count_entries_keeps_metadata pairs
                   (no_other_metadata_key k pairs Ek Hnin)).
        destruct v; cbn [snd length]; try exact Hc. reflexivity.
      + apply IH; [ exact Hc | exact Hnd' ]. }
  intros Hnd. now apply Hgen.
Qed.

Lemma parse_entries_metadata_exact
  (pairs : list (list byte * json_value)) :
  forall (nt nm : nat) tens tens' meta',
    NoDup (map fst pairs) ->
    (length (header_metadata_pairs pairs) <= nm)%nat ->
    parse_entries nt nm pairs tens [] = Ok (tens', meta') ->
    meta' = metadata_of_pairs (header_metadata_pairs pairs).
Proof.
  induction pairs as [|[k v] pairs IH]; intros nt nm tens tens' meta'
    Hnd Hnm; cbn [parse_entries].
  - now intros [= _ <-].
  - cbn [map fst] in Hnd. inversion Hnd as [|? ? Hnin Hnd']; subst.
    rewrite header_metadata_pairs_cons in *.
    destruct (is_metadata_key k) eqn:Ek.
    + pose proof (no_other_metadata_key k pairs Ek Hnin) as Hnone.
      destruct v;
        try (intros Hp;
             now apply (parse_entries_no_metadata _ _ _ _ _ _ _ Hnone) in Hp).
      intros Hp.
      apply (parse_entries_no_metadata _ _ _ _ _ _ _ Hnone) in Hp.
      rewrite Hp. now apply (fill_metadata_all nm pairs0 []).
    + destruct (nt <=? length tens)%nat; [ now apply IH | ].
      destruct (parse_tensor k v); cbn [bind]; try discriminate.
      now apply IH.
Qed.

Lemma loaded_metadata (bytes : list byte) (st : csafetensors_t)
  (pairs : list (list byte * json_value)) (rest : list byte) :
  loaded_from bytes st ->
  json_parse (header_json bytes) = POk (JSON_OBJECT pairs) rest ->
  metadata st = metadata_of_pairs (header_metadata_pairs pairs).
Proof.
  intros Hload Hjson.
  destruct (loaded_directory _ _ Hload) as (h & Hh & _ & Hm).
  rewrite Hm. clear Hm Hload.
  pose proof (json_parse_keys_distinct _ _ _ Hjson) as Hkd.
  assert (Hnd : NoDup (map fst pairs)) by now inversion Hkd.
  revert Hh. unfold parse_safetensors_header. fold (header_json bytes).
  destruct (Z.of_nat (length bytes) <? 16); [ discriminate | ].
  destruct (read_u64_le bytes <? 2); [ discriminate | ].
  destruct (CSAFETENSORS_MAX_JSON_SIZE <? read_u64_le bytes);
    [ discriminate | ].
  destruct (Z.of_nat (length bytes) <? u64 (8 + read_u64_le bytes));
    [ discriminate | ].
  rewrite Hjson.
  pose proof (count_entries_metadata pairs Hnd) as Hcount.
  destruct (count_entries pairs) as [nt nm]. cbn [snd] in Hcount.
  destruct (parse_entries nt nm pairs [] []) as [[tens meta]| |] eqn:Ep;
    cbn [bind]; try discriminate.
  intros [= <-]. cbn [h_metadata snd].
  apply (parse_entries_metadata_exact pairs nt nm [] tens meta Hnd);
    [ lia | exact Ep ].
Qed.

(** X7.  The metadata of a loaded object are the pairs of the header's
    "__metadata__" object that have a string value, in the order of
    the header, with key and value cut to 4095 bytes; pairs with
    another value are left out, and there are no metadata when the key
    is missing or its value is not an object. *)
Theorem metadata_follow_header (bytes : list byte) (st : csafetensors_t)
  (pairs : list (list byte * json_value)) (rest : list byte)
  (Hload : loaded_from bytes st)
  (Hjson : json_parse (header_json bytes) = POk (JSON_OBJECT pairs) rest) :
  metadata st = metadata_of_pairs (header_metadata_pairs pairs).
Proof. exact (loaded_metadata bytes st pairs rest Hload Hjson). Qed.

Lemma metadata_follow_header_witness :
  metadata two_tensor_st
  = metadata_of_pairs
      (header_metadata_pairs (pairs_of (parsed (header_json two_tensor_file)))).
Proof.
  eapply (metadata_follow_header two_tensor_file two_tensor_st).
  - exact two_tensor_file_loaded.
  - vm_compute. reflexivity.
Defined.

Lemma find_metadata_key (k : list byte) :
  (length k < stored_len)%nat ->
  forall mpairs : list (list byte * json_value),
    NoDup (map fst mpairs) ->
    find (fun m => streq (key m) k) (metadata_of_pairs mpairs)
    = match find (fun kv => streq (fst kv) k) mpairs with
      | Some (_, JSON_STRING s) =>
          Some {| key := k; value := firstn stored_len s |}
      | _ => None
      end.
Proof.
  intros Hk mpairs.
  induction mpairs as [|[k' v'] mpairs IH]; intros Hnd; [ reflexivity | ].
  cbn [map fst] in Hnd. inversion Hnd as [|? ? Hnin Hnd']; subst.
  unfold metadata_of_pairs in *. cbn [flat_map find fst snd].
  destruct (streq k' k) eqn:Ekk.
  - apply streq_eq in Ekk. subst k'.
    assert (Hcut : firstn stored_len k = k) by (apply firstn_all2; lia).
    assert (Hnone : find (fun m => streq (key m) k)
                      (flat_map
                         (fun kv =>
                            match snd kv with
                            | JSON_STRING s =>
                                [{| key := firstn stored_len (fst kv);
                                    value := firstn stored_len s |}]
                            | _ => []
                            end) mpairs) = None).
    { rewrite (IH Hnd').
      destruct (find (fun kv => streq (fst kv) k) mpairs) as [[k2 v2]|] eqn:Ef;
        [ | reflexivity ].
      exfalso. apply find_some in Ef. destruct Ef as [Hin Hs].
      cbn [fst] in Hs. apply streq_eq in Hs. subst k2.
      apply Hnin. change k with (fst (k, v2)). now apply in_map. }
    destruct v'; cbn [app]; try exact Hnone.
    cbn [find key]. now rewrite Hcut, streq_refl.
  - assert (Hskip : streq (firstn stored_len k') k = false).
    { destruct (streq (firstn stored_len k') k) eqn:Es; [ | reflexivity ].
      apply streq_eq in Es.
      assert (Hk' : firstn stored_len k' = k') by
        (apply firstn_short; rewrite Es; exact Hk).
      rewrite Hk' in Es. subst k'. now rewrite streq_refl in Ekk. }
    destruct v'; cbn [app]; try (now apply IH).
    cbn [find key]. rewrite Hskip. now apply IH.
Qed.

(** X8.  In a loaded object, a lookup with a key [k] shorter than 4095
    bytes gives the value (cut to 4095 bytes) that the header's
    "__metadata__" object has for [k] when that value is a string, and
    nothing when the object has no pair for [k], when the value is not
    a string, or when there is no such object. *)
Theorem get_metadata_follows_header (bytes : list byte)
  (st : csafetensors_t) (pairs : list (list byte * json_value))
  (rest k : list byte)
  (Hload : loaded_from bytes st)
  (Hjson : json_parse (header_json bytes) = POk (JSON_OBJECT pairs) rest)
  (Hlen : (length k < 4095)%nat) :
  csafetensors_get_metadata st k =
  match json_object_get (JSON_OBJECT (header_metadata_pairs pairs)) k with
  | Some (JSON_STRING s) => Some (firstn 4095 s)
  | _ => None
  end.
Proof.
  unfold csafetensors_get_metadata.
  rewrite (loaded_metadata _ _ _ _ Hload Hjson).
  assert (Hnd : NoDup (map fst (header_metadata_pairs pairs))).
  { pose proof (json_parse_keys_distinct _ _ _ Hjson) as Hkd.
    unfold header_metadata_pairs, json_object_get.
    destruct (find (fun kv => streq (fst kv) (lit "__metadata__")) pairs)
      as [[mk mv]|] eqn:Ef; cbn [snd]; [ | constructor ].
    destruct mv; try constructor.
    apply find_some in Ef. destruct Ef as [Hin _].
    eapply metadata_object_keys; eassumption. }
  rewrite (find_metadata_key k Hlen _ Hnd).
  unfold json_object_get.
  destruct (find (fun kv => streq (fst kv) k) (header_metadata_pairs pairs))
    as [[k2 v2]|]; [ | reflexivity ].
  cbn [snd]. destruct v2; reflexivity.
Qed.

Lemma get_metadata_follows_header_witness :
  csafetensors_get_metadata two_tensor_st (lit "model") =
  match json_object_get
          (JSON_OBJECT
             (header_metadata_pairs
                (pairs_of (parsed (header_json two_tensor_file)))))
          (lit "model") with
  | Some (JSON_STRING s) => Some (firstn 4095 s)
  | _ => None
  end.
Proof.
  eapply (get_metadata_follows_header two_tensor_file two_tensor_st).
  - exact two_tensor_file_loaded.
  - vm_compute. reflexivity.
  - vm_compute. lia.
Defined.

(** ** The eight-byte prefix and the payload *)

Lemma u8_byte_of_Z (z : Z) : u8 (byte_of_Z z) = z mod 256.
Proof.
  unfold u8, byte_of_Z.
  pose proof (Z.mod_pos_bound z 256 ltac:(lia)) as Hb.
  destruct (Byte.of_N (Z.to_N (z mod 256))) as [b|] eqn:Eb.
  - apply Byte.to_of_N in Eb. rewrite Eb. lia.
  - apply Byte.of_N_None_iff in Eb. lia.
Qed.

(** The eight bytes written for a 64-bit number read back as it. *)
Lemma read_u64_le_bytes (n : Z) (rest : list byte) :
  0 <= n < 2 ^ 64 -> read_u64_le (u64_le_bytes n ++ rest) = n.
Proof.
  intros Hn. unfold read_u64_le, u64_le_bytes.
  cbn [zrange map app firstn fold_right].
  rewrite !u8_byte_of_Z.
  change (0 + 1) with 1. change (1 + 1) with 2. change (2 + 1) with 3.
  change (3 + 1) with 4. change (4 + 1) with 5. change (5 + 1) with 6.
  change (6 + 1) with 7.
  rewrite !Z.shiftr_div_pow2 by lia.
  change (2 ^ (8 * 0)) with 1. change (2 ^ (8 * 1)) with 256.
  change (2 ^ (8 * 2)) with (256 * 256).
  change (2 ^ (8 * 3)) with (256 * (256 * 256)).
  change (2 ^ (8 * 4)) with (256 * (256 * (256 * 256))).
  change (2 ^ (8 * 5)) with (256 * (256 * (256 * (256 * 256)))).
  change (2 ^ (8 * 6)) with (256 * (256 * (256 * (256 * (256 * 256))))).
  change (2 ^ (8 * 7))
    with (256 * (256 * (256 * (256 * (256 * (256 * 256)))))).
  rewrite Z.div_1_r.
  rewrite <- !Z.div_div by lia.
  set (q1 := n / 256). set (q2 := q1 / 256). set (q3 := q2 / 256).
  set (q4 := q3 / 256). set (q5 := q4 / 256). set (q6 := q5 / 256).
  set (q7 := q6 / 256).
  pose proof (Z.div_mod n 256 ltac:(lia)).
  pose proof (Z.div_mod q1 256 ltac:(lia)).
  pose proof (Z.div_mod q2 256 ltac:(lia)).
  pose proof (Z.div_mod q3 256 ltac:(lia)).
  pose proof (Z.div_mod q4 256 ltac:(lia)).
  pose proof (Z.div_mod q5 256 ltac:(lia)).
  pose proof (Z.div_mod q6 256 ltac:(lia)).
  pose proof (Z.div_mod q7 256 ltac:(lia)).
  assert (q7 / 256 = 0).
  { apply Z.div_small. subst q7 q6 q5 q4 q3 q2 q1.
    rewrite !Z.div_div by lia.
    split; [ apply Z.div_pos; lia | apply Z.div_lt_upper_bound; lia ]. }
  lia.
Qed.

Lemma u64_le_bytes_length (n : Z) : length (u64_le_bytes n) = 8%nat.
Proof. reflexivity. Qed.

Lemma created_length (header payload : list byte) :
  Z.of_nat (length (create_safetensors_data header payload)) =
  8 + Z.of_nat (length header) + Z.of_nat (length payload).
Proof.
  unfold create_safetensors_data.
  rewrite !length_app, u64_le_bytes_length. lia.
Qed.

Lemma created_header_json (header payload : list byte) :
  Z.of_nat (length header) < 2 ^ 64 ->
  read_u64_le (create_safetensors_data header payload) =
  Z.of_nat (length header) /\
  header_json (create_safetensors_data header payload) = header.
Proof.
  intros Hn.
  assert (Hr : read_u64_le (create_safetensors_data header payload) =
               Z.of_nat (length header)).
  { unfold create_safetensors_data. apply read_u64_le_bytes. lia. }
  split; [ exact Hr | ].
  unfold header_json. rewrite Hr, Nat2Z.id.
  unfold create_safetensors_data.
  rewrite skipn_app, u64_le_bytes_length.
  rewrite skipn_all2 by (rewrite u64_le_bytes_length; lia).
  cbn [app Nat.sub skipn].
  rewrite firstn_app, Nat.sub_diag, firstn_all, firstn_O.
  apply app_nil_r.
Qed.

Lemma loaded_storage (data block : Z) (bytes : list byte)
  (st : csafetensors_t) :
  csafetensors_load_from_memory data bytes block = Loaded st ->
  mmaped st = false /\ storage st = block /\
  storage_bytes st = skipn (Z.to_nat (8 + header_size st)) bytes.
Proof.
  unfold csafetensors_load_from_memory.
  destruct (_ || _); [ discriminate | ].
  destruct (parse_safetensors_header bytes) as [h| |] eqn:Eh;
    try discriminate.
  destruct (_ && _); [ discriminate | ].
  intros Hl. apply Loaded_inj in Hl. subst st.
  cbn [mmaped storage storage_bytes header_size].
  destruct (parse_header_sizes _ _ Eh) as (_ & Hb & _).
  unfold u64. rewrite Z.mod_small
    by (unfold CSAFETENSORS_MAX_JSON_SIZE in Hb; lia).
  repeat split.
Qed.

Lemma mapped_buffer (data : Z) (bytes : list byte) (st : csafetensors_t) :
  csafetensors_mmap_from_memory data bytes = Loaded st ->
  mmaped st = true /\ mmap_addr st = data /\
  mmap_size st = Z.of_nat (length bytes) /\
  databuffer_addr st = data + 8 + header_size st /\
  storage st = NULL /\ storage_bytes st = [].
Proof.
  unfold csafetensors_mmap_from_memory.
  destruct (_ || _); [ discriminate | ].
  destruct (parse_safetensors_header bytes) as [h| |] eqn:Eh;
    try discriminate.
  intros Hl. apply Loaded_inj in Hl. subst st.
  repeat split.
Qed.

(** X9.  A file built as the unit tests build it, the length of the
    header in eight little-endian bytes, then the header, then the
    payload, loads back to those parts: the header size is the length
    of the header, the text given to the JSON reader is the header, the
    payload region has the length of the payload, and the block of a
    copying load holds the payload. *)
Theorem created_file_loads_back (header payload : list byte)
  (st : csafetensors_t)
  (Hsize : 8 + Z.of_nat (length header) + Z.of_nat (length payload)
           < 2 ^ 64)
  (Hload : loaded_from (create_safetensors_data header payload) st) :
  header_size st = Z.of_nat (length header) /\
  header_json (create_safetensors_data header payload) = header /\
  payload_size st = Z.of_nat (length payload) /\
  (mmaped st = false -> storage_bytes st = payload).
Proof.
  destruct (created_header_json header payload ltac:(lia)) as [Hr Hj].
  pose proof (created_length header payload) as Hlen.
  destruct (loaded_header_size _ _ Hload) as (h & Hh & Hhs).
  destruct (parse_header_sizes _ _ Hh) as (Hh1 & _).
  assert (Hs : header_size st = Z.of_nat (length header)) by congruence.
  destruct (loaded_payload _ _ Hload ltac:(lia)) as [Hp _].
  split; [ exact Hs | split; [ exact Hj | split; [ lia | ] ] ].
  intros Hm.
  destruct Hload as [(data & block & Hl) | (data & Hl)].
  - destruct (loaded_storage _ _ _ _ Hl) as (_ & _ & Hb).
    rewrite Hb, Hs.
    replace (Z.to_nat (8 + Z.of_nat (length header)))
      with (length header + 8)%nat by lia.
    unfold create_safetensors_data.
    rewrite <- skipn_skipn.
    rewrite (skipn_app 8), u64_le_bytes_length.
    rewrite (skipn_all2 (n := 8)) by (rewrite u64_le_bytes_length; lia).
    cbn [app Nat.sub skipn].
    rewrite skipn_app, Nat.sub_diag, skipn_all. reflexivity.
  - destruct (mapped_buffer _ _ _ Hl) as (Hm' & _). congruence.
Qed.

Lemma created_file_loads_back_witness :
  header_size two_tensor_st = Z.of_nat (length two_tensor_header) /\
  header_json (create_safetensors_data two_tensor_header (zeros 64))
  = two_tensor_header /\
  payload_size two_tensor_st = Z.of_nat (length (zeros 64)) /\
  (mmaped two_tensor_st = false -> storage_bytes two_tensor_st = zeros 64).
Proof.
  apply (created_file_loads_back two_tensor_header (zeros 64) two_tensor_st).
  - vm_compute. reflexivity.
  - exact two_tensor_file_loaded.
Defined.

(** ** Where the data of a tensor is *)

Lemma tensor_b_listed : In tensor_b (tensors two_tensor_st).
Proof. vm_compute. right. left. reflexivity. Qed.

Lemma payload_region (bytes : list byte) (st : csafetensors_t) (i : Z) :
  loaded_from bytes st -> payload_base st <> NULL -> 0 <= i ->
  byte_at bytes st (payload_base st + i) =
  nth_error bytes (Z.to_nat (8 + header_size st + i)).
Proof.
  intros Hload Hbase Hi.
  destruct (loaded_header_size _ _ Hload) as (h & Hh & Hhs).
  destruct (parse_header_sizes _ _ Hh) as (_ & Hb & _).
  unfold byte_at, payload_base in *.
  destruct Hload as [(data & block & Hl) | (data & Hl)].
  - destruct (loaded_storage _ _ _ _ Hl) as (Hm & Hs & Hsb).
    rewrite Hm in *. rewrite Hsb.
    destruct (Z.ltb_spec (storage st + i) (storage st)); [ lia | ].
    rewrite nth_error_skipn. f_equal. lia.
  - destruct (mapped_buffer _ _ _ Hl) as (Hm & Ha & _ & Hd & _).
    rewrite Hm in *. rewrite Hd, Ha.
    destruct (Z.ltb_spec (data + 8 + header_size st + i) data); [ lia | ].
    f_equal. lia.
Qed.

(** X10.  The address that [csafetensors_get_tensor_data] returns for a
    tensor of a loaded object whose begin offset is within the payload
    designates the byte at offset [8 + header_size + begin] of the
    file, in the block of a copying load as in the buffer of a mapped
    one: the byte read [j] places after the address is byte
    [8 + header_size + begin + j] of the file. *)
Theorem tensor_data_is_file_data (bytes : list byte) (st : csafetensors_t)
  (t : csafetensors_tensor_t) (j : Z)
  (Hload : loaded_from bytes st)
  (Hbase : payload_base st <> NULL)
  (Hin : In t (tensors st))
  (Hbegin : data_offset_begin t <= payload_size st)
  (Hj : 0 <= j) :
  csafetensors_get_tensor_data st t = payload_base st + data_offset_begin t /\
  byte_at bytes st (csafetensors_get_tensor_data st t + j) =
  nth_error bytes
    (Z.to_nat (8 + header_size st + data_offset_begin t + j)).
Proof.
  destruct (loaded_tensor_parsed _ _ _ Hload Hin) as (tn & obj & Hok).
  destruct (parsed_tensor_ranges _ _ _ Hok) as (_ & Hb & _).
  assert (Hg : csafetensors_get_tensor_data st t
               = payload_base st + data_offset_begin t).
  { unfold csafetensors_get_tensor_data. cbv zeta.
    destruct (Z.eqb_spec (payload_base st) NULL); [ contradiction | ].
    destruct (Z.ltb_spec (payload_size st) (data_offset_begin t));
      [ lia | reflexivity ]. }
  split; [ exact Hg | ].
  rewrite Hg, <- Z.add_assoc.
  rewrite (payload_region bytes st (data_offset_begin t + j) Hload Hbase)
    by lia.
  f_equal. lia.
Qed.

Lemma tensor_data_is_file_data_witness :
  csafetensors_get_tensor_data two_tensor_st tensor_b
  = payload_base two_tensor_st + data_offset_begin tensor_b /\
  byte_at two_tensor_file two_tensor_st
    (csafetensors_get_tensor_data two_tensor_st tensor_b + 5) =
  nth_error two_tensor_file
    (Z.to_nat (8 + header_size two_tensor_st
               + data_offset_begin tensor_b + 5)).
Proof.
  apply (tensor_data_is_file_data two_tensor_file two_tensor_st tensor_b 5).
  - exact two_tensor_file_loaded.
  - vm_compute. discriminate.
  - exact tensor_b_listed.
  - vm_compute. discriminate.
  - lia.
Defined.

(** ** Validation and the accessors *)

(** X11.  In a loaded object that [csafetensors_validate] accepts, the
    whole range of a tensor that is not empty and whose byte size is
    below [2^64] can be read through the address that
    [csafetensors_get_tensor_data] returns: the range ends where the
    descriptor says, within the payload, and each of its bytes is a
    byte of the file. *)
Theorem validated_tensor_is_readable (bytes : list byte)
  (st : csafetensors_t) (t : csafetensors_tensor_t) (j : Z)
  (Hload : loaded_from bytes st)
  (Hsize : Z.of_nat (length bytes) < 2 ^ 64)
  (Hbase : payload_base st <> NULL)
  (Hvalid : csafetensors_validate st = true)
  (Hin : In t (tensors st))
  (Hfull : is_empty_tensor t = false)
  (Hsmall : byte_size t < 2 ^ 64)
  (Hj : 0 <= j < byte_size t) :
  data_offset_begin t + byte_size t = data_offset_end t /\
  data_offset_end t <= payload_size st /\
  exists b : byte,
    byte_at bytes st (csafetensors_get_tensor_data st t + j) = Some b /\
    nth_error bytes
      (Z.to_nat (8 + header_size st + data_offset_begin t + j)) = Some b.
Proof.
  destruct (loaded_tensor_parsed _ _ _ Hload Hin) as (tn & obj & Hok).
  destruct (parsed_tensor_ranges _ _ _ Hok) as (Hd & Hb & He & Hemp).
  assert (Hv : validate_tensor (payload_size st) t = None).
  { unfold csafetensors_validate, csafetensors_validate_msg in Hvalid.
    destruct (validate_loop (payload_size st) (tensors st)) eqn:El;
      [ discriminate | ].
    apply validate_loop_none in El. rewrite Forall_forall in El.
    now apply El. }
  apply validate_tensor_exact in Hv; try assumption.
  destruct (Hv Hfull) as [[Hbe Hep] Hlen].
  destruct (loaded_payload _ _ Hload Hsize) as [Hp _].
  destruct (loaded_header_size _ _ Hload) as (h & Hh & Hhs).
  destruct (parse_header_sizes _ _ Hh) as (_ & Hhb & _).
  split; [ lia | split; [ exact Hep | ] ].
  assert (Hg : csafetensors_get_tensor_data st t
               = payload_base st + data_offset_begin t).
  { unfold csafetensors_get_tensor_data. cbv zeta.
    destruct (Z.eqb_spec (payload_base st) NULL); [ contradiction | ].
    destruct (Z.ltb_spec (payload_size st) (data_offset_begin t));
      [ lia | reflexivity ]. }
  rewrite Hg, <- Z.add_assoc.
  rewrite (payload_region bytes st (data_offset_begin t + j) Hload Hbase)
    by lia.
  replace (8 + header_size st + (data_offset_begin t + j))
    with (8 + header_size st + data_offset_begin t + j) by lia.
  destruct (nth_error bytes
              (Z.to_nat (8 + header_size st + data_offset_begin t + j)))
    as [b|] eqn:En.
  - exists b. split; reflexivity.
  - apply nth_error_None in En. lia.
Qed.

Lemma validated_tensor_is_readable_witness :
  data_offset_begin tensor_b + byte_size tensor_b
  = data_offset_end tensor_b /\
  data_offset_end tensor_b <= payload_size two_tensor_st /\
  exists b : byte,
    byte_at two_tensor_file two_tensor_st
      (csafetensors_get_tensor_data two_tensor_st tensor_b + 15) = Some b /\
    nth_error two_tensor_file
      (Z.to_nat (8 + header_size two_tensor_st
                 + data_offset_begin tensor_b + 15)) = Some b.
Proof.
  apply (validated_tensor_is_readable two_tensor_file two_tensor_st
           tensor_b 15).
  - exact two_tensor_file_loaded.
  - vm_compute. reflexivity.
  - vm_compute. discriminate.
  - vm_compute. reflexivity.
  - exact tensor_b_listed.
  - vm_compute. reflexivity.
  - vm_compute. reflexivity.
  - vm_compute. split; [ discriminate | reflexivity ].
Defined.

(** X12.  For a loaded object in which no byte size reaches [2^64],
    [csafetensors_validate] returns true exactly when every descriptor
    that is not empty has [begin <= end <= payload size] and
    [end - begin] equal to its byte size. *)
Theorem validate_accepts_exactly_valid_offsets (bytes : list byte)
  (st : csafetensors_t)
  (Hload : loaded_from bytes st)
  (Hsmall : Forall (fun t => byte_size t < 2 ^ 64) (tensors st)) :
  csafetensors_validate st = true <->
  Forall (offsets_valid (payload_size st)) (tensors st).
Proof. exact (validate_exact_without_overflow bytes st Hload Hsmall). Qed.

Lemma validate_accepts_exactly_valid_offsets_witness :
  csafetensors_validate two_tensor_st = true <->
  Forall (offsets_valid (payload_size two_tensor_st))
    (tensors two_tensor_st).
Proof.
  apply (validate_accepts_exactly_valid_offsets two_tensor_file
           two_tensor_st).
  - exact two_tensor_file_loaded.
  - repeat constructor.
Defined.



(** ** Integers in the header *)

Lemma digits2_pos_size (p : positive) : digits2_pos p = Pos.size p.
Proof. induction p; cbn; congruence. Qed.

Lemma digits2_pos_bounds (p : positive) :
  2 ^ (Zpos (digits2_pos p) - 1) <= Zpos p < 2 ^ Zpos (digits2_pos p).
Proof.
  rewrite digits2_pos_size.
  pose proof (Pos.size_le p) as Hle. pose proof (Pos.size_gt p) as Hgt.
  apply Pos2Z.pos_le_pos in Hle. apply Pos2Z.pos_lt_pos in Hgt.
  rewrite Pos2Z.inj_pow in Hle, Hgt.
  assert (Hs : 2 ^ Zpos (Pos.size p) = 2 * 2 ^ (Zpos (Pos.size p) - 1)).
  { rewrite <- Z.pow_succ_r by lia. f_equal. lia. }
  lia.
Qed.

Lemma digits2_pos_shift (p n : positive) :
  digits2_pos (Pos.iter xO p n) = (digits2_pos p + n)%positive.
Proof.
  induction n as [|n IH] using Pos.peano_ind.
  - cbn. lia.
  - rewrite Pos.iter_succ. cbn [digits2_pos]. rewrite IH. lia.
Qed.

Lemma iter_xO_value (p n : positive) :
  Zpos (Pos.iter xO p n) = Zpos p * 2 ^ Zpos n.
Proof.
  induction n as [|n IH] using Pos.peano_ind.
  - cbn. lia.
  - rewrite Pos.iter_succ, Pos2Z.inj_xO, IH, Pos2Z.inj_succ, Z.pow_succ_r
      by lia.
    lia.
Qed.

(** A mantissa of 53 bits with an exponent in range is not rounded. *)
Lemma binary_round_aux_exact (mz : positive) (ez : Z) :
  Zpos (digits2_pos mz) = 53 -> -1074 <= ez <= 971 ->
  binary_round_aux prec64 emax64 false (Zpos mz) ez loc_Exact
  = S754_finite false mz ez.
Proof.
  intros Hd He.
  assert (Hs : forall l,
             shr_fexp prec64 emax64 (Zpos mz) ez l
             = (shr_record_of_loc (Zpos mz) l, ez)).
  { intros l. unfold shr_fexp, Zdigits2. rewrite Hd.
    unfold fexp, emin, prec64, emax64.
    replace (Z.max (53 + ez - 53) (3 - 1024 - 53) - ez) with 0 by lia.
    reflexivity. }
  unfold binary_round_aux. rewrite Hs.
  cbn [shr_record_of_loc loc_of_shr_record shr_m round_nearest_even].
  rewrite Hs. cbn [shr_record_of_loc shr_m].
  unfold prec64, emax64.
  destruct (Z.leb_spec ez (1024 - 53)); [ reflexivity | lia ].
Qed.

(** A positive integer below [2^53] is a binary64 number. *)
Lemma binary_round_integer (pm : positive) :
  Zpos pm < 2 ^ 53 ->
  exists (mz : positive) (ez : Z),
    binary_round prec64 emax64 false pm 0 = S754_finite false mz ez /\
    -52 <= ez <= 0 /\ Zpos mz = Zpos pm * 2 ^ (- ez).
Proof.
  intros Hlt.
  pose proof (digits2_pos_bounds pm) as [Hlo Hhi].
  assert (Hd : Zpos (digits2_pos pm) <= 53).
  { destruct (Z.le_gt_cases (Zpos (digits2_pos pm)) 53) as [|Hgt];
      [ assumption | exfalso ].
    assert (2 ^ 53 <= 2 ^ (Zpos (digits2_pos pm) - 1))
      by (apply Z.pow_le_mono_r; lia).
    lia. }
  assert (Hf : fexp prec64 emax64 (Zpos (digits2_pos pm) + 0)
               = Zpos (digits2_pos pm) - 53).
  { unfold fexp, emin, prec64, emax64. lia. }
  unfold binary_round, shl_align. rewrite Hf, Z.sub_0_r.
  destruct (Zpos (digits2_pos pm) - 53) as [|q|q] eqn:Eq; [ | lia | ].
  - exists pm, 0. split; [ | split; [ lia | cbn; lia ] ].
    apply binary_round_aux_exact; lia.
  - exists (Pos.iter xO pm q), (Zneg q).
    split; [ | split; [ lia | ] ].
    + apply binary_round_aux_exact; [ | lia ].
      rewrite digits2_pos_shift, Pos2Z.inj_add. lia.
    + rewrite iter_xO_value. reflexivity.
Qed.

Lemma integer_lexeme_exact (ds : list byte) :
  decimal_value ds < 2 ^ 53 ->
  size_t_of_double
    (strtod {| lex_neg := false; lex_int := ds; lex_frac := [];
               lex_exp := 0 |})
  = Some (Z.max 0 (decimal_value ds)).
Proof.
  intros Hlt. unfold strtod.
  cbn [lex_neg lex_int lex_frac lex_exp length Z.of_nat].
  rewrite app_nil_r.
  destruct (decimal_value ds) as [|pm|pm] eqn:Em; [ reflexivity | | reflexivity ].
  change (0 - 0) with 0. cbn [Z.leb Z.compare cond_Zopp].
  change (10 ^ 0) with 1. rewrite Z.mul_1_r.
  cbn [binary_normalize].
  destruct (binary_round_integer pm Hlt) as (mz & ez & -> & He & Hm).
  unfold size_t_of_double. cbv zeta.
  assert (Ht : (if 0 <=? ez then Zpos mz * 2 ^ ez
                else Zpos mz / 2 ^ (- ez)) = Zpos pm).
  { destruct (Z.leb_spec 0 ez).
    - assert (ez = 0) by lia. subst ez. cbn in Hm. cbn. lia.
    - rewrite Hm. apply Z.div_mul.
      apply Z.pow_nonzero; lia. }
  rewrite Ht.
  destruct (Z.leb_spec (Zpos pm) SIZE_MAX) as [|Hgt]; [ reflexivity | ].
  unfold SIZE_MAX in Hgt. lia.
Qed.

Lemma digit_facts (c : byte) :
  is_digit c = true ->
  Byte.eqb c x2d = false /\ 0 <= u8 c - 48 <= 9 /\
  (Byte.eqb c x30 = false -> (49 <=? u8 c) && (u8 c <=? 57) = true).
Proof.
  intros H. destruct c; vm_compute in H; try discriminate H;
    (split; [ reflexivity | split; [ vm_compute; split; discriminate | ] ]);
    vm_compute; congruence.
Qed.

Lemma span_digits_all (ds rest : list byte) :
  forallb is_digit ds = true ->
  match rest with [] => true | c :: _ => negb (is_digit c) end = true ->
  span_digits (ds ++ rest) = (ds, rest).
Proof.
  intros Hds Hrest. induction ds as [|c ds IH]; cbn [app].
  - destruct rest as [|c r]; cbn [span_digits]; [ reflexivity | ].
    apply negb_true_iff in Hrest. rewrite Hrest. reflexivity.
  - cbn [forallb] in Hds. apply andb_true_iff in Hds.
    destruct Hds as [Hc Hds]. cbn [span_digits]. rewrite Hc, (IH Hds).
    reflexivity.
Qed.

Lemma decimal_value_acc (ds : list byte) (acc : Z) :
  forallb is_digit ds = true -> 0 <= acc ->
  0 <= fold_left (fun a c => 10 * a + (u8 c - 48)) ds acc.
Proof.
  revert acc. induction ds as [|c ds IH]; intros acc Hds Hacc;
    cbn [fold_left]; [ exact Hacc | ].
  cbn [forallb] in Hds. apply andb_true_iff in Hds.
  destruct Hds as [Hc Hds]. apply IH; [ exact Hds | ].
  destruct (digit_facts c Hc) as (_ & Hr & _). lia.
Qed.

(** A JSON integer is cut out of the input whole. *)
Lemma parse_integer_lexeme (ds rest : list byte) :
  is_json_integer ds = true -> ends_number rest = true ->
  json_parse_number (ds ++ rest)
  = POk (strtod {| lex_neg := false; lex_int := ds; lex_frac := [];
                   lex_exp := 0 |}) rest.
Proof.
  intros Hint Hrest.
  destruct ds as [|c ds]; [ discriminate | ].
  cbn [is_json_integer] in Hint. apply andb_true_iff in Hint.
  destruct Hint as [Hds Hlead].
  assert (Hc : is_digit c = true).
  { cbn [forallb] in Hds. now apply andb_true_iff in Hds. }
  destruct (digit_facts c Hc) as (Hminus & _ & Hnz).
  assert (Hnd : match rest with [] => true | c :: _ => negb (is_digit c) end
                = true).
  { destruct rest as [|r rest]; [ reflexivity | ].
    cbn [ends_number] in Hrest. rewrite !negb_orb in Hrest.
    rewrite !andb_true_iff in Hrest. tauto. }
  assert (Hfrac : number_frac_part rest = Some ([], rest)).
  { destruct rest as [|r rest]; [ reflexivity | ].
    cbn [ends_number] in Hrest. rewrite !negb_orb in Hrest.
    rewrite !andb_true_iff, !negb_true_iff in Hrest.
    destruct Hrest as [[[_ Hp] _] _].
    cbn [number_frac_part]. rewrite Hp. reflexivity. }
  assert (Hexp : number_exp_part rest = Some (0, rest)).
  { destruct rest as [|r rest]; [ reflexivity | ].
    cbn [ends_number] in Hrest. rewrite !negb_orb in Hrest.
    rewrite !andb_true_iff, !negb_true_iff in Hrest.
    destruct Hrest as [[[_ _] He] HE].
    cbn [number_exp_part]. rewrite He, HE. reflexivity. }
  assert (Hip : number_int_part ((c :: ds) ++ rest) = Some (c :: ds, rest)).
  { cbn [app number_int_part].
    destruct (Byte.eqb c x30) eqn:E0.
    - cbn [negb orb] in Hlead. apply Nat.eqb_eq in Hlead.
      destruct ds; [ reflexivity | discriminate ].
    - rewrite (Hnz eq_refl).
      change (c :: ds ++ rest) with ((c :: ds) ++ rest).
      rewrite span_digits_all by assumption. reflexivity. }
  unfold json_parse_number.
  change ((c :: ds) ++ rest) with (c :: (ds ++ rest)) at 1.
  cbv iota beta. rewrite Hminus.
  change (c :: (ds ++ rest)) with ((c :: ds) ++ rest).
  cbn [app]. cbn [app] in Hip. rewrite Hip, Hfrac, Hexp. reflexivity.
Qed.

(** X14.  An integer of the header written in decimal digits that is
    below [2^53] is read and stored as exactly its value: the number
    reader stops after its digits, and the cast to [size_t] of the
    [double] it returns is the integer. *)
Theorem plain_integers_are_stored_exactly (ds rest : list byte)
  (Hint : is_json_integer ds = true)
  (Hrest : ends_number rest = true)
  (Hval : decimal_value ds < 2 ^ 53) :
  exists d : spec_float,
    json_parse_number (ds ++ rest) = POk d rest /\
    size_t_of_double d = Some (decimal_value ds) /\
    cast_size_t d = Ok (decimal_value ds).
Proof.
  exists (strtod {| lex_neg := false; lex_int := ds; lex_frac := [];
                    lex_exp := 0 |}).
  assert (Hs : size_t_of_double
                 (strtod {| lex_neg := false; lex_int := ds; lex_frac := [];
                            lex_exp := 0 |}) = Some (decimal_value ds)).
  { rewrite (integer_lexeme_exact ds Hval). f_equal. apply Z.max_r.
    destruct ds as [|c ds]; [ discriminate | ].
    cbn [is_json_integer] in Hint. apply andb_true_iff in Hint.
    apply decimal_value_acc; [ tauto | lia ]. }
  split; [ now apply parse_integer_lexeme | split; [ exact Hs | ] ].
  unfold cast_size_t. rewrite Hs. reflexivity.
Qed.

Lemma plain_integers_are_stored_exactly_witness :
  exists d : spec_float,
    json_parse_number (lit "9007199254740991" ++ lit ",0]")
    = POk d (lit ",0]") /\
    size_t_of_double d = Some (decimal_value (lit "9007199254740991")) /\
    cast_size_t d = Ok (decimal_value (lit "9007199254740991")).
Proof.
  apply (plain_integers_are_stored_exactly (lit "9007199254740991")
           (lit ",0]")); vm_compute; reflexivity.
Defined.

(** ** Strings without escapes *)

Lemma plain_char_facts (c : byte) :
  plain_char c = true ->
  Byte.eqb c QUOTE = false /\ Byte.eqb c BACKSLASH = false /\
  (u8 c <? 0x20) = false /\ Byte.eqb c x00 = false.
Proof.
  unfold plain_char. rewrite !andb_true_iff, !negb_true_iff.
  intros [[Hq Hb] Hu]. repeat split; try assumption.
  - apply Z.ltb_ge. now apply Z.leb_le.
  - destruct c; try reflexivity. discriminate Hu.
Qed.

Lemma cstr_plain (s : list byte) :
  forallb plain_char s = true -> cstr s = s.
Proof.
  induction s as [|c s IH]; cbn [forallb cstr]; [ reflexivity | ].
  intros H. apply andb_true_iff in H. destruct H as [Hc Hs].
  destruct (plain_char_facts c Hc) as (_ & _ & _ & ->).
  now rewrite IH.
Qed.

Lemma string_loop_plain (s rest out : list byte) (fuel : nat) :
  forallb plain_char s = true -> (length s < fuel)%nat ->
  json_string_loop fuel out (s ++ QUOTE :: rest)
  = POk (cstr (rev out ++ s)) rest.
Proof.
  revert out fuel. induction s as [|c s IH]; intros out fuel Hs Hf.
  - destruct fuel as [|fuel]; [ cbn in Hf; lia | ].
    cbn [app json_string_loop].
    change (Byte.eqb QUOTE QUOTE) with true. cbv iota.
    rewrite rev_append_rev, !app_nil_r. reflexivity.
  - destruct fuel as [|fuel]; [ cbn in Hf; lia | ].
    cbn [forallb] in Hs. apply andb_true_iff in Hs. destruct Hs as [Hc Hs].
    destruct (plain_char_facts c Hc) as (Hq & Hb & Hu & _).
    cbn [app json_string_loop]. rewrite Hq, Hu, Hb.
    rewrite IH by (assumption || (cbn [length] in Hf; lia)).
    cbn [rev]. rewrite <- app_assoc. reflexivity.
Qed.

(** X15.  A string of the header without escapes is read as it is
    written: between two quotes, bytes other than the quote, the
    backslash and the control characters below 0x20 are returned
    unchanged, bytes above 0x7f included, and the reader stops after
    the closing quote. *)
Theorem plain_strings_are_read_verbatim (total : nat) (s rest : list byte)
  (Hplain : forallb plain_char s = true) :
  json_parse_string total (QUOTE :: s ++ QUOTE :: rest) = POk s rest /\
  json_parse (QUOTE :: s ++ [QUOTE]) = POk (JSON_STRING s) [].
Proof.
  assert (Hstr : forall t r,
             json_parse_string t (QUOTE :: s ++ QUOTE :: r) = POk s r).
  { intros t r. cbn [json_parse_string].
    change (Byte.eqb QUOTE QUOTE) with true. cbv iota.
    rewrite string_loop_plain; [ | assumption | rewrite length_app; cbn; lia ].
    cbn [rev app]. now rewrite cstr_plain. }
  split; [ apply Hstr | ].
  unfold json_parse, json_fuel.
  cbn [length Nat.mul Nat.add json_parse_value].
  change (json_skip_whitespace (QUOTE :: s ++ [QUOTE]))
    with (QUOTE :: s ++ [QUOTE]).
  cbv iota beta zeta.
  change (Byte.eqb QUOTE x6e) with false.
  change (Byte.eqb QUOTE x74) with false.
  change (Byte.eqb QUOTE x66) with false.
  change (Byte.eqb QUOTE QUOTE) with true.
  cbv iota. rewrite Hstr. reflexivity.
Qed.

Lemma plain_strings_are_read_verbatim_witness :
  json_parse_string 0 (QUOTE :: lit "F32" ++ QUOTE :: lit ",") 
  = POk (lit "F32") (lit ",") /\
  json_parse (QUOTE :: lit "F32" ++ [QUOTE]) = POk (JSON_STRING (lit "F32")) [].
Proof.
  apply (plain_strings_are_read_verbatim 0 (lit "F32") (lit ",")).
  vm_compute. reflexivity.
Defined.

(** ** The half-precision conversions and the values they denote *)

Lemma f16_to_f32_table :
  forallb (fun x => same_value (f32_of_bits (csafetensors_f16_to_f32 x))
                      (f16_of_bits x))
    (zrange 0 (Z.to_nat 65536)) = true.
Proof. vm_compute. reflexivity. Qed.

(** X16.  [csafetensors_f16_to_f32] is exact: for each of the [2^16]
    half patterns, the single-precision pattern it returns denotes the
    value of the half, subnormals, signed zeros and infinities
    included, and a NaN gives a NaN. *)
Theorem f16_to_f32_is_exact (x : Z) (Hx : 0 <= x < 2 ^ 16) :
  same_value (f32_of_bits (csafetensors_f16_to_f32 x)) (f16_of_bits x)
  = true.
Proof.
  pose proof f16_to_f32_table as Htab.
  rewrite forallb_forall in Htab. apply Htab.
  apply zrange_In. change (Z.of_nat (Z.to_nat 65536)) with 65536. lia.
Qed.

Lemma f16_to_f32_is_exact_witness :
  same_value (f32_of_bits (csafetensors_f16_to_f32 0x0001))
    (f16_of_bits 0x0001) = true.
Proof. apply (f16_to_f32_is_exact 0x0001). lia. Defined.

(** ** Rounding to bfloat16 *)

Lemma land_lxor_l (a b c : Z) :
  Z.land (Z.lxor a b) c = Z.lxor (Z.land a c) (Z.land b c).
Proof.
  apply Z.bits_inj'. intros n Hn.
  rewrite Z.land_spec, !Z.lxor_spec, !Z.land_spec.
  destruct (Z.testbit a n), (Z.testbit b n), (Z.testbit c n); reflexivity.
Qed.

(** The test of the source for an exponent field of all ones. *)
Lemma exponent_all_ones (x : Z) :
  0 <= x < 2 ^ 32 ->
  (Z.land (Z.lxor x 0xffffffff) 0x7f800000 =? 0)
  = (Z.land (Z.shiftr x 23) 0xff =? 0xff).
Proof.
  intros Hx.
  set (A := Z.land (Z.lxor x 0xffffffff) 0x7f800000).
  assert (Hlow : A mod 2 ^ 23 = 0).
  { rewrite <- Z.land_ones by lia. unfold A.
    rewrite <- Z.land_assoc. change (Z.land 0x7f800000 (Z.ones 23)) with 0.
    apply Z.land_0_r. }
  assert (Hhigh : A / 2 ^ 23 = Z.lxor (Z.land (Z.shiftr x 23) 0xff) 0xff).
  { rewrite <- Z.shiftr_div_pow2 by lia. unfold A.
    rewrite Z.shiftr_land, Z.shiftr_lxor.
    change (Z.shiftr 0xffffffff 23) with 0x1ff.
    change (Z.shiftr 0x7f800000 23) with 0xff.
    rewrite land_lxor_l. reflexivity. }
  pose proof (Z.div_mod A (2 ^ 23) ltac:(lia)) as Hdm.
  rewrite Hlow, Hhigh in Hdm.
  destruct (Z.eqb_spec (Z.land (Z.shiftr x 23) 0xff) 0xff) as [He|He].
  - rewrite He in Hdm. change (Z.lxor 0xff 0xff) with 0 in Hdm.
    apply Z.eqb_eq. lia.
  - apply Z.eqb_neq. intros HA. apply He.
    apply Z.lxor_eq. lia.
Qed.

(** X17.  For a single-precision pattern whose exponent field is not
    all ones, [csafetensors_f32_to_bf16] rounds to the nearest
    bfloat16 pattern, and to the even one of two that are as near: the
    result, widened again, is at most half a unit of the last bfloat16
    place away from the pattern, and when it is exactly half a unit
    away its last bit is 0. *)
Theorem f32_to_bf16_rounds_to_nearest_even (x : Z)
  (Hx : 0 <= x < 2 ^ 32)
  (Hfin : Z.land (Z.shiftr x 23) 0xff <> 0xff) :
  0 <= csafetensors_f32_to_bf16 x < 2 ^ 16 /\
  Z.abs (csafetensors_bf16_to_f32 (csafetensors_f32_to_bf16 x) - x)
  <= 2 ^ 15 /\
  (Z.abs (csafetensors_bf16_to_f32 (csafetensors_f32_to_bf16 x) - x)
   = 2 ^ 15 ->
   Z.even (csafetensors_f32_to_bf16 x) = true).
Proof.
  assert (Hhi : Z.shiftr x 16 <= 0xfffe).
  { rewrite Z.shiftr_div_pow2 by lia.
    destruct (Z.le_gt_cases (x / 2 ^ 16) 0xfffe) as [|Hgt];
      [ assumption | exfalso ].
    apply Hfin. rewrite Z.shiftr_div_pow2 by lia.
    change 0xff with (Z.ones 8) at 1. rewrite Z.land_ones by lia.
    change (2 ^ 16) with 65536 in *. change (2 ^ 23) with 8388608.
    change (2 ^ 32) with 4294967296 in *. change (2 ^ 8) with 256.
    Z.div_mod_to_equations. lia. }
  assert (Hr : csafetensors_f32_to_bf16 x
               = (x + (0x7fff + (x / 2 ^ 16) mod 2)) / 2 ^ 16).
  { unfold csafetensors_f32_to_bf16. cbv zeta.
    rewrite (exponent_all_ones x Hx).
    destruct (Z.eqb_spec (Z.land (Z.shiftr x 23) 0xff) 0xff);
      [ contradiction | ].
    change 1 with (Z.ones 1) at 1. rewrite Z.land_ones by lia.
    rewrite !Z.shiftr_div_pow2 by lia. change (2 ^ 1) with 2.
    rewrite Z.shiftr_div_pow2 in Hhi by lia.
    unfold u32. rewrite Z.mod_small; [ reflexivity | ].
    change (2 ^ 16) with 65536 in *. change (2 ^ 32) with 4294967296 in *.
    Z.div_mod_to_equations. lia. }
  rewrite Z.shiftr_div_pow2 in Hhi by lia.
  assert (Hb : 0 <= csafetensors_f32_to_bf16 x < 2 ^ 16).
  { rewrite Hr.
    change (2 ^ 16) with 65536 in *. change (2 ^ 32) with 4294967296 in *.
    Z.div_mod_to_equations. lia. }
  assert (Hw : csafetensors_bf16_to_f32 (csafetensors_f32_to_bf16 x)
               = csafetensors_f32_to_bf16 x * 2 ^ 16).
  { unfold csafetensors_bf16_to_f32, u32.
    rewrite Z.shiftl_mul_pow2 by lia. apply Z.mod_small. lia. }
  split; [ exact Hb | ].
  rewrite Hw. rewrite Zeven_mod. rewrite Hr.
  change (2 ^ 16) with 65536 in *. change (2 ^ 32) with 4294967296 in *.
  change (2 ^ 15) with 32768.
  split.
  - Z.div_mod_to_equations. lia.
  - intros Habs. apply Z.eqb_eq. revert Habs.
    Z.div_mod_to_equations. lia.
Qed.

Lemma f32_to_bf16_rounds_to_nearest_even_witness :
  0 <= csafetensors_f32_to_bf16 0x3f808000 < 2 ^ 16 /\
  Z.abs (csafetensors_bf16_to_f32 (csafetensors_f32_to_bf16 0x3f808000)
         - 0x3f808000) <= 2 ^ 15 /\
  (Z.abs (csafetensors_bf16_to_f32 (csafetensors_f32_to_bf16 0x3f808000)
          - 0x3f808000) = 2 ^ 15 ->
   Z.even (csafetensors_f32_to_bf16 0x3f808000) = true).
Proof.
  apply (f32_to_bf16_rounds_to_nearest_even 0x3f808000).
  - lia.
  - vm_compute. discriminate.
Defined.

Lemma lor_one (h : Z) : Z.lor h 1 = h + 1 - h mod 2.
Proof.
  pose proof (Z.add_lor_land h 1) as H.
  assert (Hl : Z.land h 1 = h mod 2).
  { change 1 with (Z.ones 1). rewrite Z.land_ones by lia. reflexivity. }
  lia.
Qed.

(** X18.  [csafetensors_f32_to_bf16] keeps an infinity and keeps a NaN
    a NaN: for a single-precision pattern whose exponent field is all
    ones, the result widened again denotes what the pattern denotes,
    the infinity of the same sign or a NaN. *)
Theorem f32_to_bf16_keeps_inf_and_nan (x : Z)
  (Hx : 0 <= x < 2 ^ 32)
  (Hspecial : Z.land (Z.shiftr x 23) 0xff = 0xff) :
  0 <= csafetensors_f32_to_bf16 x < 2 ^ 16 /\
  same_value
    (f32_of_bits (csafetensors_bf16_to_f32 (csafetensors_f32_to_bf16 x)))
    (f32_of_bits x) = true.
Proof.
  assert (HE : (x / 8388608) mod 256 = 255).
  { rewrite Z.shiftr_div_pow2 in Hspecial by lia.
    change 0xff with (Z.ones 8) in Hspecial at 1.
    rewrite Z.land_ones in Hspecial by lia. exact Hspecial. }
  assert (Hr : csafetensors_f32_to_bf16 x
               = x / 65536
                 + (if x mod 65536 =? 0 then 0 else 1 - (x / 65536) mod 2)).
  { unfold csafetensors_f32_to_bf16. cbv zeta.
    rewrite (exponent_all_ones x Hx), Hspecial.
    change (0xff =? 0xff) with true. cbv iota.
    change 0xffff with (Z.ones 16). rewrite Z.land_ones by lia.
    change (2 ^ 16) with 65536.
    destruct (x mod 65536 =? 0); cbn [negb].
    - rewrite Z.shiftr_div_pow2 by lia. change (2 ^ 16) with 65536. lia.
    - rewrite Z.shiftr_lor, Z.shiftr_div_pow2 by lia.
      change (Z.shiftr 0x10000 16) with 1. change (2 ^ 16) with 65536.
      rewrite lor_one. lia. }
  change (2 ^ 32) with 4294967296 in Hx.
  assert (Hb : 0 <= csafetensors_f32_to_bf16 x < 65536).
  { rewrite Hr. destruct (x mod 65536 =? 0);
      Z.div_mod_to_equations; lia. }
  assert (Hw : csafetensors_bf16_to_f32 (csafetensors_f32_to_bf16 x)
               = csafetensors_f32_to_bf16 x * 65536).
  { unfold csafetensors_bf16_to_f32, u32.
    rewrite Z.shiftl_mul_pow2 by lia. apply Z.mod_small.
    change (2 ^ 16) with 65536. change (2 ^ 32) with 4294967296. lia. }
  split; [ exact Hb | ].
  rewrite Hw. set (r := csafetensors_f32_to_bf16 x) in *.
  unfold f32_of_bits. cbv zeta.
  rewrite Hspecial. change (0xff =? 0) with false.
  change (0xff =? 255) with true. cbv iota.
  rewrite !Z.testbit_odd, !Z.shiftr_div_pow2 by lia.
  change 0xff with (Z.ones 8). change 0x7fffff with (Z.ones 23).
  rewrite !Z.land_ones by lia.
  change (2 ^ 31) with 2147483648. change (2 ^ 23) with 8388608.
  change (2 ^ 8) with 256.
  assert (Hexp : (r * 65536 / 8388608) mod 256 = 255).
  { rewrite Hr. destruct (Z.eqb_spec (x mod 65536) 0);
      Z.div_mod_to_equations; lia. }
  assert (Hsign : r * 65536 / 2147483648 = x / 2147483648).
  { rewrite Hr. destruct (Z.eqb_spec (x mod 65536) 0);
      Z.div_mod_to_equations; lia. }
  assert (Hmant : (r * 65536 mod 8388608 =? 0) = (x mod 8388608 =? 0)).
  { rewrite Hr.
    destruct (Z.eqb_spec (x mod 65536) 0);
      destruct (Z.eqb_spec (x mod 8388608) 0);
      [ apply Z.eqb_eq | apply Z.eqb_neq | apply Z.eqb_eq | apply Z.eqb_neq ];
      Z.div_mod_to_equations; lia. }
  rewrite Hexp, Hsign, Hmant.
  change (255 =? 0) with false. change (255 =? 255) with true. cbv iota.
  destruct (x mod 8388608 =? 0); cbn [same_value];
    [ apply Bool.eqb_reflx | reflexivity ].
Qed.

Lemma f32_to_bf16_keeps_inf_and_nan_witness :
  0 <= csafetensors_f32_to_bf16 0x7f800001 < 2 ^ 16 /\
  same_value
    (f32_of_bits
       (csafetensors_bf16_to_f32 (csafetensors_f32_to_bf16 0x7f800001)))
    (f32_of_bits 0x7f800001) = true.
Proof.
  apply (f32_to_bf16_keeps_inf_and_nan 0x7f800001).
  - lia.
  - vm_compute. reflexivity.
Defined.

(** ** The two loaders *)

(** X19.  A copying load and a mapping of the same buffer end alike
    when the allocation succeeds: both fail with the same code and
    message, or both succeed with the same directory, metadata, header
    size and payload size, so that validation says the same of both. *)
Theorem load_and_mmap_agree (data block : Z) (bytes : list byte)
  (Hblock : block <> NULL) :
  match csafetensors_load_from_memory data bytes block,
        csafetensors_mmap_from_memory data bytes with
  | Loaded a, Loaded b =>
      tensors a = tensors b /\ metadata a = metadata b /\
      header_size a = header_size b /\
      payload_size a = payload_size b /\
      csafetensors_validate_msg a = csafetensors_validate_msg b /\
      mmaped a = false /\ mmaped b = true
  | Failed c m, Failed c' m' => c = c' /\ m = m'
  | Load_undefined, Load_undefined => True
  | _, _ => False
  end.
Proof.
  unfold csafetensors_load_from_memory, csafetensors_mmap_from_memory.
  destruct (_ || _); [ split; reflexivity | ].
  destruct (parse_safetensors_header bytes) as [h| |] eqn:Eh;
    [ | split; reflexivity | exact I ].
  destruct (Z.eqb_spec block NULL); [ contradiction | ].
  cbn [andb].
  destruct (parse_header_sizes _ _ Eh) as (_ & Hb & _).
  assert (Hp : u64 (Z.of_nat (length bytes) - u64 (8 + h_header_size h))
               = u64 (Z.of_nat (length bytes) - 8 - h_header_size h)).
  { unfold u64 at 2. rewrite Z.mod_small
      by (unfold CSAFETENSORS_MAX_JSON_SIZE in Hb; lia).
    f_equal. lia. }
  unfold csafetensors_validate_msg, payload_size.
  cbn [tensors metadata header_size mmaped storage_size databuffer_size].
  rewrite Hp. repeat split.
Qed.

Lemma load_and_mmap_agree_witness :
  match csafetensors_load_from_memory buf_addr two_tensor_file block_addr,
        csafetensors_mmap_from_memory buf_addr two_tensor_file with
  | Loaded a, Loaded b =>
      tensors a = tensors b /\ metadata a = metadata b /\
      header_size a = header_size b /\
      payload_size a = payload_size b /\
      csafetensors_validate_msg a = csafetensors_validate_msg b /\
      mmaped a = false /\ mmaped b = true
  | Failed c m, Failed c' m' => c = c' /\ m = m'
  | Load_undefined, Load_undefined => True
  | _, _ => False
  end.
Proof.
  apply (load_and_mmap_agree buf_addr block_addr two_tensor_file).
  vm_compute. discriminate.
Defined.

(** ** Objects of the header *)


(** ** Entries that are refused *)

(** X21.  One tensor entry that [parse_tensor] refuses makes the whole
    load fail: neither loader returns an object for a file whose
    header has such an entry. *)
Theorem refused_entry_fails_load (data block : Z) (bytes : list byte)
  (pairs : list (list byte * json_value)) (rest k : list byte)
  (val : json_value) (e : error_msg)
  (Hjson : json_parse (header_json bytes) = POk (JSON_OBJECT pairs) rest)
  (Hin : In (k, val) pairs)
  (Hkey : is_metadata_key k = false)
  (Hrefused : parse_tensor k val = Error e) :
  match csafetensors_load_from_memory data bytes block with
  | Loaded _ => False
  | _ => True
  end /\
  match csafetensors_mmap_from_memory data bytes with
  | Loaded _ => False
  | _ => True
  end.
Proof.
  split.
  - destruct (csafetensors_load_from_memory data bytes block) as [st| |]
      eqn:El; [ | exact I | exact I ].
    assert (Hload : loaded_from bytes st) by (left; now exists data, block).
    destruct (loaded_header_size _ _ Hload) as (h & Hh & _).
    exact (entry_error_fails_header bytes pairs rest k val e
             Hjson Hin Hkey Hrefused h Hh).
  - destruct (csafetensors_mmap_from_memory data bytes) as [st| |]
      eqn:El; [ | exact I | exact I ].
    assert (Hload : loaded_from bytes st) by (right; now exists data).
    destruct (loaded_header_size _ _ Hload) as (h & Hh & _).
    exact (entry_error_fails_header bytes pairs rest k val e
             Hjson Hin Hkey Hrefused h Hh).
Qed.

Lemma refused_entry_fails_load_witness :
  match csafetensors_load_from_memory buf_addr no_dtype_file block_addr with
  | Loaded _ => False
  | _ => True
  end /\
  match csafetensors_mmap_from_memory buf_addr no_dtype_file with
  | Loaded _ => False
  | _ => True
  end.
Proof.
  eapply (refused_entry_fails_load buf_addr block_addr no_dtype_file).
  - vm_compute. reflexivity.
  - right. left. reflexivity.
  - vm_compute. reflexivity.
  - vm_compute. reflexivity.
Defined.

(** ** Element counts *)

Lemma product_with_zero (dims : list Z) :
  existsb (Z.eqb 0) dims = true -> fold_right Z.mul 1 dims = 0.
Proof.
  induction dims as [|d dims IH]; cbn [existsb fold_right];
    [ discriminate | ].
  intros H. apply orb_true_iff in H. destruct H as [Hd | Hr].
  - apply Z.eqb_eq in Hd. subst d. reflexivity.
  - rewrite (IH Hr). lia.
Qed.

(** X22.  For a descriptor whose dimensions are [size_t] values and
    whose element count is below [2^64], [csafetensors_shape_size] is
    the product of the dimensions: 1 for an empty shape, and 0 exactly
    when a dimension is 0. *)
Theorem shape_size_counts_elements (t : csafetensors_tensor_t)
  (Hdims : Forall (fun d => 0 <= d < 2 ^ 64) (shape t))
  (Hsmall : element_count t < 2 ^ 64) :
  csafetensors_shape_size t = element_count t /\
  (csafetensors_shape_size t = 0 <-> is_empty_tensor t = true) /\
  (shape t = [] -> csafetensors_shape_size t = 1).
Proof.
  rewrite shape_size_spec. unfold is_empty_tensor, element_count in *.
  destruct (existsb (Z.eqb 0) (shape t)) eqn:Ez.
  - rewrite (product_with_zero _ Ez).
    split; [ reflexivity | split; [ tauto | ] ].
    intros Hs. rewrite Hs in Ez. discriminate.
  - pose proof (element_count_positive _ Hdims Ez) as Hpos.
    destruct (shape t) as [|d ds] eqn:Es.
    + split; [ reflexivity | split; [ | reflexivity ] ].
      split; discriminate.
    + unfold u64. rewrite Z.mod_small by lia.
      split; [ reflexivity | split; [ | discriminate ] ].
      split; [ lia | discriminate ].
Qed.

Lemma shape_size_counts_elements_witness :
  csafetensors_shape_size tensor_b = element_count tensor_b /\
  (csafetensors_shape_size tensor_b = 0 <-> is_empty_tensor tensor_b = true)
  /\ (shape tensor_b = [] -> csafetensors_shape_size tensor_b = 1).
Proof.
  apply (shape_size_counts_elements tensor_b).
  - repeat constructor; discriminate.
  - reflexivity.
Defined.

(** ** Entries that are accepted *)

Lemma parse_shape_accepts (tname : list byte) (ds : list spec_float) :
  forall (dims : list Z) (e0 : bool),
    Forall2 (fun d v => size_t_of_double d = Some v) ds dims ->
    parse_shape tname (map JSON_NUMBER ds) e0
    = Ok (dims, e0 || existsb (Z.eqb 0) dims).
Proof.
  induction ds as [|d ds IH]; intros dims e0 Hall;
    inversion Hall as [|d' v ds' dims' Hd Hrest]; subst;
    cbn [map parse_shape existsb].
  - now rewrite orb_false_r.
  - unfold cast_size_t. rewrite Hd. cbn [bind].
    rewrite (IH _ _ Hrest). cbn [bind fst snd].
    rewrite (Z.eqb_sym 0 v), orb_assoc. reflexivity.
Qed.

(** X23.  An entry with the three fields as the format writes them is
    accepted and stored as written: a dtype that is one of the 13
    names, a shape of at most 8 numbers, and two offsets, or no
    offsets when a dimension is 0, give the descriptor with that
    dtype, the dimensions and offsets converted to [size_t], and the
    name cut to 4095 bytes; fields in any order and other fields
    besides do not matter. *)
Theorem well_formed_entry_is_stored (nm : list byte) (obj : json_value)
  (dt : csafetensors_dtype_t) (ds : list spec_float) (dims : list Z)
  (Hobj : exists pairs, obj = JSON_OBJECT pairs)
  (Hdtype : json_object_get obj (lit "dtype")
            = Some (JSON_STRING (csafetensors_dtype_name dt)))
  (Hshape : json_object_get obj (lit "shape")
            = Some (JSON_ARRAY (map JSON_NUMBER ds)))
  (Hrank : (length ds <= 8)%nat)
  (Hdims : Forall2 (fun d v => size_t_of_double d = Some v) ds dims) :
  (existsb (Z.eqb 0) dims = true ->
   json_object_get obj (lit "data_offsets") = None ->
   parse_tensor nm obj
   = Ok {| name := firstn 4095 nm; dtype := dt; shape := dims;
           data_offset_begin := 0; data_offset_end := 0 |}) /\
  (forall (bn en : spec_float) (b e : Z),
      existsb (Z.eqb 0) dims = false ->
      json_object_get obj (lit "data_offsets")
      = Some (JSON_ARRAY [JSON_NUMBER bn; JSON_NUMBER en]) ->
      size_t_of_double bn = Some b -> size_t_of_double en = Some e ->
      parse_tensor nm obj
      = Ok {| name := firstn 4095 nm; dtype := dt; shape := dims;
              data_offset_begin := b; data_offset_end := e |}).
Proof.
  destruct Hobj as [pairs ->].
  assert (Hdt : parse_dtype_string (csafetensors_dtype_name dt) = Some dt)
    by (destruct dt; vm_compute; reflexivity).
  assert (Hlen : (CSAFETENSORS_MAX_DIM
                  <? Z.of_nat (length (map JSON_NUMBER ds))) = false).
  { rewrite length_map. apply Z.ltb_ge. unfold CSAFETENSORS_MAX_DIM. lia. }
  pose proof (parse_shape_accepts nm ds dims false Hdims) as Hsh.
  cbn [orb] in Hsh.
  split.
  - intros Hz Hoff. unfold parse_tensor.
    rewrite Hdtype, Hdt, Hshape, Hlen, Hsh. cbn [bind].
    rewrite Hz, Hoff. reflexivity.
  - intros bn en b e Hz Hoff Hb He. unfold parse_tensor.
    rewrite Hdtype, Hdt, Hshape, Hlen, Hsh. cbn [bind].
    rewrite Hz, Hoff. unfold cast_size_t. rewrite Hb, He. reflexivity.
Qed.

Lemma well_formed_entry_is_stored_witness :
  (existsb (Z.eqb 0) [0; 10] = true ->
   json_object_get empty_entry (lit "data_offsets") = None ->
   parse_tensor (lit "e") empty_entry
   = Ok {| name := firstn 4095 (lit "e");
           dtype := CSAFETENSORS_DTYPE_FLOAT32; shape := [0; 10];
           data_offset_begin := 0; data_offset_end := 0 |}) /\
  (forall (bn en : spec_float) (b e : Z),
      existsb (Z.eqb 0) [0; 10] = false ->
      json_object_get empty_entry (lit "data_offsets")
      = Some (JSON_ARRAY [JSON_NUMBER bn; JSON_NUMBER en]) ->
      size_t_of_double bn = Some b -> size_t_of_double en = Some e ->
      parse_tensor (lit "e") empty_entry
      = Ok {| name := firstn 4095 (lit "e");
              dtype := CSAFETENSORS_DTYPE_FLOAT32; shape := [0; 10];
              data_offset_begin := b; data_offset_end := e |}).
Proof.
  apply (well_formed_entry_is_stored (lit "e") empty_entry
           CSAFETENSORS_DTYPE_FLOAT32
           [S754_zero false; S754_finite false 5629499534213120 (-49)] [0; 10]).
  - eexists. vm_compute. reflexivity.
  - vm_compute. reflexivity.
  - vm_compute. reflexivity.
  - cbn. lia.
  - repeat constructor.
Defined.

(** ** A load without a block *)

(** X25.  A copying load for which [malloc] returns [NULL] succeeds
    only when there is no payload, and then
    [csafetensors_get_tensor_data] returns [NULL] for every tensor,
    the empty ones included. *)
Theorem null_block_gives_no_data (data : Z) (bytes : list byte)
  (st : csafetensors_t)
  (Hload : csafetensors_load_from_memory data bytes NULL = Loaded st) :
  payload_size st = 0 /\
  forall t : csafetensors_tensor_t,
    csafetensors_get_tensor_data st t = NULL.
Proof.
  unfold csafetensors_load_from_memory in Hload.
  destruct (_ || _); [ discriminate | ].
  destruct (parse_safetensors_header bytes) as [h| |] eqn:Eh;
    try discriminate.
  cbv zeta in Hload. change (NULL =? NULL) with true in Hload.
  cbn [andb] in Hload.
  destruct (Z.ltb_spec 0
              (u64 (Z.of_nat (length bytes) - u64 (8 + h_header_size h))))
    as [|Hz]; [ discriminate | ].
  apply Loaded_inj in Hload. subst st.
  assert (H0 : u64 (Z.of_nat (length bytes) - u64 (8 + h_header_size h)) = 0).
  { unfold u64 in *.
    pose proof (Z.mod_pos_bound
                  (Z.of_nat (length bytes) - (8 + h_header_size h) mod 2 ^ 64)
                  (2 ^ 64) ltac:(lia)).
    lia. }
  unfold payload_size, csafetensors_get_tensor_data, payload_base.
  cbn [mmaped storage storage_size].
  split; [ exact H0 | reflexivity ].
Qed.

Lemma null_block_gives_no_data_witness :
  payload_size no_payload_st = 0 /\
  forall t : csafetensors_tensor_t,
    csafetensors_get_tensor_data no_payload_st t = NULL.
Proof.
  apply (null_block_gives_no_data buf_addr no_payload_file no_payload_st).
  vm_compute. reflexivity.
Defined.

(** ** Narrowing to half precision *)

Lemma lor_disjoint (a b n : Z) :
  0 <= n -> 0 <= b < 2 ^ n -> Z.lor (a * 2 ^ n) b = a * 2 ^ n + b.
Proof.
  intros Hn Hb.
  pose proof (Z.add_lor_land (a * 2 ^ n) b) as Hadd.
  assert (Hl : Z.land (a * 2 ^ n) b = 0).
  { apply Z.bits_inj'. intros k Hk. rewrite Z.land_spec, Z.bits_0.
    destruct (Z.lt_ge_cases k n) as [Hlt | Hge].
    - rewrite Z.mul_pow2_bits_low by lia. reflexivity.
    - assert (Hbk : Z.testbit b k = false).
      { destruct (Z.eq_dec b 0) as [-> | Hnz]; [ apply Z.bits_0 | ].
        apply Z.bits_above_log2; [ lia | ].
        apply Z.log2_lt_pow2; [ lia | ].
        assert (2 ^ n <= 2 ^ k) by (apply Z.pow_le_mono_r; lia). lia. }
      rewrite Hbk. apply andb_false_r. }
  lia.
Qed.

Lemma sign_of_bits (x : Z) :
  Z.land (Z.shiftr x 16) 0x8000 = if Z.testbit x 31 then 0x8000 else 0.
Proof.
  apply Z.bits_inj'. intros k Hk.
  rewrite Z.land_spec, Z.shiftr_spec by lia.
  change 0x8000 with (2 ^ 15). rewrite Z.pow2_bits_eqb by lia.
  destruct (Z.eqb_spec 15 k) as [<- | Hne].
  - change (15 + 16) with 31.
    destruct (Z.testbit x 31);
      [ rewrite Z.pow2_bits_eqb by lia; reflexivity | now rewrite Z.bits_0 ].
  - rewrite andb_false_r.
    destruct (Z.testbit x 31).
    + rewrite Z.pow2_bits_eqb by lia. symmetry. now apply Z.eqb_neq.
    + now rewrite Z.bits_0.
Qed.

Lemma testbit_top (x n : Z) :
  0 <= n -> 0 <= x < 2 ^ (n + 1) ->
  Z.testbit x n = (2 ^ n <=? x).
Proof.
  intros Hn Hx. rewrite Z.pow_add_r in Hx by lia. change (2 ^ 1) with 2 in Hx.
  rewrite Z.testbit_odd, Z.shiftr_div_pow2 by lia.
  assert (Hp : 0 < 2 ^ n) by (apply Z.pow_pos_nonneg; lia).
  destruct (Z.leb_spec (2 ^ n) x).
  - replace (x / 2 ^ n) with 1; [ reflexivity | ].
    apply Z.div_unique with (r := x - 2 ^ n); lia.
  - rewrite Z.div_small by lia. reflexivity.
Qed.

(** The classes of a half pattern, read off its fields. *)
Lemma f16_class (r : Z) (s : bool) :
  0 <= r < 2 ^ 16 -> Z.testbit r 15 = s ->
  let e := (r / 1024) mod 32 in
  let m := r mod 1024 in
  (e = 31 -> m <> 0 -> f16_of_bits r = S754_nan) /\
  (e = 31 -> m = 0 -> f16_of_bits r = S754_infinity s) /\
  (e = 0 -> m = 0 -> f16_of_bits r = S754_zero s) /\
  (e <> 31 -> f16_of_bits r <> S754_nan).
Proof.
  intros Hr Hs. cbv zeta. unfold f16_of_bits. cbv zeta.
  assert (HE : Z.land (Z.shiftr r 10) 0x1f = (r / 1024) mod 32).
  { rewrite Z.shiftr_div_pow2 by lia. change 0x1f with (Z.ones 5).
    rewrite Z.land_ones by lia. reflexivity. }
  assert (HM : Z.land r 0x3ff = r mod 1024).
  { change 0x3ff with (Z.ones 10). rewrite Z.land_ones by lia.
    reflexivity. }
  rewrite Hs, HE, HM.
  repeat split.
  - intros -> Hm. apply Z.eqb_neq in Hm. rewrite Hm. reflexivity.
  - intros -> ->. reflexivity.
  - intros -> ->. reflexivity.
  - intros He.
    destruct (Z.eqb_spec ((r / 1024) mod 32) 0).
    + destruct (r mod 1024); intros H; discriminate H.
    + destruct (Z.eqb_spec ((r / 1024) mod 32) 31); [ contradiction | ].
      destruct (Z.lor (r mod 1024) 0x400); intros H; discriminate H.
Qed.

(** The classes of a single-precision pattern. *)
Lemma f32_class (x : Z) :
  0 <= x < 2 ^ 32 ->
  let e := Z.land (Z.shiftr x 23) 0xff in
  let m := Z.land x 0x7fffff in
  (f32_of_bits x = S754_nan <-> e = 255 /\ m <> 0) /\
  (forall s, f32_of_bits x = S754_infinity s ->
             e = 255 /\ m = 0 /\ s = Z.testbit x 31) /\
  (forall s, f32_of_bits x = S754_zero s ->
             e = 0 /\ s = Z.testbit x 31).
Proof.
  intros Hx. cbv zeta. unfold f32_of_bits. cbv zeta.
  assert (Hm : 0 <= Z.land x 0x7fffff < 2 ^ 23).
  { change 0x7fffff with (Z.ones 23). rewrite Z.land_ones by lia.
    apply Z.mod_pos_bound. lia. }
  assert (Hl : Z.lor (Z.land x 0x7fffff) 0x800000
               = 0x800000 + Z.land x 0x7fffff).
  { rewrite Z.lor_comm. change 0x800000 with (1 * 2 ^ 23) at 1.
    rewrite lor_disjoint by lia. reflexivity. }
  destruct (Z.eqb_spec (Z.land (Z.shiftr x 23) 0xff) 0) as [E0 | E0].
  - rewrite E0.
    destruct (Z.land x 0x7fffff) as [|p|p] eqn:Em;
      (split; [ split; [ discriminate | intros [? _]; discriminate ] | ]);
      (split; [ discriminate | ]).
    + intros s [= <-]. split; reflexivity.
    + discriminate.
    + intros s [= <-]. split; reflexivity.
  - destruct (Z.eqb_spec (Z.land (Z.shiftr x 23) 0xff) 255) as [E1 | E1].
    + destruct (Z.eqb_spec (Z.land x 0x7fffff) 0) as [Em | Em].
      * split; [ split; [ discriminate | intros [_ ?]; contradiction ] | ].
        split; [ | discriminate ].
        intros s [= <-]. repeat split; assumption.
      * split; [ split; [ intros _; split; assumption | reflexivity ] | ].
        split; discriminate.
    + rewrite Hl.
      destruct (0x800000 + Z.land x 0x7fffff) as [|p|p] eqn:Ep; try lia.
      split; [ split; [ discriminate | intros [? _]; contradiction ] | ].
      split; discriminate.
Qed.

(** What [csafetensors_f32_to_f16] returns: the sign bit of the input
    and, below it, a value that stays within the exponent and
    fraction fields. *)
Lemma f32_to_f16_fields (x : Z) :
  0 <= x < 2 ^ 32 ->
  let e := Z.land (Z.shiftr x 23) 0xff in
  let m := Z.land x 0x7fffff in
  exists v : Z,
    csafetensors_f32_to_f16 x
    = (if Z.testbit x 31 then 0x8000 else 0) + v /\
    0 <= v <= 0x7e00 /\
    (e = 0 -> v = 0) /\
    (e = 255 -> v = 0x7c00 + (if m =? 0 then 0 else 0x200)) /\
    (e <> 255 -> v <= 0x7c00).
Proof.
  intros Hx. cbv zeta.
  assert (Hm : 0 <= Z.land x 0x7fffff < 2 ^ 23).
  { change 0x7fffff with (Z.ones 23). rewrite Z.land_ones by lia.
    apply Z.mod_pos_bound. lia. }
  assert (He : 0 <= Z.land (Z.shiftr x 23) 0xff < 256).
  { change 0xff with (Z.ones 8). rewrite Z.land_ones by lia.
    apply Z.mod_pos_bound. lia. }
  unfold csafetensors_f32_to_f16. cbv zeta.
  rewrite sign_of_bits.
  set (e := Z.land (Z.shiftr x 23) 0xff) in *.
  set (m := Z.land x 0x7fffff) in *.
  assert (Hsign : forall w, 0 <= w < 2 ^ 15 ->
            Z.lor (if Z.testbit x 31 then 0x8000 else 0) w
            = (if Z.testbit x 31 then 0x8000 else 0) + w).
  { intros w Hw. destruct (Z.testbit x 31).
    - change 0x8000 with (1 * 2 ^ 15). apply lor_disjoint; lia.
    - apply Z.lor_0_l. }
  assert (Hu : forall w, 0 <= w < 2 ^ 15 ->
            u16 ((if Z.testbit x 31 then 0x8000 else 0) + w)
            = (if Z.testbit x 31 then 0x8000 else 0) + w).
  { intros w Hw. unfold u16. apply Z.mod_small.
    destruct (Z.testbit x 31); lia. }
  destruct (Z.eqb_spec e 0) as [E0 | E0].
  { exists 0. rewrite <- (Hu 0) by lia. rewrite Z.add_0_r.
    repeat split; try lia. }
  destruct (Z.eqb_spec e 255) as [E1 | E1].
  { exists (0x7c00 + (if m =? 0 then 0 else 0x200)).
    split; [ | destruct (m =? 0); repeat split; lia ].
    destruct (Z.testbit x 31), (m =? 0); reflexivity. }
  destruct (Z.geb_spec (e - 127 + 15) 31) as [Hov | Hov].
  { exists 0x7c00. rewrite Hsign by lia.
    split; [ apply Hu; lia | repeat split; lia ]. }
  destruct (Z.leb_spec (e - 127 + 15) 0) as [Hsub | Hnorm].
  - destruct (Z.leb_spec (14 - (e - 127 + 15)) 24) as [Hk | Hk].
    + assert (Hl : Z.lor m 0x800000 = 0x800000 + m).
      { rewrite Z.lor_comm. change 0x800000 with (1 * 2 ^ 23) at 1.
        rewrite lor_disjoint by lia. reflexivity. }
      rewrite Hl.
      assert (Hw : 0 <= Z.shiftr (0x800000 + m) (14 - (e - 127 + 15))
                   < 2 ^ 10).
      { rewrite Z.shiftr_div_pow2 by lia.
        assert (Hp : 2 ^ 14 <= 2 ^ (14 - (e - 127 + 15)))
          by (apply Z.pow_le_mono_r; lia).
        split; [ apply Z.div_pos; lia | ].
        apply Z.div_lt_upper_bound; [ lia | ]. nia. }
      rewrite Hsign by lia. rewrite Hu by lia.
      destruct (negb _).
      * exists (Z.shiftr (0x800000 + m) (14 - (e - 127 + 15)) + 1).
        rewrite <- Z.add_assoc.
        split; [ apply Hu; lia | repeat split; lia ].
      * exists (Z.shiftr (0x800000 + m) (14 - (e - 127 + 15))).
        split; [ reflexivity | repeat split; lia ].
    + exists 0. rewrite <- (Hu 0) by lia. rewrite Z.add_0_r.
      repeat split; lia.
  - assert (Hfrac : 0 <= Z.shiftr m 13 < 2 ^ 10).
    { rewrite Z.shiftr_div_pow2 by lia.
      split; [ apply Z.div_pos; lia | ].
      apply Z.div_lt_upper_bound; lia. }
    assert (Hw : Z.lor (Z.lor (if Z.testbit x 31 then 0x8000 else 0)
                          (Z.shiftl (e - 127 + 15) 10))
                   (Z.shiftr m 13)
                 = (if Z.testbit x 31 then 0x8000 else 0)
                   + ((e - 127 + 15) * 2 ^ 10 + Z.shiftr m 13)).
    { rewrite Z.shiftl_mul_pow2 by lia.
      rewrite Hsign by lia.
      replace ((if Z.testbit x 31 then 0x8000 else 0)
               + (e - 127 + 15) * 2 ^ 10)
        with (((if Z.testbit x 31 then 32 else 0) + (e - 127 + 15))
              * 2 ^ 10)
        by (destruct (Z.testbit x 31); lia).
      rewrite lor_disjoint by lia.
      destruct (Z.testbit x 31); lia. }
    rewrite Hw. rewrite Hu by lia.
    destruct (negb _).
    + exists ((e - 127 + 15) * 2 ^ 10 + Z.shiftr m 13 + 1).
      rewrite <- Z.add_assoc.
      split; [ apply Hu; lia | repeat split; lia ].
    + exists ((e - 127 + 15) * 2 ^ 10 + Z.shiftr m 13).
      split; [ reflexivity | repeat split; lia ].
Qed.

(** X26.  [csafetensors_f32_to_f16] keeps the sign and the class of
    every single-precision pattern: the result is a 16-bit pattern
    with the sign bit of the input; it is a NaN exactly when the input
    is a NaN; an infinity gives the infinity of the same sign, and a
    zero the zero of the same sign. *)
Theorem f32_to_f16_keeps_sign_and_class (x : Z) (Hx : 0 <= x < 2 ^ 32) :
  0 <= csafetensors_f32_to_f16 x < 2 ^ 16 /\
  Z.testbit (csafetensors_f32_to_f16 x) 15 = Z.testbit x 31 /\
  (f16_of_bits (csafetensors_f32_to_f16 x) = S754_nan <->
   f32_of_bits x = S754_nan) /\
  (forall s : bool,
      f32_of_bits x = S754_infinity s ->
      f16_of_bits (csafetensors_f32_to_f16 x) = S754_infinity s) /\
  (forall s : bool,
      f32_of_bits x = S754_zero s ->
      f16_of_bits (csafetensors_f32_to_f16 x) = S754_zero s).
Proof.
  destruct (f32_to_f16_fields x Hx) as (v & Hr & Hv & Hz & Hs & Hf).
  destruct (f32_class x Hx) as (Hnan & Hinf & Hzero).
  set (r := csafetensors_f32_to_f16 x) in *.
  assert (Hb : 0 <= r < 2 ^ 16)
    by (rewrite Hr; destruct (Z.testbit x 31); lia).
  assert (Hbit : Z.testbit r 15 = Z.testbit x 31).
  { rewrite (testbit_top r 15) by (change (15 + 1) with 16; lia).
    rewrite Hr. destruct (Z.testbit x 31);
      [ apply Z.leb_le | apply Z.leb_gt ]; lia. }
  assert (He16 : (r / 1024) mod 32 = v / 1024 /\ r mod 1024 = v mod 1024).
  { rewrite Hr. destruct (Z.testbit x 31);
      Z.div_mod_to_equations; lia. }
  destruct He16 as [He16 Hm16].
  destruct (f16_class r (Z.testbit x 31) Hb Hbit) as (Cnan & Cinf & Czero & Cfin).
  rewrite He16 in Cnan, Cinf, Czero, Cfin.
  rewrite Hm16 in Cnan, Cinf, Czero.
  split; [ exact Hb | split; [ exact Hbit | ] ].
  split; [ split | split ].
  - intros Hn. apply Hnan.
    destruct (Z.eq_dec (Z.land (Z.shiftr x 23) 0xff) 255) as [E | E].
    + split; [ exact E | ]. intros Hm0. specialize (Hs E).
      rewrite Hm0 in Hs. cbn in Hs. subst v.
      rewrite (Cinf eq_refl eq_refl) in Hn. discriminate.
    + exfalso. specialize (Hf E).
      destruct (Z.eq_dec v 0x7c00) as [-> | Hne].
      * rewrite (Cinf eq_refl eq_refl) in Hn. discriminate.
      * apply Cfin; [ | exact Hn ]. Z.div_mod_to_equations. lia.
  - intros Hn. apply Hnan in Hn. destruct Hn as [E Hm0].
    specialize (Hs E). apply Z.eqb_neq in Hm0. rewrite Hm0 in Hs. subst v.
    apply Cnan; [ reflexivity | discriminate ].
  - intros s Hi. destruct (Hinf s Hi) as (E & Hm0 & ->).
    specialize (Hs E). rewrite Hm0 in Hs. cbn in Hs. subst v.
    apply Cinf; reflexivity.
  - intros s Hzr. destruct (Hzero s Hzr) as (E & ->).
    rewrite (Hz E) in *. apply Czero; reflexivity.
Qed.

Lemma f32_to_f16_keeps_sign_and_class_witness :
  0 <= csafetensors_f32_to_f16 0xff800001 < 2 ^ 16 /\
  Z.testbit (csafetensors_f32_to_f16 0xff800001) 15
  = Z.testbit 0xff800001 31 /\
  (f16_of_bits (csafetensors_f32_to_f16 0xff800001) = S754_nan <->
   f32_of_bits 0xff800001 = S754_nan) /\
  (forall s : bool,
      f32_of_bits 0xff800001 = S754_infinity s ->
      f16_of_bits (csafetensors_f32_to_f16 0xff800001) = S754_infinity s) /\
  (forall s : bool,
      f32_of_bits 0xff800001 = S754_zero s ->
      f16_of_bits (csafetensors_f32_to_f16 0xff800001) = S754_zero s).
Proof. apply (f32_to_f16_keeps_sign_and_class 0xff800001). lia. Defined.

Lemma land_bit (a n : Z) :
  0 <= n -> Z.land a (2 ^ n) = if Z.testbit a n then 2 ^ n else 0.
Proof.
  intros Hn. apply Z.bits_inj'. intros k Hk.
  rewrite Z.land_spec, Z.pow2_bits_eqb by lia.
  destruct (Z.eqb_spec n k) as [<- | Hne].
  - destruct (Z.testbit a n);
      [ rewrite Z.pow2_bits_eqb by lia; now rewrite Z.eqb_refl
      | now rewrite Z.bits_0 ].
  - rewrite andb_false_r. destruct (Z.testbit a n).
    + rewrite Z.pow2_bits_eqb by lia. symmetry. now apply Z.eqb_neq.
    + now rewrite Z.bits_0.
Qed.

(** The fields of a single-precision pattern add up to it. *)
Lemma f32_fields (x : Z) :
  0 <= x < 2 ^ 32 ->
  x = (if Z.testbit x 31 then 2 ^ 31 else 0)
      + Z.land (Z.shiftr x 23) 0xff * 2 ^ 23 + Z.land x 0x7fffff /\
  0 <= Z.land (Z.shiftr x 23) 0xff < 256 /\
  0 <= Z.land x 0x7fffff < 2 ^ 23.
Proof.
  intros Hx.
  rewrite (testbit_top x 31) by (change (31 + 1) with 32; lia).
  rewrite Z.shiftr_div_pow2 by lia.
  change 0xff with (Z.ones 8). change 0x7fffff with (Z.ones 23).
  rewrite !Z.land_ones by lia.
  change (2 ^ 32) with 4294967296 in Hx.
  change (2 ^ 31) with 2147483648. change (2 ^ 23) with 8388608.
  change (2 ^ 8) with 256.
  destruct (Z.leb_spec 2147483648 x); Z.div_mod_to_equations; lia.
Qed.

(** In the range of the normal halves, the exponent and fraction
    fields of the result are those of the input, rebiased and rounded
    at bit 13 with a half rounded up. *)
Lemma f32_to_f16_normal (x : Z) :
  0 <= x < 2 ^ 32 ->
  113 <= Z.land (Z.shiftr x 23) 0xff <= 142 ->
  csafetensors_f32_to_f16 x
  = (if Z.testbit x 31 then 0x8000 else 0)
    + ((Z.land (Z.shiftr x 23) 0xff - 112) * 2 ^ 23
       + Z.land x 0x7fffff + 2 ^ 12) / 2 ^ 13.
Proof.
  intros Hx He.
  destruct (f32_fields x Hx) as (_ & _ & Hm).
  unfold csafetensors_f32_to_f16. cbv zeta.
  rewrite sign_of_bits.
  set (e := Z.land (Z.shiftr x 23) 0xff) in *.
  set (m := Z.land x 0x7fffff) in *.
  destruct (Z.eqb_spec e 0); [ lia | ].
  destruct (Z.eqb_spec e 255); [ lia | ].
  destruct (Z.geb_spec (e - 127 + 15) 31); [ lia | ].
  destruct (Z.leb_spec (e - 127 + 15) 0); [ lia | ].
  assert (Hfrac : 0 <= Z.shiftr m 13 < 2 ^ 10).
  { rewrite Z.shiftr_div_pow2 by lia.
    split; [ apply Z.div_pos; lia | ].
    apply Z.div_lt_upper_bound; lia. }
  assert (Hw : Z.lor (Z.lor (if Z.testbit x 31 then 0x8000 else 0)
                        (Z.shiftl (e - 127 + 15) 10))
                 (Z.shiftr m 13)
               = (if Z.testbit x 31 then 0x8000 else 0)
                 + ((e - 127 + 15) * 2 ^ 10 + Z.shiftr m 13)).
  { rewrite Z.shiftl_mul_pow2 by lia.
    assert (Hs : Z.lor (if Z.testbit x 31 then 0x8000 else 0)
                   ((e - 127 + 15) * 2 ^ 10)
                 = ((if Z.testbit x 31 then 32 else 0) + (e - 127 + 15))
                   * 2 ^ 10).
    { destruct (Z.testbit x 31).
      - change 0x8000 with (1 * 2 ^ 15).
        rewrite lor_disjoint by lia. lia.
      - rewrite Z.lor_0_l. lia. }
    rewrite Hs, lor_disjoint by lia.
    destruct (Z.testbit x 31); lia. }
  rewrite Hw.
  assert (Hu : forall w, 0 <= w < 2 ^ 15 ->
            u16 ((if Z.testbit x 31 then 0x8000 else 0) + w)
            = (if Z.testbit x 31 then 0x8000 else 0) + w).
  { intros w Hw'. unfold u16. apply Z.mod_small.
    destruct (Z.testbit x 31); lia. }
  rewrite Hu by lia.
  change 0x1000 with (2 ^ 12). rewrite land_bit by lia.
  rewrite Z.testbit_odd, !Z.shiftr_div_pow2 by lia.
  rewrite Z.shiftr_div_pow2 in Hfrac by lia.
  pose proof (Zmod_odd (m / 2 ^ 12)) as Hodd.
  change (2 ^ 10) with 1024 in *. change (2 ^ 12) with 4096 in *.
  change (2 ^ 13) with 8192 in *. change (2 ^ 23) with 8388608 in *.
  destruct (Z.odd (m / 4096)); cbn [negb Z.eqb].
  - rewrite <- Z.add_assoc. rewrite Hu by lia. f_equal.
    Z.div_mod_to_equations. lia.
  - f_equal. Z.div_mod_to_equations. lia.
Qed.

(** [csafetensors_f16_to_f32] on a normal half: the ten fraction bits
    moved up by 13 places and the exponent rebiased by 112. *)
Lemma f16_to_f32_normal (s : bool) (v : Z) :
  1024 <= v < 0x7c00 ->
  csafetensors_f16_to_f32 ((if s then 0x8000 else 0) + v)
  = (if s then 2 ^ 31 else 0) + v * 2 ^ 13 + 112 * 2 ^ 23.
Proof.
  intros Hv. unfold csafetensors_f16_to_f32. cbv zeta.
  assert (Hlow : Z.land ((if s then 0x8000 else 0) + v) 0x7fff = v).
  { change 0x7fff with (Z.ones 15). rewrite Z.land_ones by lia.
    change (2 ^ 15) with 32768.
    destruct s; Z.div_mod_to_equations; lia. }
  assert (Hhigh : Z.land ((if s then 0x8000 else 0) + v) 0x8000
                  = if s then 0x8000 else 0).
  { change 0x8000 with (2 ^ 15) at 2. rewrite land_bit by lia.
    rewrite (testbit_top _ 15)
      by (change (15 + 1) with 16; destruct s; lia).
    destruct s; [ rewrite (proj2 (Z.leb_le _ _)) by lia
                | rewrite (proj2 (Z.leb_gt _ _)) by lia ]; reflexivity. }
  rewrite Hlow, Hhigh.
  rewrite !Z.shiftl_mul_pow2 by lia.
  change (0x7c00 * 2 ^ 13) with (31 * 2 ^ 23).
  change ((127 - 15) * 2 ^ 23) with (112 * 2 ^ 23).
  assert (Hexp : Z.land (31 * 2 ^ 23) (v * 2 ^ 13)
                 = v / 1024 * 2 ^ 23).
  { rewrite Z.land_comm.
    replace (v * 2 ^ 13) with (Z.shiftl v 13)
      by (rewrite Z.shiftl_mul_pow2; lia).
    change (31 * 2 ^ 23) with (Z.shiftl (Z.shiftl 31 10) 13).
    rewrite <- Z.shiftl_land.
    assert (Hv10 : Z.land v (Z.shiftl 31 10) = v / 1024 * 1024).
    { apply Z.bits_inj'. intros k Hk.
      rewrite Z.land_spec.
      replace (v / 1024 * 1024) with (Z.shiftl (Z.shiftr v 10) 10)
        by (rewrite Z.shiftl_mul_pow2, Z.shiftr_div_pow2 by lia;
            reflexivity).
      destruct (Z.lt_ge_cases k 10) as [Hlt | Hge].
      - rewrite !Z.shiftl_spec_low by lia. apply andb_false_r.
      - rewrite !Z.shiftl_spec by lia. rewrite Z.shiftr_spec by lia.
        replace (k - 10 + 10) with k by lia.
        destruct (Z.lt_ge_cases k 15) as [Hlt | Hge'].
        + change 31 with (Z.ones 5). rewrite Z.ones_spec_low by lia.
          apply andb_true_r.
        + rewrite (Z.bits_above_log2 v k); [ reflexivity | lia | ].
          apply Z.log2_lt_pow2; [ lia | ].
          assert (2 ^ 15 <= 2 ^ k) by (apply Z.pow_le_mono_r; lia).
          lia. }
    rewrite Hv10, Z.shiftl_mul_pow2 by lia.
    change (2 ^ 23) with (1024 * 2 ^ 13). lia. }
  rewrite Hexp.
  assert (Hq : 1 <= v / 1024 <= 30) by (Z.div_mod_to_equations; lia).
  destruct (Z.eqb_spec (v / 1024 * 2 ^ 23) (31 * 2 ^ 23)); [ lia | ].
  destruct (Z.eqb_spec (v / 1024 * 2 ^ 23) 0); [ lia | ].
  unfold u32. rewrite Z.mod_small by lia.
  destruct s.
  - change (0x8000 * 2 ^ 16) with (1 * 2 ^ 31).
    rewrite Z.lor_comm, lor_disjoint by lia. lia.
  - change (0 * 2 ^ 16) with 0. rewrite Z.lor_0_r. lia.
Qed.

(** X27.  In the range of the normal halves, narrowing to half
    precision rounds to the nearest half, a tie going away from zero:
    for a single-precision pattern whose exponent field is between 113
    and 142 and whose rounding does not reach the infinity, the half
    that [csafetensors_f32_to_f16] returns, widened again by
    [csafetensors_f16_to_f32], is at most [2^12] single-precision
    patterns away, which is half the distance between two halves. *)
Theorem f32_to_f16_rounds_to_nearest (x : Z)
  (Hx : 0 <= x < 2 ^ 32)
  (Hexp : 113 <= Z.land (Z.shiftr x 23) 0xff <= 142)
  (Hfinite : (Z.land (Z.shiftr x 23) 0xff - 112) * 2 ^ 23
             + Z.land x 0x7fffff + 2 ^ 12 < 31 * 2 ^ 23) :
  - 2 ^ 12 < csafetensors_f16_to_f32 (csafetensors_f32_to_f16 x) - x
  <= 2 ^ 12.
Proof.
  destruct (f32_fields x Hx) as (Hsum & He & Hm).
  rewrite (f32_to_f16_normal x Hx Hexp).
  set (e := Z.land (Z.shiftr x 23) 0xff) in *.
  set (m := Z.land x 0x7fffff) in *.
  change (2 ^ 12) with 4096 in *. change (2 ^ 13) with 8192 in *.
  change (2 ^ 23) with 8388608 in *.
  assert (Hv : 1024 <= ((e - 112) * 8388608 + m + 4096) / 8192 < 0x7c00)
    by (Z.div_mod_to_equations; lia).
  rewrite (f16_to_f32_normal (Z.testbit x 31) _ Hv).
  change (2 ^ 13) with 8192. change (2 ^ 23) with 8388608.
  rewrite Hsum at 2 4.
  change (2 ^ 31) with 2147483648.
  destruct (Z.testbit x 31); Z.div_mod_to_equations; lia.
Qed.

Lemma f32_to_f16_rounds_to_nearest_witness :
  - 2 ^ 12
  < csafetensors_f16_to_f32 (csafetensors_f32_to_f16 0x3f801000)
    - 0x3f801000
  <= 2 ^ 12.
Proof.
  apply (f32_to_f16_rounds_to_nearest 0x3f801000).
  - lia.
  - vm_compute. split; discriminate.
  - vm_compute. reflexivity.
Defined.

(** ** Unicode escapes *)

Lemma lor_high (c n b : Z) (a : Z) :
  0 <= n -> c = a * 2 ^ n -> 0 <= b < 2 ^ n -> Z.lor c b = c + b.
Proof. intros Hn -> Hb. now apply lor_disjoint. Qed.

Lemma low_six (z : Z) : Z.land z 0x3F = z mod 64.
Proof. change 0x3F with (Z.ones 6). now rewrite Z.land_ones by lia. Qed.

Lemma utf8_encode_values (cp : Z) :
  0 <= cp < 0x200000 ->
  map u8 (utf8_encode cp) =
  if cp <? 0x80 then [cp]
  else if cp <? 0x800 then [0xC0 + cp / 64; 0x80 + cp mod 64]
  else if cp <? 0x10000
  then [0xE0 + cp / 4096; 0x80 + cp / 64 mod 64; 0x80 + cp mod 64]
  else [0xF0 + cp / 262144; 0x80 + cp / 4096 mod 64;
        0x80 + cp / 64 mod 64; 0x80 + cp mod 64].
Proof.
  intros Hcp. unfold utf8_encode.
  assert (Hc : forall z, Z.lor 0x80 (Z.land z 0x3F) = 0x80 + z mod 64).
  { intros z. rewrite low_six.
    apply (lor_high 0x80 6 (z mod 64) 2); [ lia | reflexivity | ].
    apply Z.mod_pos_bound. lia. }
  assert (Hs : forall k, 0 <= k -> Z.shiftr cp k = cp / 2 ^ k)
    by (intros k Hk; now apply Z.shiftr_div_pow2).
  destruct (Z.ltb_spec cp 0x80); [ | destruct (Z.ltb_spec cp 0x800);
    [ | destruct (Z.ltb_spec cp 0x10000) ] ];
    cbn [map]; rewrite ?u8_byte_of_Z, ?Hc, ?Hs by lia;
    change (2 ^ 6) with 64; change (2 ^ 12) with 4096;
    change (2 ^ 18) with 262144.
  - rewrite Z.mod_small by lia. reflexivity.
  - rewrite (lor_high 0xC0 6 (cp / 64) 3)
      by (try reflexivity; Z.div_mod_to_equations; lia).
    repeat (apply f_equal2;
            [ apply Z.mod_small; Z.div_mod_to_equations; lia | ]);
      reflexivity.
  - rewrite (lor_high 0xE0 4 (cp / 4096) 14)
      by (try reflexivity; Z.div_mod_to_equations; lia).
    repeat (apply f_equal2;
            [ apply Z.mod_small; Z.div_mod_to_equations; lia | ]);
      reflexivity.
  - rewrite (lor_high 0xF0 3 (cp / 262144) 30)
      by (try reflexivity; Z.div_mod_to_equations; lia).
    repeat (apply f_equal2;
            [ apply Z.mod_small; Z.div_mod_to_equations; lia | ]);
      reflexivity.
Qed.

Lemma hex4_range (c0 c1 c2 c3 : byte) (cp : Z) :
  hex4 c0 c1 c2 c3 = Some cp -> 0 <= cp < 0x10000.
Proof.
  assert (Hd : forall c, (json_hex_digit c <? 0) = false ->
                         0 <= json_hex_digit c < 2 ^ 4).
  { intros c. unfold json_hex_digit. cbv zeta.
    destruct ((48 <=? u8 c) && (u8 c <=? 57)) eqn:E1;
      [ apply andb_true_iff in E1; lia | ].
    destruct ((97 <=? u8 c) && (u8 c <=? 102)) eqn:E2;
      [ apply andb_true_iff in E2; lia | ].
    destruct ((65 <=? u8 c) && (u8 c <=? 70)) eqn:E3;
      [ apply andb_true_iff in E3; lia | ].
    discriminate. }
  assert (Hstep : forall acc c, 0 <= json_hex_digit c < 2 ^ 4 ->
             Z.lor (Z.shiftl acc 4) (json_hex_digit c)
             = acc * 2 ^ 4 + json_hex_digit c).
  { intros acc c Hc. rewrite Z.shiftl_mul_pow2 by lia.
    now apply lor_disjoint. }
  unfold hex4. cbv zeta.
  destruct (json_hex_digit c0 <? 0) eqn:E0; [ discriminate | ].
  destruct (json_hex_digit c1 <? 0) eqn:E1; [ discriminate | ].
  destruct (json_hex_digit c2 <? 0) eqn:E2; [ discriminate | ].
  destruct (json_hex_digit c3 <? 0) eqn:E3; [ discriminate | ].
  apply Hd in E0, E1, E2, E3.
  rewrite !Hstep by assumption.
  intros [= <-]. change (2 ^ 4) with 16 in *. lia.
Qed.

(** * Numbers, duplicate keys and long strings *)

(** ** Numbers in a tensor entry *)

(** The conversion is defined exactly where the truncated value is a
    [size_t]. *)
Lemma truncation_size_t (d : spec_float) (v : Z) :
  truncation_of d v -> size_t_of_double d = Some v.
Proof.
  unfold truncation_of, size_t_of_double, SIZE_MAX.
  destruct d as [s|s| |s m e]; intros [Hv Hd]; try contradiction.
  - now subst v.
  - destruct Hd as [Hs He]. cbv zeta.
    assert (Ht : (if 0 <=? e then Z.pos m * 2 ^ e
                  else Z.pos m / 2 ^ (- e)) = v).
    { destruct (Z.leb_spec 0 e); [ now symmetry | ].
      assert (Hp : 0 < 2 ^ (- e)) by (apply Z.pow_pos_nonneg; lia).
      symmetry. apply Z.div_unique with (r := Z.pos m - v * 2 ^ (- e)); nia. }
    rewrite Ht. destruct s.
    + subst v. reflexivity.
    + destruct (Z.leb_spec v (2 ^ 64 - 1)); [ reflexivity | lia ].
Qed.

Lemma stored_as_casts (items : list json_value) (vs : list Z) :
  Forall2 stored_as items vs ->
  exists ds : list spec_float,
    items = map JSON_NUMBER ds /\
    Forall2 (fun d v => size_t_of_double d = Some v) ds vs.
Proof.
  induction 1 as [|j v items vs (d & -> & Hd) _ (ds & -> & Hall)].
  - exists []. split; [ reflexivity | constructor ].
  - exists (d :: ds). split; [ reflexivity | ].
    constructor; [ now apply truncation_size_t | exact Hall ].
Qed.

Lemma parse_shape_refuses (tname : list byte) (pre post : list json_value)
  (j : json_value) (vs : list Z) :
  Forall2 stored_as pre vs ->
  (forall d, j <> JSON_NUMBER d) ->
  forall e0 : bool,
    parse_shape tname (pre ++ j :: post) e0
    = Error (Invalid_shape_dimension tname).
Proof.
  intros Hpre Hj.
  induction Hpre as [|x v pre vs (d & -> & Hd) _ IH]; intros e0;
    cbn [app parse_shape].
  - destruct j; try reflexivity. now destruct (Hj number).
  - unfold cast_size_t. rewrite (truncation_size_t _ _ Hd). cbn [bind].
    now rewrite IH.
Qed.

(** C3, as the code has it.  For an entry with a dtype and a shape of
    at most 8 elements: an element of "shape" or of "data_offsets"
    that is not a JSON number makes [parse_tensor] refuse the entry;
    when they are all numbers the entry is accepted whatever the
    numbers are, integers or not, and each is stored as its value
    truncated toward zero; and this is all that an accepted entry can
    hold. *)
Theorem numbers_are_stored_truncated (tname : list byte)
  (obj : json_value) (dt : csafetensors_dtype_t)
  (items : list json_value)
  (Hobj : exists pairs, obj = JSON_OBJECT pairs)
  (Hdtype : json_object_get obj (lit "dtype")
            = Some (JSON_STRING (csafetensors_dtype_name dt)))
  (Hshape : json_object_get obj (lit "shape") = Some (JSON_ARRAY items))
  (Hrank : (length items <= 8)%nat) :
  (forall (vs : list Z) (b e : json_value) (bv ev : Z),
      Forall2 stored_as items vs ->
      existsb (Z.eqb 0) vs = false ->
      json_object_get obj (lit "data_offsets") = Some (JSON_ARRAY [b; e]) ->
      stored_as b bv -> stored_as e ev ->
      parse_tensor tname obj
      = Ok {| name := firstn 4095 tname; dtype := dt; shape := vs;
              data_offset_begin := bv; data_offset_end := ev |}) /\
  (forall vs : list Z,
      Forall2 stored_as items vs ->
      existsb (Z.eqb 0) vs = true ->
      json_object_get obj (lit "data_offsets") = None ->
      parse_tensor tname obj
      = Ok {| name := firstn 4095 tname; dtype := dt; shape := vs;
              data_offset_begin := 0; data_offset_end := 0 |}) /\
  (forall (pre post : list json_value) (j : json_value) (vs : list Z),
      items = pre ++ j :: post ->
      Forall2 stored_as pre vs ->
      (forall d, j <> JSON_NUMBER d) ->
      parse_tensor tname obj = Error (Invalid_shape_dimension tname)) /\
  (forall (vs : list Z) (b e : json_value),
      Forall2 stored_as items vs ->
      existsb (Z.eqb 0) vs = false ->
      json_object_get obj (lit "data_offsets") = Some (JSON_ARRAY [b; e]) ->
      (forall d, b <> JSON_NUMBER d) \/ (forall d, e <> JSON_NUMBER d) ->
      parse_tensor tname obj = Error (Invalid_data_offsets tname)) /\
  (forall t : csafetensors_tensor_t,
      parse_tensor tname obj = Ok t ->
      Forall2 stored_as items (shape t) /\
      ((is_empty_tensor t = true /\
        data_offset_begin t = 0 /\ data_offset_end t = 0) \/
       (exists b e : json_value,
           json_object_get obj (lit "data_offsets")
           = Some (JSON_ARRAY [b; e])
           /\ stored_as b (data_offset_begin t)
           /\ stored_as e (data_offset_end t)))).
Proof.
  destruct Hobj as [pairs ->].
  assert (Hdt : parse_dtype_string (csafetensors_dtype_name dt) = Some dt)
    by (destruct dt; vm_compute; reflexivity).
  assert (Hlen : (CSAFETENSORS_MAX_DIM <? Z.of_nat (length items)) = false).
  { apply Z.ltb_ge. unfold CSAFETENSORS_MAX_DIM. lia. }
  assert (Hhead : forall k : res (list Z * bool) -> res csafetensors_tensor_t,
             True) by (intros; exact I).
  clear Hhead.
  split; [ | split; [ | split; [ | split ] ] ].
  - intros vs b e bv ev Hall Hz Hoff (bn & -> & Hb) (en & -> & He).
    destruct (stored_as_casts _ _ Hall) as (ds & -> & Hcast).
    pose proof (parse_shape_accepts tname ds vs false Hcast) as Hsh.
    cbn [orb] in Hsh.
    unfold parse_tensor.
    rewrite Hdtype, Hdt, Hshape, Hlen, Hsh. cbn [bind].
    rewrite Hz, Hoff. unfold cast_size_t.
    rewrite (truncation_size_t _ _ Hb), (truncation_size_t _ _ He).
    reflexivity.
  - intros vs Hall Hz Hoff.
    destruct (stored_as_casts _ _ Hall) as (ds & -> & Hcast).
    pose proof (parse_shape_accepts tname ds vs false Hcast) as Hsh.
    cbn [orb] in Hsh.
    unfold parse_tensor.
    rewrite Hdtype, Hdt, Hshape, Hlen, Hsh. cbn [bind].
    rewrite Hz, Hoff. reflexivity.
  - intros pre post j vs -> Hpre Hj.
    unfold parse_tensor.
    rewrite Hdtype, Hdt, Hshape, Hlen.
    rewrite (parse_shape_refuses tname pre post j vs Hpre Hj).
    reflexivity.
  - intros vs b e Hall Hz Hoff Hbad.
    destruct (stored_as_casts _ _ Hall) as (ds & -> & Hcast).
    pose proof (parse_shape_accepts tname ds vs false Hcast) as Hsh.
    cbn [orb] in Hsh.
    unfold parse_tensor.
    rewrite Hdtype, Hdt, Hshape, Hlen, Hsh. cbn [bind].
    rewrite Hz, Hoff.
    destruct Hbad as [Hb | He].
    + destruct b; try reflexivity. now destruct (Hb number).
    + destruct b; try reflexivity.
      destruct e; try reflexivity. now destruct (He number0).
  - intros t Hok.
    destruct (parse_tensor_ok _ _ _ Hok)
      as (s & dims & emp & _ & _ & Hshape' & _ & Hshp & _ & Hoff).
    assert (dims = items) by congruence. subst dims.
    destruct (parse_shape_ok _ _ _ _ _ Hshp) as [Hall Hemp].
    split.
    + clear - Hall. induction Hall as [|j v dims shp (d & -> & Hd) _ IH];
        constructor; [ | exact IH ].
      exists d. split; [ reflexivity | now apply size_t_of_double_truncation ].
    + destruct emp.
      * left. destruct Hoff as (_ & Hb & He).
        unfold is_empty_tensor. cbn [orb] in Hemp. now rewrite <- Hemp.
      * right. destruct Hoff as (bn & en & Hget & Hb & He).
        exists (JSON_NUMBER bn), (JSON_NUMBER en).
        split; [ exact Hget | ].
        split; eexists; (split; [ reflexivity | ]);
          now apply size_t_of_double_truncation.
Qed.

Lemma numbers_are_stored_truncated_witness :
  parse_tensor (lit "a") fractional_entry
  = Ok {| name := firstn 4095 (lit "a"); dtype := CSAFETENSORS_DTYPE_UINT8;
          shape := [2]; data_offset_begin := 0; data_offset_end := 2 |} /\
  parse_tensor (lit "c") text_in_shape_entry
  = Error (Invalid_shape_dimension (lit "c")).
Proof.
  assert (Hnum : forall (s : bool) (m : positive) (e v : Z),
             size_t_of_double (S754_finite s m e) = Some v ->
             stored_as (JSON_NUMBER (S754_finite s m e)) v).
  { intros s m e v Hv. eexists. split; [ reflexivity | ].
    now apply size_t_of_double_truncation. }
  split.
  - assert (Hobj : exists pairs, fractional_entry = JSON_OBJECT pairs)
      by (eexists; vm_compute; reflexivity).
    assert (Hdtype : json_object_get fractional_entry (lit "dtype")
                     = Some (JSON_STRING
                               (csafetensors_dtype_name
                                  CSAFETENSORS_DTYPE_UINT8)))
      by (vm_compute; reflexivity).
    assert (Hshape : json_object_get fractional_entry (lit "shape")
                     = Some (JSON_ARRAY
                               [JSON_NUMBER
                                  (S754_finite false 5629499534213120
                                     (-51))]))
      by (vm_compute; reflexivity).
    assert (Hoff : json_object_get fractional_entry (lit "data_offsets")
                   = Some (JSON_ARRAY
                             [JSON_NUMBER
                                (S754_finite false 4503599627370496 (-53));
                              JSON_NUMBER
                                (S754_finite false 6079859496950170 (-51))]))
      by (vm_compute; reflexivity).
    apply (proj1 (numbers_are_stored_truncated (lit "a") fractional_entry
                    CSAFETENSORS_DTYPE_UINT8 _ Hobj Hdtype Hshape
                    ltac:(cbn [length]; lia))
             [2]
             (JSON_NUMBER (S754_finite false 4503599627370496 (-53)))
             (JSON_NUMBER (S754_finite false 6079859496950170 (-51)))
             0 2).
    + constructor; [ apply Hnum; vm_compute; reflexivity | constructor ].
    + reflexivity.
    + exact Hoff.
    + apply Hnum. vm_compute. reflexivity.
    + apply Hnum. vm_compute. reflexivity.
  - assert (Hobj : exists pairs, text_in_shape_entry = JSON_OBJECT pairs)
      by (eexists; vm_compute; reflexivity).
    assert (Hdtype : json_object_get text_in_shape_entry (lit "dtype")
                     = Some (JSON_STRING
                               (csafetensors_dtype_name
                                  CSAFETENSORS_DTYPE_UINT8)))
      by (vm_compute; reflexivity).
    assert (Hshape : json_object_get text_in_shape_entry (lit "shape")
                     = Some (JSON_ARRAY
                               ([JSON_NUMBER
                                   (S754_finite false 4503599627370496
                                      (-51))]
                                ++ JSON_STRING (lit "3") :: [])))
      by (vm_compute; reflexivity).
    apply (proj1 (proj2 (proj2
             (numbers_are_stored_truncated (lit "c") text_in_shape_entry
                CSAFETENSORS_DTYPE_UINT8 _ Hobj Hdtype Hshape
                ltac:(cbn [length app]; lia))))
             [JSON_NUMBER (S754_finite false 4503599627370496 (-51))] []
             (JSON_STRING (lit "3")) [2]).
    + reflexivity.
    + constructor; [ apply Hnum; vm_compute; reflexivity | constructor ].
    + intros d. discriminate.
Defined.

(** ** Duplicate keys *)











(** ** Strings cut to the size of their buffers *)

(** C9.  The name of a tensor is stored cut to 4095 bytes, and so are
    the key and the value of a metadata entry: the stored names are
    the first 4095 bytes of the keys of the tensor entries, in order,
    and the stored metadata are the string-valued pairs of the
    metadata object with key and value cut alike.  [long_name_file]
    has one tensor with a name of 4096 bytes: the load succeeds, a
    lookup with that name finds nothing, a lookup with its first 4095
    bytes finds the tensor.  [colliding_file] has two tensors whose
    names differ in byte 4096 only: both are stored under one name.
    [long_metadata_file] has a metadata key of 4096 bytes with a value
    of 5000 bytes: both are stored cut, and a lookup with the whole
    key finds nothing. *)
Theorem long_names_are_cut :
  (forall (bytes : list byte) (st : csafetensors_t),
      loaded_from bytes st ->
      Forall (fun t => exists k v,
                  In (k, v) (pairs_of (parsed (header_json bytes))) /\
                  name t = firstn stored_len k)
        (tensors st) /\
      Forall (fun m => exists mk mpairs k s,
                  In (mk, JSON_OBJECT mpairs)
                    (pairs_of (parsed (header_json bytes))) /\
                  In (k, JSON_STRING s) mpairs /\
                  key m = firstn stored_len k /\
                  value m = firstn stored_len s)
        (metadata st)) /\
  (forall (bytes : list byte) (st : csafetensors_t),
      loaded_from bytes st ->
      map name (tensors st)
      = map (firstn stored_len)
          (map fst (filter is_tensor_entry
                      (pairs_of (parsed (header_json bytes))))) /\
      metadata st
      = metadata_of_pairs
          (header_metadata_pairs (pairs_of (parsed (header_json bytes))))) /\
  (csafetensors_load_from_memory buf_addr long_name_file block_addr
   = Loaded long_name_st /\
   length long_name = 4096%nat /\
   map fst (pairs_of (parsed (header_json long_name_file))) = [long_name] /\
   map name (tensors long_name_st) = [firstn stored_len long_name] /\
   csafetensors_get_tensor long_name_st long_name = None /\
   csafetensors_get_tensor long_name_st (firstn stored_len long_name)
   = nth_error (tensors long_name_st) 0) /\
  (csafetensors_load_from_memory buf_addr colliding_file block_addr
   = Loaded colliding_st /\
   map fst (pairs_of (parsed (header_json colliding_file)))
   = [long_name_b; long_name_c] /\
   long_name_b <> long_name_c /\
   map name (tensors colliding_st)
   = [firstn stored_len long_name_b; firstn stored_len long_name_c] /\
   firstn stored_len long_name_b = firstn stored_len long_name_c) /\
  (csafetensors_load_from_memory buf_addr long_metadata_file block_addr
   = Loaded long_metadata_st /\
   header_metadata_pairs (pairs_of (parsed (header_json long_metadata_file)))
   = [(long_meta_key, JSON_STRING long_meta_value)] /\
   length long_meta_key = 4096%nat /\ length long_meta_value = 5000%nat /\
   metadata long_metadata_st
   = [{| key := repeat x6b 4095; value := repeat x76 4095 |}] /\
   csafetensors_get_metadata long_metadata_st long_meta_key = None /\
   csafetensors_get_metadata long_metadata_st (repeat x6b 4095)
   = Some (repeat x76 4095)).
Proof.
  split; [ | split; [ | split; [ | split ] ] ].
  - intros bytes st Hload.
    destruct (loaded_directory _ _ Hload) as (h & Hh & Ht & Hm).
    destruct (parse_header_ok _ _ Hh) as (pairs & rest & Hj & Hall & Hmeta).
    rewrite (parsed_object _ _ _ Hj), Ht, Hm. split.
    + eapply Forall_impl; [ | exact (Forall2_Forall_r _ _ _ Hall) ].
      intros t ([k v] & Hin & Hkv). cbn [fst snd] in Hkv.
      apply filter_In in Hin. destruct Hin as [Hin _].
      destruct (parse_tensor_ok _ _ _ Hkv)
        as (s & dims & emp & _ & _ & _ & _ & _ & Hname & _).
      exists k, v. split; [ exact Hin | exact Hname ].
    + destruct Hmeta as [-> | (mk & mpairs & n & Hin & ->)];
        [ constructor | ].
      eapply Forall_impl; [ | exact (stored_values (firstn n mpairs)) ].
      intros m (k & s & Hks & Hk & Hv).
      exists mk, mpairs, k, s.
      split; [ exact Hin | ].
      split; [ eapply In_firstn; exact Hks | now split ].
  - intros bytes st Hload.
    destruct (loaded_entries _ _ Hload) as (pairs & rest & Hj & _ & Hall).
    rewrite (parsed_object _ _ _ Hj).
    split; [ exact (stored_names _ _ Hall)
           | exact (loaded_metadata bytes st pairs rest Hload Hj) ].
  - split; [ vm_compute; reflexivity | ].
    split; [ vm_compute; reflexivity | ].
    split; [ vm_compute; reflexivity | ].
    split; [ vm_compute; reflexivity | ].
    split; vm_compute; reflexivity.
  - split; [ vm_compute; reflexivity | ].
    split; [ vm_compute; reflexivity | ].
    split.
    { intros Heq. apply (f_equal (fun l => nth 4095 l x00)) in Heq.
      vm_compute in Heq. discriminate. }
    split; vm_compute; reflexivity.
  - assert (Hm : metadata long_metadata_st
                 = [{| key := repeat x6b 4095; value := repeat x76 4095 |}])
      by (vm_compute; reflexivity).
    split; [ vm_compute; reflexivity | ].
    split; [ vm_compute; reflexivity | ].
    split; [ reflexivity | ].
    split; [ reflexivity | ].
    split; [ exact Hm | ].
    unfold csafetensors_get_metadata. rewrite Hm.
    split; vm_compute; reflexivity.
Qed.

(** ** A header that is not a JSON object *)

Lemma header_outcome (bytes : list byte) :
  size_check (Z.of_nat (length bytes)) (read_u64_le bytes) = None ->
  parse_safetensors_header bytes
  = match json_parse (header_json bytes) with
    | PFuel => Undefined
    | PErr e => Error (JSON_parse_error e)
    | POk (JSON_OBJECT pairs) _ =>
        let '(n_tens, n_meta) := count_entries pairs in
        do r <- parse_entries n_tens n_meta pairs [] [];
        Ok {| h_header_size := read_u64_le bytes;
              h_tensors := fst r; h_metadata := snd r |}
    | POk _ _ => Error Root_must_be_object
    end.
Proof.
  unfold size_check. intros Hsizes.
  destruct (Z.of_nat (length bytes) <? 16) eqn:E1; [ discriminate | ].
  destruct (read_u64_le bytes <? 2) eqn:E2; [ discriminate | ].
  destruct (CSAFETENSORS_MAX_JSON_SIZE <? read_u64_le bytes) eqn:E3;
    [ discriminate | ].
  destruct (Z.of_nat (length bytes) <? 8 + read_u64_le bytes) eqn:E4;
    [ discriminate | ].
  unfold parse_safetensors_header. cbv zeta. rewrite E1, E2, E3.
  unfold u64. rewrite Z.mod_small
    by (unfold CSAFETENSORS_MAX_JSON_SIZE in E3; lia).
  rewrite E4. unfold header_json.
  destruct (json_parse _) as [[ | | | | | ] r|e|]; reflexivity.
Qed.

Lemma loaders_fail_alike (data block : Z) (bytes : list byte)
  (e : error_msg) :
  data <> NULL ->
  size_check (Z.of_nat (length bytes)) (read_u64_le bytes) = None ->
  parse_safetensors_header bytes = Error e ->
  csafetensors_load_from_memory data bytes block
  = Failed CSAFETENSORS_ERROR_JSON_PARSE e /\
  csafetensors_mmap_from_memory data bytes
  = Failed CSAFETENSORS_ERROR_JSON_PARSE e.
Proof.
  intros Hdata Hsizes Hh.
  assert (E1 : (Z.of_nat (length bytes) <? 16) = false).
  { unfold size_check in Hsizes.
    destruct (Z.of_nat (length bytes) <? 16); [ discriminate | reflexivity ]. }
  unfold csafetensors_load_from_memory, csafetensors_mmap_from_memory.
  apply Z.eqb_neq in Hdata. rewrite Hdata, E1, Hh. cbn [orb].
  split; reflexivity.
Qed.

(** Without an opening bracket the value is read by
    [json_parse_value] alone. *)
Lemma scalar_text (input : list byte) :
  opens_no_bracket input = true ->
  match json_parse input with
  | POk v _ => is_scalar v = true
  | PErr _ => True
  | PFuel => False
  end.
Proof.
  unfold opens_no_bracket, json_parse, json_fuel. intros Hno.
  replace (3 * length input + 3)%nat with (S (3 * length input + 2))
    by lia.
  cbn [json_parse_value]. cbv zeta.
  destruct (json_skip_whitespace input) as [|c p]; [ exact I | ].
  apply negb_true_iff, orb_false_iff in Hno. destruct Hno as [Ha Ho].
  destruct (Byte.eqb c x6e);
    [ destruct (json_match _ _); [ reflexivity | exact I ] | ].
  destruct (Byte.eqb c x74);
    [ destruct (json_match _ _); [ reflexivity | exact I ] | ].
  destruct (Byte.eqb c x66);
    [ destruct (json_match _ _); [ reflexivity | exact I ] | ].
  destruct (Byte.eqb c QUOTE).
  { pose proof (parse_string_total (length input) (c :: p)) as Ht.
    destruct (json_parse_string _ _); [ reflexivity | exact I | ].
    now apply Ht. }
  rewrite Ha, Ho.
  destruct (Byte.eqb c x2d || is_digit c); [ | exact I ].
  pose proof (parse_number_total (c :: p)) as Ht.
  destruct (json_parse_number _); [ reflexivity | exact I | ].
  now apply Ht.
Qed.

(** X24.  A header whose text is not a JSON object makes both loaders
    fail with [CSAFETENSORS_ERROR_JSON_PARSE], for a buffer that
    passes the size checks.  When the text does not open with a
    bracket, so that no nested value is read, the reader returns: if
    it fails, the message is its own, and if it gives a value, the
    message is that the root must be an object.  The same message is
    left for a root that is an array of values without brackets. *)
Theorem bad_header_text_fails_load (data block : Z) (bytes : list byte)
  (Hdata : data <> NULL)
  (Hsizes : size_check (Z.of_nat (length bytes)) (read_u64_le bytes) = None) :
  (opens_no_bracket (header_json bytes) = true ->
   match json_parse (header_json bytes) with
   | PFuel => False
   | PErr e =>
       csafetensors_load_from_memory data bytes block
       = Failed CSAFETENSORS_ERROR_JSON_PARSE (JSON_parse_error e) /\
       csafetensors_mmap_from_memory data bytes
       = Failed CSAFETENSORS_ERROR_JSON_PARSE (JSON_parse_error e)
   | POk _ _ =>
       csafetensors_load_from_memory data bytes block
       = Failed CSAFETENSORS_ERROR_JSON_PARSE Root_must_be_object /\
       csafetensors_mmap_from_memory data bytes
       = Failed CSAFETENSORS_ERROR_JSON_PARSE Root_must_be_object
   end) /\
  (forall (items : list json_value) (rest : list byte),
      json_parse (header_json bytes) = POk (JSON_ARRAY items) rest ->
      forallb is_scalar items = true ->
      csafetensors_load_from_memory data bytes block
      = Failed CSAFETENSORS_ERROR_JSON_PARSE Root_must_be_object /\
      csafetensors_mmap_from_memory data bytes
      = Failed CSAFETENSORS_ERROR_JSON_PARSE Root_must_be_object).
Proof.
  pose proof (header_outcome bytes Hsizes) as Hh.
  split.
  - intros Hno. pose proof (scalar_text _ Hno) as Hs.
    destruct (json_parse (header_json bytes)) as [v r|e|];
      [ | | contradiction ].
    + apply (loaders_fail_alike data block bytes _ Hdata Hsizes).
      rewrite Hh. destruct v; try reflexivity; discriminate.
    + now apply (loaders_fail_alike data block bytes _ Hdata Hsizes).
  - intros items rest Hj _.
    apply (loaders_fail_alike data block bytes _ Hdata Hsizes).
    rewrite Hh, Hj. reflexivity.
Qed.

Lemma bad_header_text_fails_load_witness :
  (csafetensors_load_from_memory buf_addr string_root_file block_addr
   = Failed CSAFETENSORS_ERROR_JSON_PARSE Root_must_be_object /\
   csafetensors_mmap_from_memory buf_addr string_root_file
   = Failed CSAFETENSORS_ERROR_JSON_PARSE Root_must_be_object) /\
  (csafetensors_load_from_memory buf_addr array_root_file block_addr
   = Failed CSAFETENSORS_ERROR_JSON_PARSE Root_must_be_object /\
   csafetensors_mmap_from_memory buf_addr array_root_file
   = Failed CSAFETENSORS_ERROR_JSON_PARSE Root_must_be_object).
Proof.
  assert (Haddr : buf_addr <> NULL) by (vm_compute; discriminate).
  split.
  - assert (Hsizes : size_check (Z.of_nat (length string_root_file))
                       (read_u64_le string_root_file) = None)
      by (vm_compute; reflexivity).
    assert (Hno : opens_no_bracket (header_json string_root_file) = true)
      by (vm_compute; reflexivity).
    assert (Hj : json_parse (header_json string_root_file)
                 = POk (JSON_STRING (lit "tensors")) [])
      by (vm_compute; reflexivity).
    pose proof (proj1 (bad_header_text_fails_load buf_addr block_addr
                         string_root_file Haddr Hsizes) Hno) as H.
    rewrite Hj in H. exact H.
  - assert (Hsizes : size_check (Z.of_nat (length array_root_file))
                       (read_u64_le array_root_file) = None)
      by (vm_compute; reflexivity).
    eapply (proj2 (bad_header_text_fails_load buf_addr block_addr
                     array_root_file Haddr Hsizes)).
    + vm_compute. reflexivity.
    + reflexivity.
Defined.

(** ** Unicode escapes and UTF-8 *)

Lemma utf8_encode_decode (cp : Z) :
  0 <= cp <= 0x10FFFF ->
  utf8_decode (map u8 (utf8_encode cp))
  = if (0xD800 <=? cp) && (cp <=? 0xDFFF) then None else Some cp.
Proof.
  intros Hcp. rewrite (utf8_encode_values cp) by lia.
  assert (Ht : forall a b : Z, a = b -> (a =? b) = true)
    by (intros a b ->; apply Z.eqb_refl).
  destruct (Z.ltb_spec cp 0x80) as [H1 | H1];
    [ | destruct (Z.ltb_spec cp 0x800) as [H2 | H2];
      [ | destruct (Z.ltb_spec cp 0x10000) as [H3 | H3] ] ];
    cbn [utf8_decode]; cbv zeta.
  - rewrite (proj2 (Z.leb_le 0 cp)), (proj2 (Z.ltb_lt cp 0x80)) by lia.
    rewrite (proj2 (Z.leb_gt 0xD800 cp)) by lia. reflexivity.
  - rewrite (Ht ((0xC0 + cp / 64) / 32) 6)
      by (Z.div_mod_to_equations; lia).
    rewrite (Ht ((0x80 + cp mod 64) / 64) 2)
      by (Z.div_mod_to_equations; lia).
    replace ((0xC0 + cp / 64) mod 32 * 64 + (0x80 + cp mod 64) mod 64)
      with cp by (Z.div_mod_to_equations; lia).
    rewrite (proj2 (Z.leb_le 0x80 cp)) by lia.
    rewrite (proj2 (Z.leb_gt 0xD800 cp)) by lia. reflexivity.
  - rewrite (Ht ((0xE0 + cp / 4096) / 16) 14)
      by (Z.div_mod_to_equations; lia).
    rewrite (Ht ((0x80 + cp / 64 mod 64) / 64) 2)
      by (Z.div_mod_to_equations; lia).
    rewrite (Ht ((0x80 + cp mod 64) / 64) 2)
      by (Z.div_mod_to_equations; lia).
    replace ((0xE0 + cp / 4096) mod 16 * 4096
             + (0x80 + cp / 64 mod 64) mod 64 * 64
             + (0x80 + cp mod 64) mod 64)
      with cp by (Z.div_mod_to_equations; lia).
    rewrite (proj2 (Z.leb_le 0x800 cp)) by lia.
    cbn [andb].
    destruct ((0xD800 <=? cp) && (cp <=? 0xDFFF)); reflexivity.
  - rewrite (Ht ((0xF0 + cp / 262144) / 8) 30)
      by (Z.div_mod_to_equations; lia).
    rewrite (Ht ((0x80 + cp / 4096 mod 64) / 64) 2)
      by (Z.div_mod_to_equations; lia).
    rewrite (Ht ((0x80 + cp / 64 mod 64) / 64) 2)
      by (Z.div_mod_to_equations; lia).
    rewrite (Ht ((0x80 + cp mod 64) / 64) 2)
      by (Z.div_mod_to_equations; lia).
    replace ((0xF0 + cp / 262144) mod 8 * 262144
             + (0x80 + cp / 4096 mod 64) mod 64 * 4096
             + (0x80 + cp / 64 mod 64) mod 64 * 64
             + (0x80 + cp mod 64) mod 64)
      with cp by (Z.div_mod_to_equations; lia).
    rewrite (proj2 (Z.leb_le 0x10000 cp)), (proj2 (Z.leb_le cp 0x10FFFF))
      by lia.
    rewrite (proj2 (Z.leb_gt cp 0xDFFF)) by lia.
    rewrite andb_false_r. reflexivity.
Qed.

(** X28.  What [json_parse_unicode_escape] does with the four
    hexadecimal digits of an escape, with code point [cp].  When [cp]
    is no surrogate the escape is accepted and the bytes appended
    are the well-formed UTF-8 sequence of [cp].  When [cp] is a high
    surrogate and a second escape with a low surrogate follows, both
    are read and the bytes are the UTF-8 sequence of the code point
    of the pair; a high surrogate followed by an escape that is no low
    surrogate is refused.  A low surrogate on its own is accepted, and
    the three bytes appended for it are not well-formed UTF-8. *)
Theorem unicode_escape_is_utf8 (c0 c1 c2 c3 : byte) (p : list byte)
  (cp : Z)
  (Hhex : hex4 c0 c1 c2 c3 = Some cp) :
  (cp < 0xD800 \/ 0xDFFF < cp ->
   json_parse_unicode_escape (c0 :: c1 :: c2 :: c3 :: p)
   = Some (utf8_encode cp, p) /\
   utf8_decode (map u8 (utf8_encode cp)) = Some cp) /\
  (0xDC00 <= cp <= 0xDFFF ->
   json_parse_unicode_escape (c0 :: c1 :: c2 :: c3 :: p)
   = Some (utf8_encode cp, p) /\
   length (utf8_encode cp) = 3%nat /\
   utf8_decode (map u8 (utf8_encode cp)) = None) /\
  (0xD800 <= cp <= 0xDBFF ->
   forall (d0 d1 d2 d3 : byte) (rest : list byte) (lo : Z),
     p = BACKSLASH :: x75 :: d0 :: d1 :: d2 :: d3 :: rest ->
     hex4 d0 d1 d2 d3 = Some lo ->
     (0xDC00 <= lo <= 0xDFFF ->
      exists out : list byte,
        json_parse_unicode_escape (c0 :: c1 :: c2 :: c3 :: p)
        = Some (out, rest) /\
        utf8_decode (map u8 out)
        = Some (0x10000 + (cp - 0xD800) * 1024 + (lo - 0xDC00))) /\
     (lo < 0xDC00 \/ 0xDFFF < lo ->
      json_parse_unicode_escape (c0 :: c1 :: c2 :: c3 :: p) = None)).
Proof.
  pose proof (hex4_range _ _ _ _ _ Hhex) as Hcp.
  split; [ | split ].
  - intros Hns. cbn [json_parse_unicode_escape]. rewrite Hhex.
    assert (Hs : (0xD800 <=? cp) && (cp <=? 0xDBFF) = false).
    { apply andb_false_iff.
      destruct Hns; [ left; apply Z.leb_gt | right; apply Z.leb_gt ]; lia. }
    rewrite Hs. split; [ reflexivity | ].
    rewrite utf8_encode_decode by lia.
    replace ((0xD800 <=? cp) && (cp <=? 0xDFFF)) with false; [ reflexivity | ].
    symmetry. apply andb_false_iff.
    destruct Hns; [ left; apply Z.leb_gt | right; apply Z.leb_gt ]; lia.
  - intros Hlow. cbn [json_parse_unicode_escape]. rewrite Hhex.
    assert (Hs : (0xD800 <=? cp) && (cp <=? 0xDBFF) = false).
    { apply andb_false_iff. right. apply Z.leb_gt. lia. }
    rewrite Hs. split; [ reflexivity | ].
    split.
    + unfold utf8_encode.
      destruct (Z.ltb_spec cp 0x80); [ lia | ].
      destruct (Z.ltb_spec cp 0x800); [ lia | ].
      destruct (Z.ltb_spec cp 0x10000); [ reflexivity | lia ].
    + rewrite utf8_encode_decode by lia.
      rewrite (proj2 (Z.leb_le 0xD800 cp)), (proj2 (Z.leb_le cp 0xDFFF))
        by lia.
      reflexivity.
  - intros Hhigh d0 d1 d2 d3 rest lo -> Hlo.
    pose proof (hex4_range _ _ _ _ _ Hlo) as Hlor.
    cbn [json_parse_unicode_escape]. rewrite Hhex.
    rewrite (proj2 (Z.leb_le 0xD800 cp)), (proj2 (Z.leb_le cp 0xDBFF))
      by lia.
    cbn [andb]. change (Byte.eqb BACKSLASH BACKSLASH) with true.
    change (Byte.eqb x75 x75) with true. cbn [negb orb].
    rewrite Hlo. split.
    + intros Hl.
      rewrite (proj2 (Z.ltb_ge lo 0xDC00)), (proj2 (Z.ltb_ge 0xDFFF lo))
        by lia.
      cbn [orb]. cbv zeta. rewrite Z.shiftl_mul_pow2 by lia.
      change (2 ^ 10) with 1024.
      eexists. split; [ reflexivity | ].
      rewrite utf8_encode_decode by lia.
      rewrite (proj2 (Z.leb_gt
                        (0x10000 + (cp - 0xD800) * 1024 + (lo - 0xDC00))
                        0xDFFF)) by lia.
      rewrite andb_false_r. reflexivity.
    + intros Hl.
      replace ((lo <? 0xDC00) || (0xDFFF <? lo)) with true; [ reflexivity | ].
      symmetry. apply orb_true_iff.
      destruct Hl; [ left; apply Z.ltb_lt | right; apply Z.ltb_lt ]; lia.
Qed.

Lemma unicode_escape_is_utf8_witness :
  (json_parse_unicode_escape (x30 :: x30 :: x65 :: x39 :: lit "x")
   = Some (utf8_encode 0xE9, lit "x") /\
   utf8_decode (map u8 (utf8_encode 0xE9)) = Some 0xE9) /\
  (json_parse_unicode_escape (x64 :: x63 :: x30 :: x30 :: lit "x")
   = Some (utf8_encode 0xDC00, lit "x") /\
   length (utf8_encode 0xDC00) = 3%nat /\
   utf8_decode (map u8 (utf8_encode 0xDC00)) = None).
Proof.
  split.
  - apply (proj1 (unicode_escape_is_utf8 x30 x30 x65 x39 (lit "x") 0xE9
                    ltac:(vm_compute; reflexivity))).
    left. lia.
  - apply (proj1 (proj2 (unicode_escape_is_utf8 x64 x63 x30 x30 (lit "x")
                           0xDC00 ltac:(vm_compute; reflexivity)))).
    lia.
Defined.
